(** * Flex Portal Extension: the background coordinator

    A shallow embedding of [background.js] (the service worker with the
    notification registry, the task scheduler and the message router) and
    of the install listener of the settings-seeding background script.

    JavaScript is modelled as a state-and-exception monad over an explicit
    [World]: the module-level maps of the script, the browser-side state the
    script talks to (notification centre, interval timers, device-local
    storage, tabs) and the console.  An [async] function is a computation
    that returns a promise: fulfilled, rejected, or pending for good when
    the function waits for something that never happens.  [await] rethrows
    a rejection and never continues on such a pending promise.

    Strings are sequences of code units below 256, one per character of
    a Rocq string. *)

From stdpp Require Import base option list gmap strings pretty fin_maps.
From Stdlib Require Import ZArith Lia.

Local Open Scope Z_scope.

(** ** JavaScript values *)

(** Primitive values held in option bags, payloads and storage.  [VIso t]
    is the ISO-8601 string that [new Date().toISOString()] yields at
    instant [t]. *)
Inductive JsVal :=
  | VBool (b : bool)
  | VNum (z : Z)
  | VStr (s : string)
  | VIso (t : Z).

#[global] Instance JsVal_eq_dec : EqDecision JsVal.
Proof. solve_decision. Defined.

(** A plain object used as a bag of properties. *)
Abbreviation JsObject := (gmap string JsVal).

(** [{...a, ...b}]: properties of [b] win.  stdpp's union prefers its left
    operand. *)
Definition spread (a b : JsObject) : JsObject := b ∪ a.

(** JavaScript truthiness of a primitive. *)
Definition truthy (v : JsVal) : bool :=
  match v with
  | VBool b => b
  | VNum z => negb (z =? 0)
  | VStr s => negb (String.eqb s "")
  | VIso _ => true
  end.

(** ** Numbers

    Numbers are integers among the finite doubles.  [to_double z] is the
    double nearest to [z] (round to nearest, ties to even): [z] itself up
    to 2^53, a multiple of a power of two beyond.  The subtraction and the
    comparison of [cleanupCache] go through it. *)
Definition to_double (z : Z) : Z :=
  let a := Z.abs z in
  if a <? 2 ^ 53 then z
  else
    let e := Z.log2 a - 52 in
    let q := Z.shiftr a e in
    let r := a - Z.shiftl q e in
    let half := Z.shiftl 1 (e - 1) in
    let q' := if (half <? r) || ((r =? half) && Z.odd q) then q + 1 else q in
    Z.sgn z * Z.shiftl q' e.

(** [a - b] and [a > b] on numbers. *)
Definition js_minus (a b : Z) : Z := to_double (to_double a - to_double b).
Definition js_gt (a b : Z) : bool := to_double b <? to_double a.

(** ** Insertion-ordered maps ([new Map()])

    [for (const id of m.keys())] visits keys in insertion order, and the
    sweep of [clearAllNotifications] depends on it, so the registry is an
    association list with the operations of a JavaScript [Map]. *)
Module JsMap.
Section ops.
Context {V : Type}.

Fixpoint get (k : string) (m : list (string * V)) : option V :=
  match m with
  | [] => None
  | (k', v) :: m' => if decide (k = k') then Some v else get k m'
  end.

Definition has (k : string) (m : list (string * V)) : bool :=
  match get k m with Some _ => true | None => false end.

(** [m.set(k, v)]: an existing key keeps its position, a new key goes
    last. *)
Fixpoint set (k : string) (v : V) (m : list (string * V)) : list (string * V) :=
  match m with
  | [] => [(k, v)]
  | (k', v') :: m' =>
      if decide (k = k') then (k, v) :: m' else (k', v') :: set k v m'
  end.

Fixpoint delete (k : string) (m : list (string * V)) : list (string * V) :=
  match m with
  | [] => []
  | (k', v') :: m' =>
      if decide (k = k') then delete k m' else (k', v') :: delete k m'
  end.

Definition keys (m : list (string * V)) : list string := m.*1.

Definition clear (m : list (string * V)) : list (string * V) := [].
End ops.
End JsMap.

(** ** Data model *)

(** A record of the notification registry. *)
Record NotificationRecord := {
  createdAt : Z;
  updatedAt : option Z;
  options : JsObject
}.

(** A data object: the payload bound to a task, or an object held in
    device-local storage.  Its properties [maxAge] and [timestamp], when
    present, are numbers; its other properties are a bag, which has
    neither of the two names ([plain]). *)
Definition plain (m : JsObject) : bool :=
  bool_decide (m !! "timestamp" = None) && bool_decide (m !! "maxAge" = None).

Record DataObject := {
  maxAge : option Z;
  timestamp : option Z;
  other : JsObject;
  other_plain : Is_true (plain other)
}.

Abbreviation TaskData := DataObject.

(** The evidence that a bag is plain, in the one form it has once the bag
    is known. *)
Definition settle {b : bool} : Is_true b → Is_true b :=
  match b with
  | true => λ _, I
  | false => λ H, H
  end.

Definition plain_union (a b : JsObject) :
  Is_true (plain a) → Is_true (plain b) → Is_true (plain (b ∪ a)).
Proof.
  unfold plain. rewrite !andb_True, !bool_decide_spec.
  intros [? ?] [? ?]. by rewrite !lookup_union_None.
Qed.

Definition plain_insert (k : string) (v : JsVal) (m : JsObject) :
  k ≠ "timestamp" → k ≠ "maxAge" → Is_true (plain m) → Is_true (plain (<[k := v]> m)).
Proof.
  unfold plain. rewrite !andb_True, !bool_decide_spec.
  intros ?? [? ?]. by rewrite !lookup_insert_ne.
Qed.

#[global] Instance DataObject_eq_dec : EqDecision DataObject.
Proof.
  intros [m1 t1 o1 p1] [m2 t2 o2 p2].
  destruct (decide (m1 = m2)) as [->|]; [|right; congruence].
  destruct (decide (t1 = t2)) as [->|]; [|right; congruence].
  destruct (decide (o1 = o2)) as [->|]; [|right; congruence].
  left. f_equal. apply proof_irrel.
Defined.

(** [{}] *)
Definition empty_data : DataObject :=
  {| maxAge := None; timestamp := None; other := ∅; other_plain := I |}.

(** [{...a, ...b}] on data objects: properties of [b] win. *)
Definition spread_data (a b : DataObject) : DataObject :=
  {| maxAge := match maxAge b with Some m => Some m | None => maxAge a end;
     timestamp := match timestamp b with Some t => Some t | None => timestamp a end;
     other := other b ∪ other a;
     other_plain := settle (plain_union _ _ (other_plain a) (other_plain b)) |}.

(** [{...o, lastSync: new Date(now).toISOString()}] *)
Definition with_lastSync (now : Z) (o : DataObject) : DataObject :=
  {| maxAge := maxAge o; timestamp := timestamp o;
     other := <["lastSync" := VIso now]> (other o);
     other_plain :=
       settle (plain_insert "lastSync" (VIso now) _ ltac:(done) ltac:(done) (other_plain o)) |}.

(** The own properties of a string: its characters under their indices,
    from index [i] on. *)
Fixpoint characters_from (i : nat) (s : string) : JsObject :=
  match s with
  | EmptyString => ∅
  | String c s' => <[pretty i := VStr (String c EmptyString)]> (characters_from (S i) s')
  end.

Definition index_not_typed (i : nat) : pretty i ≠ "timestamp" ∧ pretty i ≠ "maxAge".
Proof.
  assert (∀ (x : N) (s : string) (c : Ascii.ascii) (s' : string),
            (∀ d, (d < 10)%N → pretty_N_char d ≠ c) →
            s ≠ String c s' → pretty_N_go x s ≠ String c s') as Hgo.
  { intros x s c s' Hc. revert s.
    induction (N.lt_wf_0 x) as [x _ IH]; intros s Hs.
    assert (x = 0 ∨ 0 < x)%N as [->|Hx] by lia; [by rewrite pretty_N_go_0|].
    rewrite pretty_N_go_step by done.
    apply IH; [by apply N.div_lt|].
    intros [= Hd _]. by apply (Hc (x `mod` 10)%N); [apply N.mod_lt|]. }
  assert (∀ c s', (∀ d, (d < 10)%N → pretty_N_char d ≠ c) →
                  pretty i ≠ String c s') as Hpretty.
  { intros c s' Hc. unfold pretty, pretty_nat, pretty, pretty_N.
    destruct (decide (N.of_nat i = 0)%N).
    - intros [= Hd _]. by apply (Hc 0%N).
    - by apply Hgo. }
  assert (∀ c, (∀ d, (d < 10)%N → pretty_N_char d ≠ c) ↔
               Forall (λ d, pretty_N_char d ≠ c) [0; 1; 2; 3; 4; 5; 6; 7; 8; 9]%N) as Hdigits.
  { intros c. rewrite Forall_forall. split.
    - intros H d Hd. apply H.
      repeat (apply elem_of_cons in Hd as [->|Hd]; [lia|]). by apply elem_of_nil in Hd.
    - intros H d Hd. apply H.
      assert (d = 0 ∨ d = 1 ∨ d = 2 ∨ d = 3 ∨ d = 4 ∨ d = 5 ∨ d = 6 ∨ d = 7 ∨ d = 8 ∨ d = 9)%N
        as Hcases by lia.
      repeat (destruct Hcases as [->|Hcases]; [set_solver|]). subst. set_solver. }
  split; apply Hpretty, Hdigits; repeat constructor; done.
Qed.

Definition plain_characters (s : string) (i : nat) : Is_true (plain (characters_from i s)).
Proof.
  revert i. induction s as [|c s IH]; intros i; simpl; [done|].
  apply plain_insert; [apply index_not_typed..|apply IH].
Qed.

(** [{...s}] for a string [s]. *)
Definition characters (s : string) : DataObject :=
  {| maxAge := None; timestamp := None;
     other := characters_from 0 s;
     other_plain := settle (plain_characters s 0) |}.

(** The argument of [scheduleBackgroundTask].  [None] for [t_interval] or
    [t_data] stands for an omitted property. *)
Record Task := {
  t_id : string;
  t_action : string;
  t_interval : option Z;
  t_data : option TaskData
}.

(** A record of [scheduledTasks]. *)
Record TaskRecord := {
  action : string;
  interval : Z;
  data : TaskData;
  intervalId : nat
}.

(** A live [setInterval] timer: the closure [executeTask] it was armed
    with (task id, action and payload) and its period. *)
Record Timer := {
  tm_task : string;
  tm_action : string;
  tm_data : TaskData;
  tm_period : Z
}.

(** A value of [chrome.storage.local]: [null], a primitive or a data
    object. *)
Inductive StoredValue :=
  | SNull
  | SBool (b : bool)
  | SNum (z : Z)
  | SStr (s : string)
  | SObj (o : DataObject).

#[global] Instance StoredValue_eq_dec : EqDecision StoredValue.
Proof. solve_decision. Defined.

(** Messages sent to tabs. *)
Inductive TabMessage :=
  | NotificationAction (notificationId actionType : string)
      (opts : JsObject) (buttonIndex : option Z)
  | CheckStatus (d : TaskData)
  | RefreshToken.

(** Replies handed to [sendResponse]. *)
Inductive Payload :=
  | NoPayload
  | Notifications (l : list (string * NotificationRecord))
  | Status (status : string) (timestamp : Z) (version : string).

Record Response := {
  success : bool;
  error : option string;
  payload : Payload
}.

Inductive Level := Info | Warn | Error.

(** One console line: level, text and the error object logged with it. *)
Record LogEntry := {
  level : Level;
  text : string;
  cause : option string
}.

(** The state the script runs against. *)
Record World := {
  activeNotifications : list (string * NotificationRecord);
  shown : gmap string JsObject;          (* the platform's notifications *)
  scheduledTasks : gmap string TaskRecord;
  timers : gmap nat Timer;               (* live interval timers *)
  nextTimer : nat;                       (* next handle of setInterval *)
  store : gmap string StoredValue;       (* chrome.storage.local *)
  set_calls : list (gmap string StoredValue); (* arguments of storage.set *)
  tabs : list nat;                       (* open tabs, by id *)
  created_tabs : list string;            (* urls given to tabs.create *)
  delivered : list (nat * TabMessage);   (* tabs.sendMessage calls *)
  sent : list Response;                  (* sendResponse calls *)
  console : list LogEntry;
  clock : Z                              (* Date.now() *)
}.

Definition with_activeNotifications (x : list (string * NotificationRecord)) (w : World) : World :=
  {| activeNotifications := x; shown := shown w; scheduledTasks := scheduledTasks w;
     timers := timers w; nextTimer := nextTimer w; store := store w;
     set_calls := set_calls w; tabs := tabs w; created_tabs := created_tabs w;
     delivered := delivered w; sent := sent w; console := console w; clock := clock w |}.

Definition with_shown (x : gmap string JsObject) (w : World) : World :=
  {| activeNotifications := activeNotifications w; shown := x; scheduledTasks := scheduledTasks w;
     timers := timers w; nextTimer := nextTimer w; store := store w;
     set_calls := set_calls w; tabs := tabs w; created_tabs := created_tabs w;
     delivered := delivered w; sent := sent w; console := console w; clock := clock w |}.

Definition with_scheduledTasks (x : gmap string TaskRecord) (w : World) : World :=
  {| activeNotifications := activeNotifications w; shown := shown w; scheduledTasks := x;
     timers := timers w; nextTimer := nextTimer w; store := store w;
     set_calls := set_calls w; tabs := tabs w; created_tabs := created_tabs w;
     delivered := delivered w; sent := sent w; console := console w; clock := clock w |}.

Definition with_timers (x : gmap nat Timer) (n : nat) (w : World) : World :=
  {| activeNotifications := activeNotifications w; shown := shown w; scheduledTasks := scheduledTasks w;
     timers := x; nextTimer := n; store := store w;
     set_calls := set_calls w; tabs := tabs w; created_tabs := created_tabs w;
     delivered := delivered w; sent := sent w; console := console w; clock := clock w |}.

Definition with_store (x : gmap string StoredValue) (w : World) : World :=
  {| activeNotifications := activeNotifications w; shown := shown w; scheduledTasks := scheduledTasks w;
     timers := timers w; nextTimer := nextTimer w; store := x;
     set_calls := set_calls w; tabs := tabs w; created_tabs := created_tabs w;
     delivered := delivered w; sent := sent w; console := console w; clock := clock w |}.

Definition with_set_calls (x : list (gmap string StoredValue)) (w : World) : World :=
  {| activeNotifications := activeNotifications w; shown := shown w; scheduledTasks := scheduledTasks w;
     timers := timers w; nextTimer := nextTimer w; store := store w;
     set_calls := x; tabs := tabs w; created_tabs := created_tabs w;
     delivered := delivered w; sent := sent w; console := console w; clock := clock w |}.

Definition with_created_tabs (x : list string) (w : World) : World :=
  {| activeNotifications := activeNotifications w; shown := shown w; scheduledTasks := scheduledTasks w;
     timers := timers w; nextTimer := nextTimer w; store := store w;
     set_calls := set_calls w; tabs := tabs w; created_tabs := x;
     delivered := delivered w; sent := sent w; console := console w; clock := clock w |}.

Definition with_delivered (x : list (nat * TabMessage)) (w : World) : World :=
  {| activeNotifications := activeNotifications w; shown := shown w; scheduledTasks := scheduledTasks w;
     timers := timers w; nextTimer := nextTimer w; store := store w;
     set_calls := set_calls w; tabs := tabs w; created_tabs := created_tabs w;
     delivered := x; sent := sent w; console := console w; clock := clock w |}.

Definition with_sent (x : list Response) (w : World) : World :=
  {| activeNotifications := activeNotifications w; shown := shown w; scheduledTasks := scheduledTasks w;
     timers := timers w; nextTimer := nextTimer w; store := store w;
     set_calls := set_calls w; tabs := tabs w; created_tabs := created_tabs w;
     delivered := delivered w; sent := x; console := console w; clock := clock w |}.

Definition with_console (x : list LogEntry) (w : World) : World :=
  {| activeNotifications := activeNotifications w; shown := shown w; scheduledTasks := scheduledTasks w;
     timers := timers w; nextTimer := nextTimer w; store := store w;
     set_calls := set_calls w; tabs := tabs w; created_tabs := created_tabs w;
     delivered := delivered w; sent := sent w; console := x; clock := clock w |}.

(** A service worker that has just been loaded. *)
Definition fresh_world (now : Z) : World :=
  {| activeNotifications := []; shown := ∅; scheduledTasks := ∅;
     timers := ∅; nextTimer := 0%nat; store := ∅; set_calls := [];
     tabs := []; created_tabs := []; delivered := []; sent := [];
     console := []; clock := now |}.

(** ** The platform

    What the browser answers.  A field that is [Some msg] makes the call
    fail with an error whose [message] is [msg]. *)
Record Platform := {
  notifications_create_fails : string → JsObject → option string;
  notifications_update_fails : string → JsObject → option string;
  notifications_clear_fails : string → option string;
  storage_fault : option string;      (* chrome.storage.local.get throws *)
  manifest_version : string + string; (* getManifest().version, or it throws *)
  runtime_id : string                 (* chrome.runtime.id *)
}.

(** ** The monad *)

(** How a piece of code ends: normally, by a throw, or not at all ([Hang]:
    it waits at an [await] for a promise that never settles). *)
Inductive Completion (A : Type) :=
  | Normal (a : A)
  | Throw (e : string)
  | Hang.
Arguments Normal {A} a.
Arguments Throw {A} e.
Arguments Hang {A}.

Definition JS (A : Type) : Type := World → World * Completion A.

#[global] Instance JS_ret : MRet JS := λ A a w, (w, Normal a).
#[global] Instance JS_bind : MBind JS := λ A B f m w,
  match m w with
  | (w', Normal a) => f a w'
  | (w', Throw e) => (w', Throw e)
  | (w', Hang) => (w', Hang)
  end.

Definition throw {A} (e : string) : JS A := λ w, (w, Throw e).

(** [try { body } catch (e) { handler }]: code that never continues is
    not caught. *)
Definition try_catch {A} (body : JS A) (handler : string → JS A) : JS A := λ w,
  match body w with
  | (w', Normal a) => (w', Normal a)
  | (w', Throw e) => handler e w'
  | (w', Hang) => (w', Hang)
  end.

Definition gets {A} (f : World → A) : JS A := λ w, (w, Normal (f w)).
Definition modify (f : World → World) : JS unit := λ w, (f w, Normal tt).

(** A promise: settled, or [Pending] for good.  The promises of this
    script carry no value. *)
Inductive Promise :=
  | Fulfilled
  | Rejected (e : string)
  | Pending.

(** An [async function] run as far as it gets: a throw in the body
    rejects the promise it returns, a body that never continues leaves it
    pending. *)
Definition async (body : JS unit) : JS Promise := λ w,
  match body w with
  | (w', Normal _) => (w', Normal Fulfilled)
  | (w', Throw e) => (w', Normal (Rejected e))
  | (w', Hang) => (w', Normal Pending)
  end.

(** An [async function] whose body ends in [return <promise>]: the
    returned promise is adopted. *)
Definition async_adopt (body : JS Promise) : JS Promise := λ w,
  match body w with
  | (w', Normal p) => (w', Normal p)
  | (w', Throw e) => (w', Normal (Rejected e))
  | (w', Hang) => (w', Normal Pending)
  end.

(** [new Promise((resolve) => { call(..., callback) })] where every normal
    path of [callback] ends in [resolve()].  A throw of [call] itself is
    a throw in the executor and rejects the promise.  A throw in
    [callback] is the browser's to report: [resolve] is never called and
    the promise stays pending. *)
Definition new_promise {A} (call : JS A) (callback : A → JS unit) : JS Promise := λ w,
  match call w with
  | (w1, Normal a) =>
      match callback a w1 with
      | (w2, Normal _) => (w2, Normal Fulfilled)
      | (w2, _) => (w2, Normal Pending)
      end
  | (w1, Throw e) => (w1, Normal (Rejected e))
  | (w1, Hang) => (w1, Normal Pending)
  end.

Definition await (p : Promise) : JS unit :=
  match p with
  | Fulfilled => mret tt
  | Rejected e => throw e
  | Pending => λ w, (w, Hang)
  end.

(** [for (const x of xs) { body }] *)
Fixpoint for_of {A} (xs : list A) (body : A → JS unit) : JS unit :=
  match xs with
  | [] => mret tt
  | x :: xs' => body x ;; for_of xs' body
  end.

(** ** Console and clock *)

Definition console_log (s : string) : JS unit :=
  modify (λ w, with_console (console w ++ [{| level := Info; text := s; cause := None |}]) w).
Definition console_warn (s : string) : JS unit :=
  modify (λ w, with_console (console w ++ [{| level := Warn; text := s; cause := None |}]) w).
Definition console_error (s : string) (e : string) : JS unit :=
  modify (λ w, with_console (console w ++ [{| level := Error; text := s; cause := Some e |}]) w).

Definition Date_now : JS Z := gets clock.

(** * The service worker, [background.js] *)

Section background.
Context (P : Platform).

(** ** Platform calls *)

(** [chrome.notifications.create(id, options)] *)
Definition chrome_notifications_create (id : string) (opts : JsObject) : JS Promise := λ w,
  match notifications_create_fails P id opts with
  | Some e => (w, Normal (Rejected e))
  | None => (with_shown (<[id := opts]> (shown w)) w, Normal Fulfilled)
  end.

(** [chrome.notifications.update(id, options)]: an unknown id resolves
    without effect. *)
Definition chrome_notifications_update (id : string) (opts : JsObject) : JS Promise := λ w,
  match notifications_update_fails P id opts with
  | Some e => (w, Normal (Rejected e))
  | None => (with_shown (alter (λ old, spread old opts) id (shown w)) w, Normal Fulfilled)
  end.

(** [chrome.notifications.clear(id)]: an unknown id resolves without
    effect. *)
Definition chrome_notifications_clear (id : string) : JS Promise := λ w,
  match notifications_clear_fails P id with
  | Some e => (w, Normal (Rejected e))
  | None => (with_shown (delete id (shown w)) w, Normal Fulfilled)
  end.

(** [chrome.storage.local.get(keys, callback)]: the stored items, handed
    to the callback. *)
Definition chrome_storage_local_get : JS (gmap string StoredValue) := λ w,
  match storage_fault P with
  | Some e => (w, Throw e)
  | None => (w, Normal (store w))
  end.

(** [chrome.storage.local.set(items, callback)] *)
Definition chrome_storage_local_set (items : gmap string StoredValue) : JS unit :=
  modify (λ w, with_set_calls (set_calls w ++ [items]) (with_store (items ∪ store w) w)).

(** [chrome.storage.local.remove(keys, callback)] *)
Definition chrome_storage_local_remove (keys : list string) : JS unit :=
  modify (λ w, with_store (foldr delete (store w) keys) w).

(** [setInterval(callback, period)] returns a fresh handle. *)
Definition setInterval (t : Timer) : JS nat := λ w,
  (with_timers (<[nextTimer w := t]> (timers w)) (S (nextTimer w)) w,
   Normal (nextTimer w)).

(** [clearInterval(handle)]: an unknown handle is ignored. *)
Definition clearInterval (h : nat) : JS unit :=
  modify (λ w, with_timers (delete h (timers w)) (nextTimer w) w).

(** [chrome.tabs.query({}, tabs => tabs.forEach(tab =>
    chrome.tabs.sendMessage(tab.id, msg).catch(() => {})))]: one
    delivery attempt per open tab, failures dropped. *)
Definition broadcast (msg : TabMessage) : JS unit :=
  ts ← gets tabs;
  for_of ts (λ tab, modify (λ w, with_delivered (delivered w ++ [(tab, msg)]) w)).

(** ** Notification handling *)

Definition default_notification_options : JsObject :=
  <["icon" := VStr "icons/icon-48x48.png"]>
    (<["badge" := VStr "icons/icon-badge-32x32.png"]>
       {["requireInteraction" := VBool false]}).

Definition showNotification (id : string) (opts : JsObject) : JS Promise :=
  async (try_catch
    (let defaultOptions := spread default_notification_options opts in
     p ← chrome_notifications_create id
           (spread {["type" := VStr "basic"]} defaultOptions);
     await p ;;
     now ← Date_now;
     modify (λ w, with_activeNotifications
       (JsMap.set id {| createdAt := now; updatedAt := None; options := defaultOptions |}
          (activeNotifications w)) w) ;;
     console_log ("[Notification] Created: " +:+ id))
    (λ e, console_error ("[Notification Error] Failed to create notification " +:+ id +:+ ":") e)).

Definition updateNotification (id : string) (opts : JsObject) : JS Promise :=
  async (try_catch
    (currentNotification ← gets (λ w, JsMap.get id (activeNotifications w));
     match currentNotification with
     | None => console_warn ("[Notification] Notification " +:+ id +:+ " not found")
     | Some cur =>
         let updatedOptions := spread (options cur) opts in
         p ← chrome_notifications_update id updatedOptions;
         await p ;;
         now ← Date_now;
         modify (λ w, with_activeNotifications
           (JsMap.set id {| createdAt := createdAt cur; updatedAt := Some now;
                            options := updatedOptions |}
              (activeNotifications w)) w) ;;
         console_log ("[Notification] Updated: " +:+ id)
     end)
    (λ e, console_error ("[Notification Error] Failed to update notification " +:+ id +:+ ":") e)).

Definition clearNotification (id : string) : JS Promise :=
  async (try_catch
    (p ← chrome_notifications_clear id;
     await p ;;
     modify (λ w, with_activeNotifications (JsMap.delete id (activeNotifications w)) w) ;;
     console_log ("[Notification] Cleared: " +:+ id))
    (λ e, console_error ("[Notification Error] Failed to clear notification " +:+ id +:+ ":") e)).

Definition clearAllNotifications : JS Promise :=
  async (try_catch
    (ids ← gets (λ w, JsMap.keys (activeNotifications w));
     for_of ids (λ id, p ← chrome_notifications_clear id; await p) ;;
     modify (λ w, with_activeNotifications (JsMap.clear (activeNotifications w)) w) ;;
     console_log "[Notification] All notifications cleared")
    (λ e, console_error "[Notification Error] Failed to clear all notifications:" e)).

(** ** Notification click handlers *)

Definition handleNotificationAction (notificationId actionType : string)
    (opts : JsObject) (buttonIndex : option Z) : JS unit :=
  try_catch
    (broadcast (NotificationAction notificationId actionType opts buttonIndex))
    (λ e, console_error "[Action Handler Error]" e).

Definition has_clickAction (n : NotificationRecord) : bool :=
  match options n !! "clickAction" with
  | Some v => truthy v
  | None => false
  end.

Definition onClicked (notificationId : string) : JS unit :=
  console_log ("[Notification Clicked] " +:+ notificationId) ;;
  notification ← gets (λ w, JsMap.get notificationId (activeNotifications w));
  match notification with
  | Some n =>
      if has_clickAction n
      then handleNotificationAction notificationId "click" (options n) None
      else mret tt
  | None => mret tt
  end ;;
  _ ← clearNotification notificationId;
  mret tt.

Definition onButtonClicked (notificationId : string) (buttonIndex : Z) : JS unit :=
  console_log ("[Notification Button Clicked] " +:+ notificationId +:+ ", button: "
               +:+ pretty buttonIndex) ;;
  notification ← gets (λ w, JsMap.get notificationId (activeNotifications w));
  match notification with
  | Some n => handleNotificationAction notificationId "button" (options n) (Some buttonIndex)
  | None => mret tt
  end ;;
  _ ← clearNotification notificationId;
  mret tt.

Definition onClosed (notificationId : string) (byUser : bool) : JS unit :=
  console_log ("[Notification Closed] " +:+ notificationId +:+ ", by user: "
               +:+ (if byUser then "true" else "false")) ;;
  modify (λ w, with_activeNotifications
                 (JsMap.delete notificationId (activeNotifications w)) w).

(** ** Background tasks *)

(** What [{...(value || {})}] holds: the properties of an object, the
    characters of a string (none for the empty string, which is falsy),
    nothing for [null], [undefined], a number or a boolean. *)
Definition own_properties (value : option StoredValue) : DataObject :=
  match value with
  | Some (SObj o) => o
  | Some (SStr s) => characters s
  | Some (SNum _) | Some (SBool _) | Some SNull | None => empty_data
  end.

(** [{ ...currentData, ...data, lastSync: new Date().toISOString() }]
    with [currentData = result.flexPortalData || {}]. *)
Definition merge_portal_data (cur : option StoredValue) (d : TaskData) (now : Z) : StoredValue :=
  SObj (with_lastSync now (spread_data (own_properties cur) d)).

Definition syncData (d : TaskData) : JS Promise :=
  new_promise chrome_storage_local_get
    (λ result,
       now ← Date_now;
       let updatedData := merge_portal_data (result !! "flexPortalData") d now in
       chrome_storage_local_set {["flexPortalData" := updatedData]}).

Definition checkPortalStatus (d : TaskData) : JS Promise :=
  async (try_catch
    (broadcast (CheckStatus d) ;;
     console_log "[Background Task] Portal status checked")
    (λ e, console_error "[Status Check Error]" e)).

Definition seven_days : Z := 7 * 24 * 60 * 60 * 1000.

(** [data.maxAge || 7 * 24 * 60 * 60 * 1000] *)
Definition effective_maxAge (d : TaskData) : Z :=
  match maxAge d with
  | Some m => if m =? 0 then seven_days else m
  | None => seven_days
  end.

(** The message of the [TypeError] raised by [value.timestamp] when
    [value] is [null]. *)
Definition null_timestamp_error : string :=
  "Cannot read properties of null (reading 'timestamp')".

(** [value.timestamp]: a property of objects only; reading it off [null]
    throws. *)
Definition value_timestamp (value : StoredValue) : JS (option Z) :=
  match value with
  | SNull => throw null_timestamp_error
  | SObj o => mret (timestamp o)
  | SBool _ | SNum _ | SStr _ => mret None
  end.

(** [value.timestamp && (now - value.timestamp) > maxAge] *)
Definition expired (now maxAge : Z) (value : StoredValue) : JS bool :=
  ts ← value_timestamp value;
  mret match ts with
       | Some t => negb (t =? 0) && js_gt (js_minus now t) maxAge
       | None => false
       end.

(** The loop over [Object.entries(items)] that fills [keysToRemove]. *)
Fixpoint collect_expired (now maxAge : Z) (entries : list (string * StoredValue))
    : JS (list string) :=
  match entries with
  | [] => mret []
  | (key, value) :: entries' =>
      old ← expired now maxAge value;
      keysToRemove ← collect_expired now maxAge entries';
      mret (if (old : bool) then key :: keysToRemove else keysToRemove)
  end.

Definition cleanupCache (d : TaskData) : JS Promise :=
  async_adopt (try_catch
    (let maxAge := effective_maxAge d in
     new_promise chrome_storage_local_get
       (λ items,
          now ← Date_now;
          keysToRemove ← collect_expired now maxAge (map_to_list items);
          if (0 <? length keysToRemove)%nat
          then chrome_storage_local_remove keysToRemove ;;
               console_log ("[Background Task] Cleaned up "
                            +:+ pretty (length keysToRemove) +:+ " items")
          else console_log "[Background Task] Cache cleanup: no items to remove"))
    (λ e, console_error "[Cache Cleanup Error]" e ;; mret Fulfilled)).

(** Truthiness of a stored value; [None] is [undefined]. *)
Definition stored_truthy (v : option StoredValue) : bool :=
  match v with
  | Some (SObj _) => true
  | Some (SStr s) => negb (String.eqb s "")
  | Some (SNum z) => negb (z =? 0)
  | Some (SBool b) => b
  | Some SNull | None => false
  end.

Definition refreshAuthToken (d : TaskData) : JS Promise :=
  async_adopt (try_catch
    (new_promise chrome_storage_local_get
       (λ result,
          if stored_truthy (result !! "authToken")
          then broadcast RefreshToken ;;
               console_log "[Background Task] Token refresh initiated"
          else mret tt))
    (λ e, console_error "[Token Refresh Error]" e ;; mret Fulfilled)).

Definition performBackgroundTask (id act : string) (d : TaskData) : JS Promise :=
  async
    (console_log ("[Task Executing] " +:+ id +:+ " - " +:+ act) ;;
     try_catch
       (if decide (act = "SYNC_DATA") then p ← syncData d; await p
        else if decide (act = "CHECK_STATUS") then p ← checkPortalStatus d; await p
        else if decide (act = "CLEANUP_CACHE") then p ← cleanupCache d; await p
        else if decide (act = "REFRESH_TOKEN") then p ← refreshAuthToken d; await p
        else console_warn ("[Task] Unknown action: " +:+ act))
       (λ e, console_error ("[Task Execution Error] " +:+ id +:+ ":") e ;; throw e)).

(** The closure [executeTask] of [scheduleBackgroundTask]; it is also the
    callback of the interval timer. *)
Definition executeTask (id act : string) (d : TaskData) : JS Promise :=
  async (try_catch
    (p ← performBackgroundTask id act d; await p)
    (λ e, console_error ("[Task Error] Error executing task " +:+ id +:+ ":") e)).

(** The message of the [TypeError] raised when [task] is [undefined]. *)
Definition destructure_error : string :=
  "Cannot destructure property 'id' of 'task' as it is undefined.".

(** Lines 269-272: drop the timer and the record of an earlier task with
    this id. *)
Definition cancel_previous (id : string) : JS unit :=
  prev ← gets (λ w, scheduledTasks w !! id);
  match prev with
  | Some r =>
      clearInterval (intervalId r) ;;
      modify (λ w, with_scheduledTasks (delete id (scheduledTasks w)) w)
  | None => mret tt
  end.

(** Lines 286-289: arm the recurring timer and record the task. *)
Definition arm_recurring (id act : string) (ival : Z) (d : TaskData) : JS unit :=
  if 0 <? ival then
    h ← setInterval {| tm_task := id; tm_action := act; tm_data := d; tm_period := ival |};
    modify (λ w, with_scheduledTasks
      (<[id := {| action := act; interval := ival; data := d; intervalId := h |}]>
         (scheduledTasks w)) w)
  else mret tt.

Definition task_interval (t : Task) : Z := default 0 (t_interval t).
Definition task_data (t : Task) : TaskData := default empty_data (t_data t).

Definition scheduling_error (id : string) (e : string) : JS unit :=
  console_error ("[Task Scheduling Error] " +:+ id +:+ ":") e ;; throw e.

Definition scheduleBackgroundTask (task : option Task) : JS Promise :=
  async
    match task with
    | None => throw destructure_error
    | Some t =>
        let id := t_id t in
        let act := t_action t in
        let ival := task_interval t in
        let d := task_data t in
        console_log ("[Task Scheduled] " +:+ id +:+ " - Action: " +:+ act
                     +:+ ", Interval: " +:+ pretty ival +:+ "ms") ;;
        try_catch
          (cancel_previous id ;;
           p ← executeTask id act d;
           await p ;;
           arm_recurring id act ival d)
          (scheduling_error id)
    end.

Definition cancelScheduledTask (id : string) : JS bool :=
  task ← gets (λ w, scheduledTasks w !! id);
  match task with
  | Some r =>
      clearInterval (intervalId r) ;;
      modify (λ w, with_scheduledTasks (delete id (scheduledTasks w)) w) ;;
      console_log ("[Task Cancelled] " +:+ id) ;;
      mret true
  | None => mret false
  end.

(** One firing of the interval timer [h]: the browser calls the
    [executeTask] closure the timer was armed with and drops the promise
    it returns.  A handle that was cleared fires nothing. *)
Definition tick (h : nat) : JS unit :=
  t ← gets (λ w, timers w !! h);
  match t with
  | Some tm => _ ← executeTask (tm_task tm) (tm_action tm) (tm_data tm); mret tt
  | None => mret tt
  end.

(** ** Message handling *)

Record Request := {
  r_action : string;
  r_id : string;
  r_options : JsObject;
  r_task : option Task
}.

(** What the listener returns: [true] keeps the reply channel open for a
    reply sent later from a promise callback. *)
Inductive Returned := ReturnedTrue | ReturnedUndefined.

Definition sendResponse (r : Response) : JS unit :=
  modify (λ w, with_sent (sent w ++ [r]) w).

Definition reply_success : Response :=
  {| success := true; error := None; payload := NoPayload |}.
Definition reply_failure (msg : string) : Response :=
  {| success := false; error := Some msg; payload := NoPayload |}.

(** [p.then(onFulfilled)] and [p.catch(onRejected)]: no callback runs on
    a promise that stays pending. *)
Definition then_ (p : Promise) (onFulfilled : JS unit) : JS Promise :=
  match p with
  | Fulfilled => async onFulfilled
  | Rejected e => mret (Rejected e)
  | Pending => mret Pending
  end.
Definition catch_ (p : Promise) (onRejected : string → JS unit) : JS Promise :=
  match p with
  | Fulfilled => mret Fulfilled
  | Rejected e => async (onRejected e)
  | Pending => mret Pending
  end.

(** [.then(() => sendResponse({ success: true }))
     .catch(error => sendResponse({ success: false, error: error.message }))] *)
Definition respond_when_settled (p : Promise) : JS unit :=
  q ← then_ p (sendResponse reply_success);
  _ ← catch_ q (λ e, sendResponse (reply_failure e));
  mret tt.

Definition chrome_runtime_getManifest_version : JS string := λ w,
  match manifest_version P with
  | inl v => (w, Normal v)
  | inr e => (w, Throw e)
  end.

(** The message of the [TypeError] raised by [request.action] when the
    message is [null] or [undefined]. *)
Definition null_message_error : string :=
  "Cannot read properties of null (reading 'action')".

(** The listener on a message that is an object. *)
Definition onRequest (request : Request) : JS Returned :=
  let act := r_action request in
  console_log ("[Message Received] " +:+ act) ;;
  try_catch
    (if decide (act = "SHOW_NOTIFICATION") then
       p ← showNotification (r_id request) (r_options request);
       respond_when_settled p ;; mret ReturnedTrue
     else if decide (act = "UPDATE_NOTIFICATION") then
       p ← updateNotification (r_id request) (r_options request);
       respond_when_settled p ;; mret ReturnedTrue
     else if decide (act = "CLEAR_NOTIFICATION") then
       p ← clearNotification (r_id request);
       respond_when_settled p ;; mret ReturnedTrue
     else if decide (act = "CLEAR_ALL_NOTIFICATIONS") then
       p ← clearAllNotifications;
       respond_when_settled p ;; mret ReturnedTrue
     else if decide (act = "GET_ACTIVE_NOTIFICATIONS") then
       notifications ← gets activeNotifications;
       sendResponse {| success := true; error := None;
                       payload := Notifications notifications |} ;;
       mret ReturnedUndefined
     else if decide (act = "SCHEDULE_TASK") then
       p ← scheduleBackgroundTask (r_task request);
       respond_when_settled p ;; mret ReturnedTrue
     else if decide (act = "GET_EXTENSION_STATUS") then
       now ← Date_now;
       version ← chrome_runtime_getManifest_version;
       sendResponse {| success := true; error := None;
                       payload := Status "active" now version |} ;;
       mret ReturnedUndefined
     else
       sendResponse (reply_failure "Unknown action") ;;
       mret ReturnedUndefined)
    (λ e, console_error "[Message Handler Error]" e ;;
          sendResponse (reply_failure e) ;;
          mret ReturnedUndefined).

(** The message listener.  [None] is a message that is [null] or
    [undefined]: line 119 reads [request.action] before the [try], so the
    [TypeError] leaves the listener. *)
Definition onMessage (message : option Request) : JS Returned :=
  match message with
  | Some request => onRequest request
  | None => throw null_message_error
  end.

(** The action names of the router's [switch]. *)
Definition known_actions : list string :=
  ["SHOW_NOTIFICATION"; "UPDATE_NOTIFICATION"; "CLEAR_NOTIFICATION";
   "CLEAR_ALL_NOTIFICATIONS"; "GET_ACTIVE_NOTIFICATIONS"; "SCHEDULE_TASK";
   "GET_EXTENSION_STATUS"].

(** The handler the router invokes for each action of its [switch], as a
    promise: the asynchronous handlers settle theirs, reading the registry
    cannot fail, and [getManifest()] throwing counts as a rejection. *)
Definition handler (request : Request) : JS Promise :=
  let act := r_action request in
  if decide (act = "SHOW_NOTIFICATION") then
    showNotification (r_id request) (r_options request)
  else if decide (act = "UPDATE_NOTIFICATION") then
    updateNotification (r_id request) (r_options request)
  else if decide (act = "CLEAR_NOTIFICATION") then
    clearNotification (r_id request)
  else if decide (act = "CLEAR_ALL_NOTIFICATIONS") then
    clearAllNotifications
  else if decide (act = "GET_ACTIVE_NOTIFICATIONS") then
    mret Fulfilled
  else if decide (act = "SCHEDULE_TASK") then
    scheduleBackgroundTask (r_task request)
  else if decide (act = "GET_EXTENSION_STATUS") then
    async (_ ← chrome_runtime_getManifest_version; mret tt)
  else mret Fulfilled.

(** ** Lifecycle of the service worker *)

Definition onInstalled (reason : string) : JS unit :=
  console_log ("[Extension] Installed/Updated " +:+ reason) ;;
  if decide (reason = "install")
  then modify (λ w, with_created_tabs
         (created_tabs w ++ ["chrome://extensions/?options=" +:+ runtime_id P]) w)
  else mret tt.

(** ** Cooperative interleaving of scheduling calls

    [scheduleBackgroundTask] suspends at [await executeTask()]; other
    events of the service worker run before it continues.  A call is
    split at that point: [schedule_begin] is the part that runs when the
    function is called, [schedule_resume] the part that runs once the
    awaited execution has settled.  The execution that is awaited in
    between (storage round trips, broadcasts) is run as one step when the
    call continues; it reads and writes storage, tabs and the console
    only, never the timers or [scheduledTasks].  When that execution never
    settles, the call stays suspended for good: the step that would
    continue it runs the execution and stops there. *)

Definition schedule_begin (t : Task) : JS unit :=
  console_log ("[Task Scheduled] " +:+ t_id t +:+ " - Action: " +:+ t_action t
               +:+ ", Interval: " +:+ pretty (task_interval t) +:+ "ms") ;;
  try_catch (cancel_previous (t_id t)) (scheduling_error (t_id t)).

Definition schedule_resume (t : Task) : JS unit :=
  try_catch
    (p ← executeTask (t_id t) (t_action t) (task_data t);
     await p ;;
     arm_recurring (t_id t) (t_action t) (task_interval t) (task_data t))
    (scheduling_error (t_id t)).

Inductive Event :=
  | Call (t : Task)       (* scheduleBackgroundTask(t) runs up to its await *)
  | Resume (k : nat)      (* the k-th suspended call continues *)
  | Tick (h : nat)        (* the interval timer h fires *)
  | Cancel (id : string). (* cancelScheduledTask(id) *)

Record Loop := {
  world : World;
  suspended : list Task
}.

Definition step (l : Loop) (ev : Event) : Loop :=
  match ev with
  | Call t =>
      match schedule_begin t (world l) with
      | (w', Normal _) => {| world := w'; suspended := suspended l ++ [t] |}
      | (w', _) => {| world := w'; suspended := suspended l |}
      end
  | Resume k =>
      match suspended l !! k with
      | Some t => {| world := (schedule_resume t (world l)).1;
                     suspended := delete k (suspended l) |}
      | None => l
      end
  | Tick h => {| world := (tick h (world l)).1; suspended := suspended l |}
  | Cancel id => {| world := (cancelScheduledTask id (world l)).1;
                    suspended := suspended l |}
  end.

Definition run (l : Loop) (evs : list Event) : Loop := foldl step l evs.

(** The live timers armed for task [id]. *)
Definition timers_of (id : string) (w : World) : gmap nat Timer :=
  filter (λ ht, tm_task ht.2 = id) (timers w).

End background.

(** * The settings-seeding background script

    The background script that handles "extension lifecycle, message
    passing, and data persistence": its install listener and the events of
    its life cycle. *)
Module Persistence.

Definition default_settings : gmap string StoredValue :=
  <["extensionEnabled" := SBool true]>
    (<["autoRefresh" := SBool false]>
       (<["refreshInterval" := SNum 5000]>
          (<["notifications" := SBool true]>
             {["theme" := SStr "light"]}))).

(** [chrome.runtime.getURL(path)] *)
Definition getURL (P : Platform) (path : string) : string :=
  "chrome-extension://" +:+ runtime_id P +:+ "/" +:+ path.

Definition onInstalled (P : Platform) (reason : string) : JS unit :=
  if decide (reason = "install") then
    chrome_storage_local_set default_settings ;;
    modify (λ w, with_created_tabs (created_tabs w ++ [getURL P "welcome.html"]) w)
  else if decide (reason = "update") then
    version ← chrome_runtime_getManifest_version P;
    console_log ("Extension updated to version " +:+ version)
  else mret tt.

(** Events of the script's life cycle.  It registers no [onStartup]
    listener: a start of the browser only loads the script, which logs
    that it was loaded (the session check it arms at load only removes
    keys from storage and is left out). *)
Inductive Lifecycle :=
  | Installed (reason : string)
  | Startup
  | Suspend.

Definition dispatch (P : Platform) (ev : Lifecycle) : JS unit :=
  match ev with
  | Installed reason => onInstalled P reason
  | Startup => console_log "Flex Portal Extension background script loaded"
  | Suspend => console_log "Extension is being suspended"
  end.

(** The browser calls the listeners one event after the other; an
    exception that escapes a listener is reported by the browser and the
    next event is delivered all the same. *)
Definition deliver (P : Platform) (w : World) (ev : Lifecycle) : World :=
  (dispatch P ev w).1.

Definition lifecycle (P : Platform) (w : World) (evs : list Lifecycle) : World :=
  foldl (deliver P) w evs.

(** Number of [chrome.storage.local.set] calls that wrote exactly the
    default settings. *)
Definition default_writes (w : World) : nat :=
  length (filter (λ items, items = default_settings) (set_calls w)).

#[global] Instance Lifecycle_eq_dec : EqDecision Lifecycle.
Proof. solve_decision. Defined.

(** Number of first-install events in a trace. *)
Definition installs (evs : list Lifecycle) : nat :=
  length (filter (λ ev, ev = Installed "install") evs).

End Persistence.

(** * Concrete platforms and inputs *)

(** A browser on which every call succeeds. *)
Definition reliable : Platform :=
  {| notifications_create_fails := λ _ _, None;
     notifications_update_fails := λ _ _, None;
     notifications_clear_fails := λ _, None;
     storage_fault := None;
     manifest_version := inl "1.0.0";
     runtime_id := "flexportalextension" |}.

(** The log line of [updateNotification] for an unknown id. *)
Definition warned (w : World) (id : string) : World :=
  with_console (console w ++
    [{| level := Warn; text := "[Notification] Notification " +:+ id +:+ " not found";
        cause := None |}]) w.

(** A browser whose notification centre refuses every new notification. *)
Definition create_rejects : Platform :=
  {| notifications_create_fails := λ _ _, Some "Unable to download all specified images.";
     notifications_update_fails := λ _ _, None;
     notifications_clear_fails := λ _, None;
     storage_fault := None;
     manifest_version := inl "1.0.0";
     runtime_id := "flexportalextension" |}.

(** A browser whose notification centre fails to clear the ids in [bad]. *)
Definition clear_rejects (bad : list string) : Platform :=
  {| notifications_create_fails := λ _ _, None;
     notifications_update_fails := λ _ _, None;
     notifications_clear_fails := λ id,
       if decide (id ∈ bad) then Some "The notification could not be cleared." else None;
     storage_fault := None;
     manifest_version := inl "1.0.0";
     runtime_id := "flexportalextension" |}.

Definition show_request (id : string) : Request :=
  {| r_action := "SHOW_NOTIFICATION"; r_id := id; r_options := ∅; r_task := None |}.

(** The registry after [showNotification] of "a" and then of "b". *)
Definition two_shown : World :=
  (showNotification reliable "b" ∅ (showNotification reliable "a" ∅ (fresh_world 0)).1).1.

(** The registry after [showNotification] of "a", "b" and "c". *)
Definition three_shown : World :=
  (showNotification reliable "c" ∅ two_shown).1.

(** The error line of a failed [clearAllNotifications]. *)
Definition clear_all_failed (e : string) : LogEntry :=
  {| level := Error; text := "[Notification Error] Failed to clear all notifications:";
     cause := Some e |}.

(** The platform's notifications after the sweep has cleared [ids]. *)
Definition swept (ids : list string) (s : gmap string JsObject) : gmap string JsObject :=
  foldl (λ acc id, delete id acc) s ids.

(** A browser on which [chrome.storage.local.get] throws. *)
Definition storage_down : Platform :=
  {| notifications_create_fails := λ _ _, None;
     notifications_update_fails := λ _ _, None;
     notifications_clear_fails := λ _, None;
     storage_fault := Some "Extension context invalidated.";
     manifest_version := inl "1.0.0";
     runtime_id := "flexportalextension" |}.

(** A computation leaves the observation [f] of the state as it is. *)
Definition preserves {A B} (f : World → B) (m : JS A) : Prop :=
  ∀ w, f (m w).1 = f w.

(** The part of the state owned by the scheduler. *)
Definition sched (w : World) : gmap string TaskRecord * gmap nat Timer * nat :=
  (scheduledTasks w, timers w, nextTimer w).

(** The state once the router has logged the request. *)
Definition received (w : World) (request : Request) : World :=
  with_console (console w ++
    [{| level := Info; text := "[Message Received] " +:+ r_action request; cause := None |}]) w.

(** Every recorded task was armed with a positive interval. *)
Definition positive_intervals (w : World) : Prop :=
  ∀ id r, scheduledTasks w !! id = Some r → 0 < interval r.

(** At most one live timer is bound to each task id. *)
Definition one_timer_per_id (w : World) : Prop :=
  ∀ h1 h2 t1 t2,
    timers w !! h1 = Some t1 → timers w !! h2 = Some t2 →
    tm_task t1 = tm_task t2 → h1 = h2.

(** The state once [scheduleBackgroundTask] has logged the task. *)
Definition announced (t : Task) (w : World) : World :=
  with_console (console w ++
    [{| level := Info;
        text := "[Task Scheduled] " +:+ t_id t +:+ " - Action: " +:+ t_action t
                +:+ ", Interval: " +:+ pretty (task_interval t) +:+ "ms";
        cause := None |}]) w.

(** The state left by [cancel_previous]. *)
Definition cancelled (id : string) (w : World) : World :=
  match scheduledTasks w !! id with
  | Some r =>
      with_scheduledTasks (delete id (scheduledTasks w))
        (with_timers (delete (intervalId r) (timers w)) (nextTimer w) w)
  | None => w
  end.

(** The state left by [arm_recurring]. *)
Definition armed (id act : string) (ival : Z) (d : TaskData) (w : World) : World :=
  if 0 <? ival then
    with_scheduledTasks
      (<[id := {| action := act; interval := ival; data := d; intervalId := nextTimer w |}]>
         (scheduledTasks w))
      (with_timers
         (<[nextTimer w := {| tm_task := id; tm_action := act; tm_data := d;
                              tm_period := ival |}]> (timers w))
         (S (nextTimer w)) w)
  else w.

(** A promise that stays pending. *)
Definition is_pending (c : Completion Promise) : bool :=
  match c with
  | Normal Pending => true
  | _ => false
  end.

(** What [scheduleBackgroundTask] makes of the immediate execution [exec]
    (the state it left and the promise of [executeTask]): the call never
    continues when the execution never settles, and arms otherwise. *)
Definition scheduled (t : Task) (exec : World * Completion Promise)
    : World * Completion Promise :=
  if is_pending exec.2 then (exec.1, Normal Pending)
  else (armed (t_id t) (t_action t) (task_interval t) (task_data t) exec.1,
        Normal Fulfilled).

(** The error line of [executeTask] for a failed execution. *)
Definition task_error (id e : string) : LogEntry :=
  {| level := Error; text := "[Task Error] Error executing task " +:+ id +:+ ":";
     cause := Some e |}.

(** A payload that is [{maxAge: m}], and a stored object that is
    [{timestamp: ts}]. *)
Definition max_age (m : Z) : TaskData :=
  {| maxAge := Some m; timestamp := None; other := ∅; other_plain := I |}.
Definition stamped (ts : Z) : DataObject :=
  {| maxAge := None; timestamp := Some ts; other := ∅; other_plain := I |}.



(** No stored value is [null]. *)
Definition no_null (items : gmap string StoredValue) : Prop :=
  ∀ k, items !! k ≠ Some SNull.

(** Whether the loop of [cleanupCache] collects the key of a value that
    is not [null], and the keys it collects from storage without
    [null]s. *)
Definition is_expired (now maxAge : Z) (value : StoredValue) : bool :=
  match value with
  | SObj o =>
      match timestamp o with
      | Some t => negb (t =? 0) && js_gt (js_minus now t) maxAge
      | None => false
      end
  | _ => false
  end.

Definition stale_keys (now maxAge : Z) (items : gmap string StoredValue) : list string :=
  (filter (λ kv, is_expired now maxAge kv.2 = true) (map_to_list items)).*1.



(** The daily clean-up task, with a given [maxAge]. *)
Definition cleanup_task (m : Z) : Task :=
  {| t_id := "daily-cleanup"; t_action := "CLEANUP_CACHE";
     t_interval := Some 86400000;
     t_data := Some (max_age m) |}.

(** A service worker at instant 5000 whose storage holds one object,
    under "k", stamped [ts]. *)
Definition cache_world (ts : Z) : World :=
  with_store {["k" := SObj (stamped ts)]} (fresh_world 5000).



(** A service worker at instant 5000 with a string left under
    [flexPortalData]. *)
Definition legacy_data : World :=
  with_store {["flexPortalData" := SStr "ok"]} (fresh_world 5000).

(** A service worker at instant 5000 whose storage holds [null] under one
    key, as [saveUserSettings] leaves it for [{nickname: null}]. *)
Definition null_stored : World :=
  with_store {["nickname" := SNull]} (fresh_world 5000).

(** What the router sends once the handler's promise has settled: nothing
    as long as it is pending. *)
Definition settled_reply (p : Promise) : list Response :=
  match p with
  | Fulfilled => [{| success := true; error := None; payload := NoPayload |}]
  | Rejected e => [{| success := false; error := Some e; payload := NoPayload |}]
  | Pending => []
  end.

(** A request to schedule a task, as the popup sends it. *)
Definition schedule_request (task : option Task) : Request :=
  {| r_action := "SCHEDULE_TASK"; r_id := ""; r_options := ∅; r_task := task |}.

Definition ping_request : Request :=
  {| r_action := "PING"; r_id := ""; r_options := ∅; r_task := None |}.

(** The synchronisation task of [initializeBackgroundTasks]. *)
Definition sync_task : Task :=
  {| t_id := "auto-sync"; t_action := "SYNC_DATA"; t_interval := Some 300000;
     t_data := Some empty_data |}.

(** A one-shot status check: no interval given. *)
Definition check_once : Task :=
  {| t_id := "auto-sync"; t_action := "CHECK_STATUS"; t_interval := None;
     t_data := None |}.

(** A service worker with nothing suspended. *)
Definition idle (w : World) : Loop := {| world := w; suspended := [] |}.

(** Two calls for the daily clean-up whose awaits overlap: both start
    before either continues. *)
Definition overlapping_calls : list Event :=
  [Call (cleanup_task 604800000); Call (cleanup_task 604800000); Resume 0; Resume 0].

(** The registry of tasks after the synchronisation task was scheduled
    in a fresh service worker. *)
Definition syncing : World :=
  (scheduleBackgroundTask reliable (Some sync_task) (fresh_world 0)).1.

(** Install, then two browser starts around an update. *)
Definition first_week : list Persistence.Lifecycle :=
  [Persistence.Installed "install"; Persistence.Startup;
   Persistence.Installed "update"; Persistence.Startup; Persistence.Suspend].

(** The state the overlapping calls leave in a fresh service worker. *)
Definition raced : World :=
  world (run reliable (idle (fresh_world 0)) overlapping_calls).

(** Every live timer is the one its task's record names, and handles are
    below the next one [setInterval] will return. *)
Definition tracked (w : World) : Prop :=
  (∀ h tm, timers w !! h = Some tm →
           ∃ r, scheduledTasks w !! tm_task tm = Some r ∧ intervalId r = h)
  ∧ (∀ h tm, timers w !! h = Some tm → (h < nextTimer w)%nat).

(** The suspended calls are for distinct ids, none of which has a record. *)
Definition exclusive (l : Loop) : Prop :=
  tracked (world l)
  ∧ Forall (λ t, scheduledTasks (world l) !! t_id t = None) (suspended l)
  ∧ NoDup (t_id <$> suspended l).

(** No call starts for an id while an earlier call for that id is still
    suspended at its await. *)
Fixpoint calls_disjoint (P : Platform) (l : Loop) (evs : list Event) : Prop :=
  match evs with
  | [] => True
  | ev :: evs' =>
      match ev with
      | Call t => t_id t ∉ (t_id <$> suspended l)
      | _ => True
      end
      ∧ calls_disjoint P (step P l ev) evs'
  end.

(** Calls that run one after the other: each continues before the next
    one starts. *)
Definition back_to_back (ts : list Task) : list Event :=
  ts ≫= λ t, [Call t; Resume 0].


(** * More of the service worker *)

(** What [getServiceWorkerStatus] returns. *)
Record WorkerStatus := {
  ws_status : string;
  ws_timestamp : Z;
  ws_activeNotifications : nat;
  ws_scheduledTasks : nat;
  ws_version : string
}.

Section worker.
Context (P : Platform).

(** [chrome.alarms.onAlarm] listener of the service worker.  The promise
    of [performBackgroundTask] is not awaited: the listener drops it. *)
Definition onAlarm (name : string) : JS unit :=
  console_log ("[Alarm Triggered] " +:+ name) ;;
  try_catch
    (if decide (name = "PERIODIC_SYNC") then
       _ ← performBackgroundTask P "periodic-sync" "SYNC_DATA" empty_data; mret tt
     else if decide (name = "PERIODIC_CHECK") then
       _ ← performBackgroundTask P "periodic-check" "CHECK_STATUS" empty_data; mret tt
     else console_warn ("[Alarm] Unknown alarm: " +:+ name))
    (λ e, console_error "[Alarm Handler Error]" e).

Definition getServiceWorkerStatus : JS WorkerStatus :=
  now ← Date_now;
  notifications ← gets (λ w, length (activeNotifications w));
  tasks ← gets (λ w, size (scheduledTasks w));
  version ← chrome_runtime_getManifest_version P;
  mret {| ws_status := "active"; ws_timestamp := now;
          ws_activeNotifications := notifications; ws_scheduledTasks := tasks;
          ws_version := version |}.

End worker.

(** The deliveries of one broadcast of [msg] to the tabs [ts]. *)
Definition fan_out (msg : TabMessage) (ts : list nat) : list (nat * TabMessage) :=
  (λ tab, (tab, msg)) <$> ts.

(** Every notification the registry tracks is shown on the platform. *)
Definition registered_shown (w : World) : Prop :=
  ∀ id, is_Some (JsMap.get id (activeNotifications w)) → is_Some (shown w !! id).

(** The four action names [performBackgroundTask] dispatches on. *)
Definition task_actions : list string :=
  ["SYNC_DATA"; "CHECK_STATUS"; "CLEANUP_CACHE"; "REFRESH_TOKEN"].

(** The state with further lines on the console. *)
Definition logged (lines : list LogEntry) (w : World) : World :=
  with_console (console w ++ lines) w.

Definition info (s : string) : LogEntry :=
  {| level := Info; text := s; cause := None |}.
Definition warning (s : string) : LogEntry :=
  {| level := Warn; text := s; cause := None |}.
Definition failure (s e : string) : LogEntry :=
  {| level := Error; text := s; cause := Some e |}.

(** The deliveries a click on notification [id] causes: one per open tab
    when the record has a truthy [clickAction], none otherwise. *)
Definition click_deliveries (id : string) (w : World) : list (nat * TabMessage) :=
  match JsMap.get id (activeNotifications w) with
  | Some n =>
      if has_clickAction n
      then fan_out (NotificationAction id "click" (options n) None) (tabs w)
      else []
  | None => []
  end.

(** The deliveries a click on a button of notification [id] causes. *)
Definition button_deliveries (id : string) (button : Z) (w : World)
    : list (nat * TabMessage) :=
  match JsMap.get id (activeNotifications w) with
  | Some n => fan_out (NotificationAction id "button" (options n) (Some button)) (tabs w)
  | None => []
  end.

(** The state with the tabs [ts] open. *)
Definition open_tabs (ts : list nat) (w : World) : World :=
  {| activeNotifications := activeNotifications w; shown := shown w;
     scheduledTasks := scheduledTasks w; timers := timers w; nextTimer := nextTimer w;
     store := store w; set_calls := set_calls w; tabs := ts;
     created_tabs := created_tabs w; delivered := delivered w; sent := sent w;
     console := console w; clock := clock w |}.

(** A service worker with two tabs open that shows "n1" with a click
    action. *)
Definition clickable : World :=
  (showNotification reliable "n1" {["clickAction" := VStr "open-portal"]}
     (open_tabs [7%nat; 9%nat] (fresh_world 0))).1.

Definition list_request : Request :=
  {| r_action := "GET_ACTIVE_NOTIFICATIONS"; r_id := ""; r_options := ∅; r_task := None |}.

(** * The portal background script: message handlers

    The remaining listeners of the settings-seeding script.  Its replies
    and its messages to tabs have shapes of their own, so its state adds
    them to the [World]: [base] is shared with the definitions above. *)
Module Portal.

(** What a handler passes to the response callback. *)
Inductive Reply :=
  | Failed (error : string)                 (* {success: false, error} *)
  | Succeeded (message : string)            (* {success: true, message} *)
  | Items (data : gmap string StoredValue)  (* {success: true, data}, from storage *)
  | Fetched (data : StoredValue).           (* {success: true, data}, from the portal *)

(** What [fetch] settles to: a network failure, or a response with its
    [ok] flag, its status and the outcome of [response.json()]. *)
Inductive FetchResult :=
  | NetworkError (message : string)
  | Responded (ok : bool) (status : Z) (json : string + StoredValue).

(** The answers of the browser this script depends on.  An error of a
    storage call is the [message] of [chrome.runtime.lastError] in its
    callback; the failed call leaves storage as it was.  [fetch] receives
    the url and the method as the script passes them on, and the token
    interpolated into the [Authorization] header, if the header is set. *)
Record Net := {
  fetch : StoredValue → StoredValue → option StoredValue → FetchResult;
  set_error : option string;
  get_error : option string;
  remove_error : option string
}.

Record State := {
  base : World;
  notices : list (nat * string);  (* tabs.sendMessage(tab, {action}) *)
  replies : list Reply
}.

Definition M (A : Type) : Type := State → State * Completion A.

#[local] Instance M_ret : MRet M := λ A a s, (s, Normal a).
#[local] Instance M_bind : MBind M := λ A B f m s,
  match m s with
  | (s', Normal a) => f a s'
  | (s', Throw e) => (s', Throw e)
  | (s', Hang) => (s', Hang)
  end.

(** A computation of the shared part of the state. *)
Definition lift {A} (m : JS A) : M A := λ s,
  let (w', r) := m (base s) in
  ({| base := w'; notices := notices s; replies := replies s |}, r).

(** The response callback. *)
Definition respond (r : Reply) : M unit := λ s,
  ({| base := base s; notices := notices s; replies := replies s ++ [r] |}, Normal tt).

(** [chrome.tabs.query({}, tabs => tabs.forEach(tab =>
    chrome.tabs.sendMessage(tab.id, {action}).catch(() => {})))] *)
Definition notify_tabs (act : string) : M unit := λ s,
  ({| base := base s;
      notices := notices s ++ ((λ tab, (tab, act)) <$> tabs (base s));
      replies := replies s |}, Normal tt).

(** [chrome.storage.local.set(items, callback)], with the error, if any,
    the callback finds in [lastError]. *)
Definition storage_set (err : option string) (items : gmap string StoredValue) : JS unit :=
  modify (λ w, with_set_calls (set_calls w ++ [items])
                 (match err with
                  | Some _ => w
                  | None => with_store (items ∪ store w) w
                  end)).

(** [chrome.storage.local.remove(keys, callback)], likewise. *)
Definition storage_remove (err : option string) (keys : list string) : JS unit :=
  match err with
  | Some _ => mret tt
  | None => chrome_storage_local_remove keys
  end.

Section handlers.
Context (P : Platform) (N : Net).

(** The message of the [TypeError] raised when [data] is [undefined]. *)
Definition destructure_error : string :=
  "Cannot destructure property 'url' of 'data' as it is undefined.".

Definition handleFetchPortalData (data : option (gmap string StoredValue)) : M unit :=
  match data with
  | None => λ s, (s, Throw destructure_error)
  | Some d =>
      let url := d !! "url" in
      let method := default (SStr "GET") (d !! "method") in
      match url with
      | Some u =>
          if stored_truthy url then
            result ← lift (chrome_storage_local_get P);
            let authorization :=
              if stored_truthy (result !! "authToken") then result !! "authToken" else None in
            match fetch N u method authorization with
            | Responded true _ (inr json) => respond (Fetched json)
            | Responded true _ (inl e) =>
                lift (console_error "Fetch error:" e) ;; respond (Failed e)
            | Responded false status _ =>
                let e := "HTTP error! status: " +:+ pretty status in
                lift (console_error "Fetch error:" e) ;; respond (Failed e)
            | NetworkError e =>
                lift (console_error "Fetch error:" e) ;; respond (Failed e)
            end
          else respond (Failed "URL is required")
      | None => respond (Failed "URL is required")
      end
  end.

Definition handleSaveUserSettings (data : option (gmap string StoredValue)) : M unit :=
  match data with
  | None => respond (Failed "No settings provided")
  | Some d =>
      if decide (d = ∅) then respond (Failed "No settings provided")
      else
        lift (storage_set (set_error N) d) ;;
        match set_error N with
        | Some e => respond (Failed e)
        | None => respond (Succeeded "Settings saved successfully")
        end
  end.

Definition handleGetUserSettings : M unit :=
  result ← lift (chrome_storage_local_get P);
  match get_error N with
  | Some e => respond (Failed e)
  | None => respond (Items result)
  end.

Definition handleLogoutUser : M unit :=
  lift (storage_remove (remove_error N) ["authToken"; "userData"; "sessionToken"]) ;;
  match remove_error N with
  | Some e => respond (Failed e)
  | None =>
      notify_tabs "userLoggedOut" ;;
      respond (Succeeded "User logged out successfully")
  end.

Record Request := {
  action : string;
  data : option (gmap string StoredValue)
}.

(** The message listener.  It has no [try]: what a handler throws leaves
    the listener.  It returns [true] on every path that returns. *)
Definition onMessage (request : Request) : M bool :=
  (if decide (action request = "fetchPortalData") then handleFetchPortalData (data request)
   else if decide (action request = "saveUserSettings") then
     handleSaveUserSettings (data request)
   else if decide (action request = "getUserSettings") then handleGetUserSettings
   else if decide (action request = "logoutUser") then handleLogoutUser
   else respond (Failed "Unknown action")) ;;
  mret true.

(** The alarm listener: the [autoRefresh] alarm asks the tabs to refresh
    when the [autoRefresh] setting is truthy. *)
Definition onAlarm (name : string) : M unit :=
  if decide (name = "autoRefresh") then
    result ← lift (chrome_storage_local_get P);
    if stored_truthy (result !! "autoRefresh") then notify_tabs "refreshData"
    else mret tt
  else mret tt.

End handlers.

(** [url.includes(domain)]: [starts_with] compares [domain] with the
    front of [url], code unit by code unit, and [includes] tries every
    position. *)
Fixpoint starts_with (domain url : string) : bool :=
  match domain, url with
  | EmptyString, _ => true
  | String a domain', String b url' => bool_decide (a = b) && starts_with domain' url'
  | String _ _, EmptyString => false
  end.

Fixpoint includes (domain url : string) : bool :=
  starts_with domain url
  || match url with
     | EmptyString => false
     | String _ url' => includes domain url'
     end.

Definition portalDomains : list string :=
  ["flexportal.com"; "app.flexportal.com"; "localhost:3000"].

(** [isFlexPortalUrl(url)]; [None] is [undefined]. *)
Definition isFlexPortalUrl (url : option string) : bool :=
  match url with
  | None => false
  | Some u =>
      if decide (u = "") then false
      else existsb (λ domain, includes domain u) portalDomains
  end.

Section tabs.
Context (P : Platform).

Definition checkAuthenticationStatus (url : option string) : M unit :=
  match url with
  | None => mret tt
  | Some u =>
      if decide (u = "") then mret tt
      else
        result ← lift (chrome_storage_local_get P);
        if negb (stored_truthy (result !! "authToken")) && isFlexPortalUrl url
        then lift (console_warn "User visiting Flex Portal without authentication")
        else mret tt
  end.

(** The [tabs.onUpdated] listener, on [changeInfo.status] and [tab.url]. *)
Definition onUpdated (status url : option string) : M unit :=
  if decide (status = Some "complete") then checkAuthenticationStatus url
  else mret tt.

End tabs.

(** The script's state around a [World], with nothing sent yet. *)
Definition start (w : World) : State :=
  {| base := w; notices := []; replies := [] |}.

(** [!data || Object.keys(data).length === 0] *)
Definition no_settings (data : option (gmap string StoredValue)) : Prop :=
  match data with
  | None => True
  | Some d => d = ∅
  end.

End Portal.

(** A network on which nothing fails and the portal answers every request
    with the same object. *)
Definition calm : Portal.Net :=
  {| Portal.fetch := λ _ _ _, Portal.Responded true 200 (inr (SObj empty_data));
     Portal.set_error := None;
     Portal.get_error := None;
     Portal.remove_error := None |}.

(** The keys [handleLogoutUser] removes. *)
Definition session_keys : list string := ["authToken"; "userData"; "sessionToken"].

(** The reply [handleFetchPortalData] derives from what [fetch] settled
    to. *)
Definition fetch_reply (r : Portal.FetchResult) : Portal.Reply :=
  match r with
  | Portal.Responded true _ (inr json) => Portal.Fetched json
  | Portal.Responded true _ (inl e) => Portal.Failed e
  | Portal.Responded false status _ =>
      Portal.Failed ("HTTP error! status: " +:+ pretty status)
  | Portal.NetworkError e => Portal.Failed e
  end.

(** The token sent in the [Authorization] header. *)
Definition bearer (items : gmap string StoredValue) : option StoredValue :=
  if stored_truthy (items !! "authToken") then items !! "authToken" else None.

(** [method = 'GET'] unless the request names one. *)
Definition request_method (d : gmap string StoredValue) : StoredValue :=
  default (SStr "GET") (d !! "method").

(** The action names of the portal script's [switch]. *)
Definition portal_actions : list string :=
  ["fetchPortalData"; "saveUserSettings"; "getUserSettings"; "logoutUser"].

(** A stored token and a stored theme. *)
Definition signed_in : Portal.State :=
  Portal.start
    (with_store (<["authToken" := SStr "t0k3n"]> {["theme" := SStr "dark"]})
       (open_tabs [7%nat; 9%nat] (fresh_world 0))).

(** A network whose storage calls all fail. *)
Definition failing_storage : Portal.Net :=
  {| Portal.fetch := λ _ _ _, Portal.NetworkError "Failed to fetch";
     Portal.set_error := Some "QUOTA_BYTES quota exceeded";
     Portal.get_error := Some "Storage unavailable";
     Portal.remove_error := Some "Storage unavailable" |}.

(** * The offscreen-document background script

    The script that keeps one offscreen document and relays e-mails to
    it.  Its state is its own: the module-level flag, the offscreen
    documents the browser holds, and what the script sent. *)
Module Offscreen.

(** The fields of a [sendEmail] request. *)
Record Mail := {
  to : option string;
  cc : option string;
  subject : option string;
  body : option string
}.

Inductive Reply :=
  | Sent (message : string)        (* {success: true, message: response} *)
  | Failed (error : string)        (* {success: false, error} *)
  | Ready (offscreenReady : bool). (* {offscreenReady} *)

(** The answers of the browser: whether [getContexts] and
    [createDocument] reject, the context id a new document gets, and what
    [chrome.runtime.sendMessage] settles to for a message and a
    [targetId] ([inl] an error, [inr] the response). *)
Record Env := {
  getContexts_error : option string;
  createDocument_error : option string;
  context_id : string;
  deliver : Mail → option string → string + string
}.

Record State := {
  offscreenCreated : bool;
  contexts : list string;                (* offscreen documents, by context id *)
  posted : list (Mail * option string);  (* sendMessage calls: message, targetId *)
  replies : list Reply;                  (* sendResponse calls *)
  errors : list (string * string)        (* console.error lines *)
}.

Definition set_flag (s : State) : State :=
  {| offscreenCreated := true; contexts := contexts s; posted := posted s;
     replies := replies s; errors := errors s |}.

Definition console_error (text e : string) (s : State) : State :=
  {| offscreenCreated := offscreenCreated s; contexts := contexts s; posted := posted s;
     replies := replies s; errors := errors s ++ [(text, e)] |}.

Definition sendResponse (r : Reply) (s : State) : State :=
  {| offscreenCreated := offscreenCreated s; contexts := contexts s; posted := posted s;
     replies := replies s ++ [r]; errors := errors s |}.

Section script.
Context (E : Env).

(** [chrome.offscreen.createDocument(...)]: the browser holds at most one
    offscreen document per extension and rejects a second one. *)
Definition createDocument (s : State) : State * Promise :=
  match contexts s with
  | _ :: _ => (s, Rejected "Only a single offscreen document may be created.")
  | [] =>
      match createDocument_error E with
      | Some e => (s, Rejected e)
      | None =>
          ({| offscreenCreated := offscreenCreated s; contexts := [context_id E];
              posted := posted s; replies := replies s; errors := errors s |}, Fulfilled)
      end
  end.

Definition ensureOffscreenDocument (s : State) : State * Promise :=
  if offscreenCreated s then (s, Fulfilled)
  else
    match getContexts_error E with
    | Some e => (console_error "Error ensuring offscreen document:" e s, Fulfilled)
    | None =>
        match contexts s with
        | _ :: _ => (set_flag s, Fulfilled)
        | [] =>
            match createDocument s with
            | (s', Fulfilled) => (set_flag s', Fulfilled)
            | (s', Rejected e) =>
                (console_error "Error ensuring offscreen document:" e s', Fulfilled)
            | (s', Pending) => (s', Pending)
            end
        end
    end.

(** [handleSendEmail(request, sendResponse)].  The second argument of
    [sendMessage] awaits [getContexts] again before the message leaves;
    [targetId] is the id of the first offscreen context, or [undefined]. *)
Definition handleSendEmail (request : Mail) (s : State) : State :=
  let s1 := (ensureOffscreenDocument s).1 in
  match getContexts_error E with
  | Some e => sendResponse (Failed e) (console_error "Error sending email:" e s1)
  | None =>
      let targetId := head (contexts s1) in
      let s2 := {| offscreenCreated := offscreenCreated s1; contexts := contexts s1;
                   posted := posted s1 ++ [(request, targetId)];
                   replies := replies s1; errors := errors s1 |} in
      match deliver E request targetId with
      | inr response => sendResponse (Sent response) s2
      | inl e => sendResponse (Failed e) (console_error "Error sending email:" e s2)
      end
  end.

(** The message listener: [true] is returned for [sendEmail] only. *)
Definition onMessage (act : string) (request : Mail) (s : State) : State * Returned :=
  if decide (act = "sendEmail") then (handleSendEmail request s, ReturnedTrue)
  else if decide (act = "getOffscreenStatus")
       then (sendResponse (Ready (offscreenCreated s)) s, ReturnedUndefined)
       else (s, ReturnedUndefined).

(** [onStartup] and [onInstalled] both call [ensureOffscreenDocument()]
    and drop its promise. *)
Definition onLifecycle (s : State) : State := (ensureOffscreenDocument s).1.

End script.

(** What the script reacts to, and a run of it: each listener runs to its
    end before the next event, and the browser closes no document
    meanwhile. *)
Inductive Event :=
  | Lifecycle
  | Message (act : string) (request : Mail).

Definition react (E : Env) (s : State) (e : Event) : State :=
  match e with
  | Lifecycle => onLifecycle E s
  | Message act request => (onMessage E act request s).1
  end.

Definition run (E : Env) (events : list Event) (s : State) : State :=
  foldl (react E) s events.

(** The messages of a run the listener answers. *)
Definition answered (e : Event) : bool :=
  match e with
  | Lifecycle => false
  | Message act _ =>
      bool_decide (act = "sendEmail") || bool_decide (act = "getOffscreenStatus")
  end.

(** The script as loaded: the flag is off. *)
Definition loaded (docs : list string) : State :=
  {| offscreenCreated := false; contexts := docs; posted := []; replies := [];
     errors := [] |}.

(** The browser holds at most one offscreen document, and the flag is
    set only when it holds one. *)
Definition consistent (s : State) : Prop :=
  (length (contexts s) ≤ 1)%nat
  ∧ (offscreenCreated s = true → contexts s ≠ []).

End Offscreen.

(** What [checkAuthenticationStatus] writes to the console. *)
Definition visit_warning : LogEntry :=
  warning "User visiting Flex Portal without authentication".

(** A browser on which the offscreen calls succeed and the document
    answers every mail. *)
Definition obliging : Offscreen.Env :=
  {| Offscreen.getContexts_error := None;
     Offscreen.createDocument_error := None;
     Offscreen.context_id := "offscreen-1";
     Offscreen.deliver := λ _ _, inr "queued" |}.

(** A browser that refuses to create the offscreen document. *)
Definition no_offscreen : Offscreen.Env :=
  {| Offscreen.getContexts_error := None;
     Offscreen.createDocument_error := Some "Offscreen API is not available.";
     Offscreen.context_id := "offscreen-1";
     Offscreen.deliver := λ _ target,
       match target with
       | Some _ => inr "queued"
       | None => inl "Could not establish connection. Receiving end does not exist."
       end |}.

Definition greeting : Offscreen.Mail :=
  {| Offscreen.to := Some "user@example.com"; Offscreen.cc := None;
     Offscreen.subject := Some "Hello"; Offscreen.body := Some "Hi" |}.

(** * Proof support *)

Ltac js_unfold :=
  unfold mbind, mret, JS_bind, JS_ret, new_promise, async, async_adopt, try_catch,
    await, throw, gets, modify, console_log, console_warn, console_error, Date_now in *.

Lemma data_eq (a b : DataObject) :
  maxAge a = maxAge b → timestamp a = timestamp b → other a = other b → a = b.
Proof.
  destruct a, b; simpl. intros -> -> ->. f_equal. apply proof_irrel.
Qed.


(** * Frame rules *)

Section frame.
Context {B : Type} (f : World → B).

Lemma preserves_ret {A} (a : A) : preserves f (mret a).
Proof. by intros w. Qed.

Lemma preserves_throw {A} (e : string) : preserves f (@throw A e).
Proof. by intros w. Qed.

Lemma preserves_gets {A} (g : World → A) : preserves f (gets g).
Proof. by intros w. Qed.

Lemma preserves_bind {A C} (m : JS A) (k : A → JS C) :
  preserves f m → (∀ a, preserves f (k a)) → preserves f (m ≫= k).
Proof.
  intros Hm Hk w. unfold mbind, JS_bind. specialize (Hm w).
  destruct (m w) as [w' [a|e|]]; simpl in *; [|done..]. by rewrite Hk.
Qed.

Lemma preserves_try_catch {A} (m : JS A) (h : string → JS A) :
  preserves f m → (∀ e, preserves f (h e)) → preserves f (try_catch m h).
Proof.
  intros Hm Hh w. unfold try_catch. specialize (Hm w).
  destruct (m w) as [w' [a|e|]]; simpl in *; [done| |done]. by rewrite Hh.
Qed.

Lemma preserves_async (m : JS unit) : preserves f m → preserves f (async m).
Proof.
  intros Hm w. unfold async. specialize (Hm w).
  by destruct (m w) as [w' [a|e|]].
Qed.

Lemma preserves_async_adopt (m : JS Promise) :
  preserves f m → preserves f (async_adopt m).
Proof.
  intros Hm w. unfold async_adopt. specialize (Hm w).
  by destruct (m w) as [w' [a|e|]].
Qed.

Lemma preserves_new_promise {A} (call : JS A) (callback : A → JS unit) :
  preserves f call → (∀ a, preserves f (callback a)) →
  preserves f (new_promise call callback).
Proof.
  intros Hc Hk w. unfold new_promise. specialize (Hc w).
  destruct (call w) as [w1 [a|e|]]; simpl in *; [|done..].
  specialize (Hk a w1). destruct (callback a w1) as [w2 [u|e|]]; simpl in *; congruence.
Qed.

Lemma preserves_await (p : Promise) : preserves f (await p).
Proof. by destruct p. Qed.

Lemma preserves_for_of {A} (xs : list A) (body : A → JS unit) :
  (∀ x, preserves f (body x)) → preserves f (for_of xs body).
Proof.
  intros Hb. induction xs as [|x xs IH]; simpl.
  - apply preserves_ret.
  - apply preserves_bind; [apply Hb | intros _; apply IH].
Qed.

Lemma preserves_modify (g : World → World) :
  (∀ w, f (g w) = f w) → preserves f (modify g).
Proof. intros Hg w. apply Hg. Qed.

End frame.

Ltac frame_step :=
  match goal with
  | |- preserves _ (mbind _ _) => apply preserves_bind; [|intros ?]
  | |- preserves _ (try_catch _ _) => apply preserves_try_catch; [|intros ?]
  | |- preserves _ (async _) => apply preserves_async
  | |- preserves _ (new_promise _ _) => apply preserves_new_promise; [|intros ?]
  | |- preserves _ (async_adopt _) => apply preserves_async_adopt
  | |- preserves _ (await _) => apply preserves_await
  | |- preserves _ (mret _) => apply preserves_ret
  | |- preserves _ (throw _) => apply preserves_throw
  | |- preserves _ (gets _) => apply preserves_gets
  | |- preserves _ Date_now => apply preserves_gets
  | |- preserves _ (for_of _ _) => apply preserves_for_of; intros ?
  | |- preserves _ (console_log _) => apply preserves_modify; intros ?; reflexivity
  | |- preserves _ (console_warn _) => apply preserves_modify; intros ?; reflexivity
  | |- preserves _ (console_error _ _) => apply preserves_modify; intros ?; reflexivity
  | |- preserves _ (modify _) => apply preserves_modify; intros ?; reflexivity
  | |- preserves _ (if ?c then _ else _) => destruct c
  | |- preserves _ (match ?x with _ => _ end) => destruct x
  end.

Ltac frame := repeat frame_step.

(** * Facts about insertion-ordered maps *)

Section jsmap_facts.
Context {V : Type}.
Implicit Types (m : list (string * V)) (k : string) (v : V).

Lemma get_set_eq k v m : JsMap.get k (JsMap.set k v m) = Some v.
Proof.
induction m as [|[k' v'] m IH]; simpl.
- by rewrite decide_True.
- destruct (decide (k = k')) as [->|Hne]; simpl.
  + by rewrite decide_True.
  + by rewrite decide_False.
Qed.

Lemma get_set_ne k k' v m : k ≠ k' → JsMap.get k' (JsMap.set k v m) = JsMap.get k' m.
Proof.
intros Hne. induction m as [|[k0 v0] m IH]; simpl.
- by rewrite decide_False.
- destruct (decide (k = k0)) as [->|Hne0]; simpl.
  + by rewrite !decide_False.
  + destruct (decide (k' = k0)); [done | exact IH].
Qed.

Lemma get_delete_eq k m : JsMap.get k (JsMap.delete k m) = None.
Proof.
induction m as [|[k' v'] m IH]; simpl; [done|].
destruct (decide (k = k')) as [->|Hne]; simpl; [done|].
by rewrite decide_False.
Qed.

Lemma get_delete_ne k k' m : k ≠ k' → JsMap.get k' (JsMap.delete k m) = JsMap.get k' m.
Proof.
intros Hne. induction m as [|[k0 v0] m IH]; simpl; [done|].
destruct (decide (k = k0)) as [->|Hne0]; simpl.
- by rewrite decide_False.
- destruct (decide (k' = k0)); [done | exact IH].
Qed.

Lemma delete_absent k m : JsMap.get k m = None → JsMap.delete k m = m.
Proof.
induction m as [|[k' v'] m IH]; simpl; [done|].
destruct (decide (k = k')); [done|]. intros H. by rewrite IH.
Qed.

Lemma get_keys k m : JsMap.get k m = None ↔ k ∉ JsMap.keys m.
Proof.
unfold JsMap.keys. induction m as [|[k' v'] m IH]; simpl.
- split; [intros _; apply not_elem_of_nil | done].
- rewrite not_elem_of_cons. destruct (decide (k = k')) as [->|Hne].
  + split; [done | intros [? _]; done].
  + rewrite IH. tauto.
Qed.

End jsmap_facts.

(** * The notification registry *)

Section registry.
Context (P : Platform).

(** C7: for an id that is absent from the notification registry,
    [updateNotification] only logs a warning: the promise it returns is
    fulfilled (nothing is thrown), and the registry, the platform's
    notifications and every other part of the state are as before. *)
Theorem update_absent_is_noop (id : string) (opts : JsObject) (w : World) :
  JsMap.get id (activeNotifications w) = None →
  updateNotification P id opts w = (warned w id, Normal Fulfilled)
  ∧ activeNotifications (warned w id) = activeNotifications w
  ∧ shown (warned w id) = shown w.
Proof.
  intros Habs. split; [|done].
  unfold updateNotification. js_unfold. by rewrite Habs.
Qed.

Lemma with_shown_id (w : World) : with_shown (shown w) w = w.
Proof. by destruct w. Qed.

(** [showNotification] never rejects: whatever the platform answers, the
    promise it returns is fulfilled. *)
Lemma showNotification_fulfilled (id : string) (opts : JsObject) (w : World) :
  (showNotification P id opts w).2 = Normal Fulfilled.
Proof.
  unfold showNotification, chrome_notifications_create. js_unfold.
  by destruct (notifications_create_fails P id _).
Qed.

(** A failed platform call leaves the registry and the platform as they
    were; only the error line is added. *)
Lemma showNotification_failure (id : string) (opts : JsObject) (w : World) (e : string) :
  notifications_create_fails P id
    (spread {["type" := VStr "basic"]} (spread default_notification_options opts)) = Some e →
  showNotification P id opts w =
    (with_console (console w ++
       [{| level := Error;
           text := "[Notification Error] Failed to create notification " +:+ id +:+ ":";
           cause := Some e |}]) w, Normal Fulfilled).
Proof.
  intros Hf. unfold showNotification, chrome_notifications_create. js_unfold.
  by rewrite Hf.
Qed.

Lemma showNotification_success (id : string) (opts : JsObject) (w : World) :
  notifications_create_fails P id
    (spread {["type" := VStr "basic"]} (spread default_notification_options opts)) = None →
  JsMap.get id (activeNotifications (showNotification P id opts w).1) =
    Some {| createdAt := clock w; updatedAt := None;
            options := spread default_notification_options opts |}.
Proof.
  intros Hf. unfold showNotification, chrome_notifications_create. js_unfold.
  rewrite Hf. simpl. apply get_set_eq.
Qed.

(** [clearNotification] never rejects. *)
Lemma clearNotification_fulfilled (id : string) (w : World) :
  (clearNotification P id w).2 = Normal Fulfilled.
Proof.
  unfold clearNotification, chrome_notifications_clear. js_unfold.
  by destruct (notifications_clear_fails P id).
Qed.

Lemma clearNotification_registry (id : string) (w : World) :
  activeNotifications (clearNotification P id w).1 =
    match notifications_clear_fails P id with
    | Some _ => activeNotifications w
    | None => JsMap.delete id (activeNotifications w)
    end.
Proof.
  unfold clearNotification, chrome_notifications_clear. js_unfold.
  by destruct (notifications_clear_fails P id).
Qed.

Lemma clearNotification_shown (id : string) (w : World) :
  shown (clearNotification P id w).1 =
    match notifications_clear_fails P id with
    | Some _ => shown w
    | None => delete id (shown w)
    end.
Proof.
  unfold clearNotification, chrome_notifications_clear. js_unfold.
  by destruct (notifications_clear_fails P id).
Qed.

(** C8, as amended: when the platform's clear call succeeds,
    [showNotification] followed by [clearNotification] leaves no record
    for the id; and [clearNotification] on an id that is not in the
    registry returns a fulfilled promise (it does not throw) and leaves the
    registry as it was, and the platform too when the id is not shown
    there. *)
Theorem show_then_clear (id : string) (opts : JsObject) (w : World) :
  (notifications_clear_fails P id = None →
   JsMap.get id (activeNotifications
     (clearNotification P id (showNotification P id opts w).1).1) = None)
  ∧ (JsMap.get id (activeNotifications w) = None →
     (clearNotification P id w).2 = Normal Fulfilled
     ∧ activeNotifications (clearNotification P id w).1 = activeNotifications w
     ∧ (shown w !! id = None → shown (clearNotification P id w).1 = shown w)).
Proof.
  split.
  - intros Hok. rewrite clearNotification_registry, Hok. apply get_delete_eq.
  - intros Habs. split; [apply clearNotification_fulfilled|]. split.
    + rewrite clearNotification_registry.
      destruct (notifications_clear_fails P id); [done | by apply delete_absent].
    + intros Hns. rewrite clearNotification_shown.
      destruct (notifications_clear_fails P id); [done | by apply delete_id].
Qed.

Lemma for_of_cons {A} (x : A) (xs : list A) (body : A → JS unit) (w : World) :
  for_of (x :: xs) body w =
    match body x w with
    | (w', Normal _) => for_of xs body w'
    | (w', Throw e) => (w', Throw e)
    | (w', Hang) => (w', Hang)
    end.
Proof. reflexivity. Qed.

Lemma clear_step_ok (id : string) (w : World) :
  notifications_clear_fails P id = None →
  (p ← chrome_notifications_clear P id; await p) w
  = (with_shown (delete id (shown w)) w, Normal tt).
Proof.
  intros Hid. unfold mbind, JS_bind, chrome_notifications_clear. by rewrite Hid.
Qed.

Lemma clear_step_fail (id e : string) (w : World) :
  notifications_clear_fails P id = Some e →
  (p ← chrome_notifications_clear P id; await p) w = (w, Throw e).
Proof.
  intros Hid. unfold mbind, JS_bind, chrome_notifications_clear. by rewrite Hid.
Qed.

(** The sweep of [clearAllNotifications] over ids whose clear call
    succeeds. *)
Lemma sweep_all (ids : list string) (w : World) :
  Forall (λ id, notifications_clear_fails P id = None) ids →
  for_of ids (λ id, p ← chrome_notifications_clear P id; await p) w
  = (with_shown (swept ids (shown w)) w, Normal tt).
Proof.
  intros Hall. revert w. induction Hall as [|id ids Hid _ IH]; intros w.
  - simpl. by rewrite with_shown_id.
  - rewrite for_of_cons, (clear_step_ok _ _ Hid), IH. by destruct w.
Qed.

(** The sweep stops at the first id whose clear call fails. *)
Lemma sweep_stops (done_ids : list string) (id : string) (rest : list string)
    (e : string) (w : World) :
  Forall (λ id, notifications_clear_fails P id = None) done_ids →
  notifications_clear_fails P id = Some e →
  for_of (done_ids ++ id :: rest) (λ id, p ← chrome_notifications_clear P id; await p) w
  = (with_shown (swept done_ids (shown w)) w, Throw e).
Proof.
  intros Hall Hbad. revert w. induction Hall as [|id' ids Hid _ IH]; intros w.
  - simpl app. rewrite for_of_cons, (clear_step_fail _ _ _ Hbad). simpl.
    by rewrite with_shown_id.
  - simpl app. rewrite for_of_cons, (clear_step_ok _ _ Hid), IH. by destruct w.
Qed.

Lemma swept_lookup (ids : list string) (s : gmap string JsObject) (k : string) :
  swept ids s !! k = if decide (k ∈ ids) then None else s !! k.
Proof.
  unfold swept. revert s. induction ids as [|id ids IH]; intros s; simpl.
  - destruct (decide (k ∈ [])) as [Hin|_]; [by apply elem_of_nil in Hin | done].
  - rewrite IH. destruct (decide (k = id)) as [->|Hne].
    + rewrite lookup_delete_eq. rewrite (decide_True (P := id ∈ id :: ids)) by left.
      by destruct (decide (id ∈ ids)).
    + rewrite lookup_delete_ne by done. destruct (decide (k ∈ ids)) as [Hin|Hnin].
      * rewrite decide_True; [done | by right].
      * rewrite decide_False; [done | by apply not_elem_of_cons].
Qed.

(** What [clearAllNotifications] does: it never throws.  When every
    platform clear call succeeds, every tracked id is cleared on the
    platform and the registry is emptied.  When the clear call of one id
    fails, the sweep stops there: the ids before it are cleared on the
    platform, no other notification is, the registry keeps all its
    entries and the error is logged. *)
Lemma clearAll_sweep (w : World) :
  (Forall (λ id, notifications_clear_fails P id = None)
          (JsMap.keys (activeNotifications w)) →
   (clearAllNotifications P w).2 = Normal Fulfilled
   ∧ activeNotifications (clearAllNotifications P w).1 = []
   ∧ ∀ id, id ∈ JsMap.keys (activeNotifications w) →
           shown (clearAllNotifications P w).1 !! id = None)
  ∧ (∀ done_ids id rest e,
       JsMap.keys (activeNotifications w) = done_ids ++ id :: rest →
       Forall (λ id, notifications_clear_fails P id = None) done_ids →
       notifications_clear_fails P id = Some e →
       (clearAllNotifications P w).2 = Normal Fulfilled
       ∧ activeNotifications (clearAllNotifications P w).1 = activeNotifications w
       ∧ (∀ k, shown (clearAllNotifications P w).1 !! k
               = if decide (k ∈ done_ids) then None else shown w !! k)
       ∧ last (console (clearAllNotifications P w).1) = Some (clear_all_failed e)).
Proof.
  split.
  - intros Hall. unfold clearAllNotifications. js_unfold.
    rewrite (sweep_all _ _ Hall). simpl. split; [done|]. split; [done|].
    intros id Hin. rewrite swept_lookup. by rewrite decide_True.
  - intros done_ids id rest e Hkeys Hall Hbad.
    unfold clearAllNotifications. js_unfold.
    rewrite Hkeys, (sweep_stops _ _ _ _ _ Hall Hbad). simpl.
    split; [done|]. split; [done|]. split.
    + intros k. apply swept_lookup.
    + by rewrite last_snoc.
Qed.

(** [clearNotification] on an id that is not in the registry never throws
    and never changes the registry, whatever the platform answers. *)
Lemma clear_absent_registry (id : string) (w : World) :
  JsMap.get id (activeNotifications w) = None →
  (clearNotification P id w).2 = Normal Fulfilled
  ∧ activeNotifications (clearNotification P id w).1 = activeNotifications w.
Proof.
  intros Habs. split; [apply clearNotification_fulfilled|].
  rewrite clearNotification_registry.
  destruct (notifications_clear_fails P id); [done | by apply delete_absent].
Qed.

End registry.

(** * The task scheduler *)

Section scheduler.
Context (P : Platform).

Lemma storage_get_preserves {B} (f : World → B) :
  preserves f (chrome_storage_local_get P).
Proof. intros w. unfold chrome_storage_local_get. by destruct (storage_fault P). Qed.

Lemma broadcast_sched msg : preserves sched (broadcast msg).
Proof. unfold broadcast. frame. Qed.

(** The loop of [cleanupCache] changes nothing: it reads, and may throw. *)
Lemma collect_expired_pure now m entries w :
  (collect_expired now m entries w).1 = w.
Proof.
  induction entries as [|[k v] entries IH]; [done|]. simpl.
  unfold mbind, JS_bind, expired, value_timestamp, mret, JS_ret, throw.
  destruct v; simpl; try done;
    by destruct (collect_expired now m entries w) as [w' [ks|e|]]; simpl in *; subst.
Qed.

Lemma collect_expired_preserves {B} (f : World → B) now m entries :
  preserves f (collect_expired now m entries).
Proof. intros w. by rewrite collect_expired_pure. Qed.

(** The bound actions never touch the scheduler's own state. *)
Lemma performBackgroundTask_sched id act d :
  preserves sched (performBackgroundTask P id act d).
Proof.
  unfold performBackgroundTask, syncData, checkPortalStatus, cleanupCache,
    refreshAuthToken, chrome_storage_local_set, chrome_storage_local_remove.
  frame; try apply storage_get_preserves; try apply broadcast_sched;
    try apply collect_expired_preserves.
Qed.

Lemma executeTask_sched id act d : preserves sched (executeTask P id act d).
Proof.
  unfold executeTask. frame. apply performBackgroundTask_sched.
Qed.

(** [executeTask] catches whatever the bound action throws: the promise
    it returns is fulfilled, or pending when the promise of the bound
    action is. *)
Lemma performBackgroundTask_returns id act d w :
  ∃ p, (performBackgroundTask P id act d w).2 = Normal p.
Proof.
  unfold performBackgroundTask, async.
  destruct ((console_log _ ≫= _) w) as [w' [u|e|]]; by eexists.
Qed.

Lemma executeTask_result id act d w :
  (executeTask P id act d w).2
  = Normal (if is_pending (performBackgroundTask P id act d w).2 then Pending else Fulfilled).
Proof.
  unfold executeTask, async, try_catch, mbind at 1, JS_bind at 1.
  destruct (performBackgroundTask_returns id act d w) as [p Hp].
  destruct (performBackgroundTask P id act d w) as [w' c]; simpl in *; subst c.
  by destruct p.
Qed.

Lemma executeTask_cases id act d w :
  (executeTask P id act d w).2 = Normal Fulfilled
  ∨ (executeTask P id act d w).2 = Normal Pending.
Proof.
  rewrite executeTask_result. destruct (is_pending _); auto.
Qed.

Lemma cancel_previous_spec id w :
  cancel_previous id w = (cancelled id w, Normal tt).
Proof.
  unfold cancel_previous, cancelled, clearInterval. js_unfold.
  by destruct (scheduledTasks w !! id).
Qed.

Lemma arm_recurring_spec id act ival d w :
  arm_recurring id act ival d w = (armed id act ival d w, Normal tt).
Proof.
  unfold arm_recurring, armed, setInterval. js_unfold.
  by destruct (0 <? ival).
Qed.

(** [scheduleBackgroundTask], run as far as it gets on a task object:
    log, cancel the earlier timer, execute once, arm. *)
Lemma scheduleBackgroundTask_spec t w :
  scheduleBackgroundTask P (Some t) w
  = scheduled t (executeTask P (t_id t) (t_action t) (task_data t)
                   (cancelled (t_id t) (announced t w))).
Proof.
  unfold scheduleBackgroundTask, scheduled.
  unfold async, try_catch, mbind, JS_bind, console_log, modify.
  fold (announced t w). rewrite cancel_previous_spec.
  destruct (executeTask_cases (t_id t) (t_action t) (task_data t)
              (cancelled (t_id t) (announced t w))) as [Hex|Hex];
    destruct (executeTask P (t_id t) (t_action t) (task_data t)
                (cancelled (t_id t) (announced t w))) as [w2 r];
    simpl in Hex; subst r; simpl; [|done].
  by rewrite arm_recurring_spec.
Qed.

Lemma schedule_begin_spec t w :
  schedule_begin t w = (cancelled (t_id t) (announced t w), Normal tt).
Proof.
  unfold schedule_begin, try_catch, mbind, JS_bind, console_log, modify.
  fold (announced t w). by rewrite cancel_previous_spec.
Qed.

Lemma schedule_resume_spec t w :
  (schedule_resume P t w).1
  = (scheduled t (executeTask P (t_id t) (t_action t) (task_data t) w)).1.
Proof.
  unfold schedule_resume, scheduled, try_catch, mbind, JS_bind.
  destruct (executeTask_cases (t_id t) (t_action t) (task_data t) w) as [Hex|Hex];
    destruct (executeTask P (t_id t) (t_action t) (task_data t) w) as [w2 r];
    simpl in Hex; subst r; simpl; [|done].
  by rewrite arm_recurring_spec.
Qed.

(** Splitting the call at its [await] and running the two halves back to
    back gives the same state. *)
Lemma scheduleBackgroundTask_split t w :
  (scheduleBackgroundTask P (Some t) w).1
  = (schedule_resume P t (schedule_begin t w).1).1.
Proof.
  by rewrite scheduleBackgroundTask_spec, schedule_begin_spec, schedule_resume_spec.
Qed.

Lemma cancelled_lookup id w : scheduledTasks (cancelled id w) !! id = None.
Proof.
  unfold cancelled. destruct (scheduledTasks w !! id) eqn:E; simpl; [|done].
  apply lookup_delete_eq.
Qed.

Lemma cancelled_timer id r w :
  scheduledTasks w !! id = Some r → timers (cancelled id w) !! intervalId r = None.
Proof.
  intros E. unfold cancelled. rewrite E. simpl. apply lookup_delete_eq.
Qed.

Lemma executeTask_fields id act d w :
  scheduledTasks (executeTask P id act d w).1 = scheduledTasks w
  ∧ timers (executeTask P id act d w).1 = timers w
  ∧ nextTimer (executeTask P id act d w).1 = nextTimer w.
Proof.
  pose proof (executeTask_sched id act d w) as H. unfold sched in H.
  by simplify_eq.
Qed.

(** What a failed execution leaves on the console: the error line of
    [executeTask] comes last. *)
Lemma executeTask_logs_failure id act d w w' e :
  performBackgroundTask P id act d w = (w', Normal (Rejected e)) →
  console (executeTask P id act d w).1 = console w' ++ [task_error id e].
Proof.
  intros Hp. unfold executeTask, async, try_catch, mbind, JS_bind.
  by rewrite Hp.
Qed.

(** The timer callback completes normally and leaves the scheduler's
    state alone. *)
Lemma tick_returns h w : (tick P h w).2 = Normal tt.
Proof.
  unfold tick, mbind, JS_bind, gets. simpl.
  destruct (timers w !! h) as [tm|]; [|done].
  by destruct (executeTask_cases (tm_task tm) (tm_action tm) (tm_data tm) w) as [Hex|Hex];
    destruct (executeTask P (tm_task tm) (tm_action tm) (tm_data tm) w) as [w2 r];
    simpl in Hex; subst r.
Qed.

Lemma tick_sched h : preserves sched (tick P h).
Proof. unfold tick. frame. apply executeTask_sched. Qed.

Lemma tick_world h w tm :
  timers w !! h = Some tm →
  (tick P h w).1 = (executeTask P (tm_task tm) (tm_action tm) (tm_data tm) w).1.
Proof.
  intros Htm. unfold tick, mbind, JS_bind, gets. simpl. rewrite Htm.
  by destruct (executeTask P (tm_task tm) (tm_action tm) (tm_data tm) w) as [w2 [r|e|]].
Qed.

Lemma cancelled_announced_store t w :
  store (cancelled (t_id t) (announced t w)) = store w
  ∧ clock (cancelled (t_id t) (announced t w)) = clock w
  ∧ nextTimer (cancelled (t_id t) (announced t w)) = nextTimer w.
Proof.
  unfold cancelled. by destruct (scheduledTasks (announced t w) !! t_id t).
Qed.


(** Where the immediate execution settles, by a return or by a throw,
    [scheduleBackgroundTask] does what the scheduler promises: for a
    positive interval the promise is fulfilled and the recurring timer is
    armed and recorded, and when the bound action fails its error is
    logged by [executeTask] and goes no further.  A firing of a timer
    completes normally whatever the bound action does, logs the failure
    of that firing, and leaves every timer and record in place, so the
    next firing runs as well. *)
Lemma schedule_survives_rejection (t : Task) (i : Z) (w : World) :
  t_interval t = Some i → 0 < i →
  let w1 := cancelled (t_id t) (announced t w) in
  let out := scheduleBackgroundTask P (Some t) w in
  (∀ w' p,
     performBackgroundTask P (t_id t) (t_action t) (task_data t) w1 = (w', Normal p) →
     p ≠ Pending →
     out.2 = Normal Fulfilled
     ∧ timers out.1 !! nextTimer w
       = Some {| tm_task := t_id t; tm_action := t_action t; tm_data := task_data t;
                 tm_period := i |}
     ∧ scheduledTasks out.1 !! t_id t
       = Some {| action := t_action t; interval := i; data := task_data t;
                 intervalId := nextTimer w |}
     ∧ ∀ e, p = Rejected e → console out.1 = console w' ++ [task_error (t_id t) e])
  ∧ (∀ h w0,
       (tick P h w0).2 = Normal tt
       ∧ timers (tick P h w0).1 = timers w0
       ∧ scheduledTasks (tick P h w0).1 = scheduledTasks w0
       ∧ (∀ tm w' e,
            timers w0 !! h = Some tm →
            performBackgroundTask P (tm_task tm) (tm_action tm) (tm_data tm) w0
              = (w', Normal (Rejected e)) →
            console (tick P h w0).1 = console w' ++ [task_error (tm_task tm) e])).
Proof.
  intros Hi Hpos w1 out. split.
  - intros w' p Hp Hsettled. subst out. rewrite scheduleBackgroundTask_spec.
    fold w1. unfold scheduled. rewrite executeTask_result, Hp. cbn [snd].
    replace (is_pending (Normal (if is_pending (Normal p) then Pending else Fulfilled)))
      with false by (by destruct p).
    cbn [fst snd]. unfold task_interval at 1 2 3. rewrite Hi.
    change (default 0 (Some i)) with i.
    destruct (executeTask_fields (t_id t) (t_action t) (task_data t) w1)
      as (Hs & Ht & Hn).
    assert (Hnw : nextTimer w1 = nextTimer w).
    { unfold w1, cancelled. by destruct (scheduledTasks (announced t w) !! t_id t). }
    unfold armed. rewrite (proj2 (Z.ltb_lt 0 i) Hpos). simpl.
    rewrite Hn, Hnw. split; [done|]. split; [apply lookup_insert_eq|].
    split; [apply lookup_insert_eq|].
    intros e ->. by apply executeTask_logs_failure.
  - intros h w0. split; [apply tick_returns|].
    pose proof (tick_sched h w0) as Hsched. unfold sched in Hsched.
    split; [by simplify_eq|]. split; [by simplify_eq|].
    intros tm w' e Htm Hp. rewrite (tick_world _ _ _ Htm).
    by apply executeTask_logs_failure.
Qed.

Lemma positive_cancelled id w :
  positive_intervals w → positive_intervals (cancelled id w).
Proof.
  intros Hw id' r. unfold cancelled.
  destruct (scheduledTasks w !! id) eqn:E; simpl; [|apply Hw].
  intros [_ Hr]%lookup_delete_Some. by apply (Hw id').
Qed.

Lemma positive_armed id act ival d w :
  positive_intervals w → positive_intervals (armed id act ival d w).
Proof.
  intros Hw id' r. unfold armed. destruct (0 <? ival) eqn:E; simpl; [|apply Hw].
  intros [[_ <-]|[_ Hr]]%lookup_insert_Some.
  - simpl. by apply Z.ltb_lt.
  - by apply (Hw id').
Qed.

Lemma positive_same w w' :
  scheduledTasks w' = scheduledTasks w → positive_intervals w → positive_intervals w'.
Proof. intros E Hw id r. rewrite E. apply Hw. Qed.

Lemma positive_scheduled t exec :
  positive_intervals exec.1 → positive_intervals (scheduled t exec).1.
Proof.
  intros Hw. unfold scheduled. destruct (is_pending exec.2); [done|].
  by apply positive_armed.
Qed.

Lemma cancelScheduledTask_absent id w :
  scheduledTasks w !! id = None → cancelScheduledTask id w = (w, Normal false).
Proof.
  intros E. unfold cancelScheduledTask, mbind, JS_bind, gets. simpl. by rewrite E.
Qed.

Lemma positive_step l ev :
  positive_intervals (world l) → positive_intervals (world (step P l ev)).
Proof.
  intros Hl. destruct ev as [t|k|h|id]; simpl.
  - rewrite schedule_begin_spec. simpl. apply positive_cancelled.
    by apply (positive_same (world l)).
  - destruct (suspended l !! k) as [t|]; [|done]. simpl.
    rewrite schedule_resume_spec. apply positive_scheduled.
    eapply positive_same; [|exact Hl]. apply executeTask_fields.
  - eapply positive_same; [|exact Hl].
    pose proof (tick_sched h (world l)) as Hs. unfold sched in Hs. by simplify_eq.
  - intros id' r. unfold cancelScheduledTask, mbind, JS_bind, gets. simpl.
    destruct (scheduledTasks (world l) !! id) eqn:E; simpl; [|apply Hl].
    intros [_ Hr]%lookup_delete_Some. by apply (Hl id').
Qed.

(** C10: the records of [scheduledTasks] all carry a positive interval,
    in every state the service worker reaches, however scheduling calls,
    timer firings and cancellations interleave.  Scheduling a task whose
    interval is zero, omitted or negative executes it once, at once, and
    records nothing: the call ends as that execution does (its promise is
    fulfilled, or pending where the execution never settles, and never
    rejected), the id has no record afterwards, [cancelScheduledTask] on
    it returns [false] and changes nothing, and a recurring timer that was
    recorded under the id is gone. *)
Theorem one_shot_not_recorded (t : Task) (w : World) :
  (∀ l evs, positive_intervals (world l) → positive_intervals (world (run P l evs)))
  ∧ (task_interval t ≤ 0 →
     let out := scheduleBackgroundTask P (Some t) w in
     out = executeTask P (t_id t) (t_action t) (task_data t)
             (cancelled (t_id t) (announced t w))
     ∧ (out.2 = Normal Fulfilled ∨ out.2 = Normal Pending)
     ∧ (is_pending (performBackgroundTask P (t_id t) (t_action t) (task_data t)
                      (cancelled (t_id t) (announced t w))).2 = false →
        out.2 = Normal Fulfilled)
     ∧ scheduledTasks out.1 !! t_id t = None
     ∧ cancelScheduledTask (t_id t) out.1 = (out.1, Normal false)
     ∧ (∀ r, scheduledTasks w !! t_id t = Some r →
             timers out.1 !! intervalId r = None)).
Proof.
  split.
  - intros l evs. revert l. unfold run.
    induction evs as [|ev evs IH]; intros l Hl; simpl; [done|].
    apply IH. by apply positive_step.
  - intros Hle out.
    set (exec := executeTask P (t_id t) (t_action t) (task_data t)
                   (cancelled (t_id t) (announced t w))).
    assert (Hout : out = exec).
    { subst out. rewrite scheduleBackgroundTask_spec. fold exec. unfold scheduled, armed.
      rewrite (proj2 (Z.ltb_ge 0 (task_interval t)) Hle).
      destruct (executeTask_cases (t_id t) (t_action t) (task_data t)
                  (cancelled (t_id t) (announced t w))) as [Hex|Hex];
        fold exec in Hex; destruct exec as [w2 r]; simpl in Hex; by subst r. }
    rewrite Hout.
    destruct (executeTask_fields (t_id t) (t_action t) (task_data t)
                (cancelled (t_id t) (announced t w))) as (Hs & Ht & Hn).
    fold exec in Hs, Ht, Hn.
    assert (Hnone : scheduledTasks exec.1 !! t_id t = None).
    { rewrite Hs. apply cancelled_lookup. }
    split; [done|]. split; [apply executeTask_cases|].
    split; [intros Hp; unfold exec; by rewrite executeTask_result, Hp|].
    split; [done|]. split; [by apply cancelScheduledTask_absent|].
    intros r Hr. rewrite Ht. by apply cancelled_timer.
Qed.

(** The loop of [cleanupCache] over entries without [null] collects the
    keys of the expired ones; a [null] among them makes it throw. *)
Lemma collect_expired_no_null now m entries w :
  Forall (λ kv, kv.2 ≠ SNull) entries →
  collect_expired now m entries w
  = (w, Normal (filter (λ kv, is_expired now m kv.2 = true) entries).*1).
Proof.
  induction 1 as [|[k v] entries Hv _ IH]; [done|].
  simpl. unfold mbind at 1, JS_bind at 1, expired, value_timestamp.
  rewrite filter_cons.
  destruct v as [|b|z|s0|o]; simpl in *; try done;
    unfold mbind, JS_bind, mret, JS_ret; rewrite IH; simpl; try done.
  destruct (timestamp o) as [ts|]; [|done].
  by destruct (negb (ts =? 0) && js_gt (js_minus now ts) m).
Qed.

Lemma collect_expired_null now m entries w :
  Exists (λ kv, kv.2 = SNull) entries →
  collect_expired now m entries w = (w, Throw null_timestamp_error).
Proof.
  induction 1 as [[k v] entries Hv|[k v] entries _ IH]; simpl in *.
  - by subst v.
  - unfold mbind at 1, JS_bind at 1, expired, value_timestamp.
    destruct v as [|b|z|s0|o]; simpl; try done;
      unfold mbind, JS_bind, mret, JS_ret; by rewrite IH.
Qed.

Lemma no_null_entries (items : gmap string StoredValue) :
  no_null items → Forall (λ kv, kv.2 ≠ SNull) (map_to_list items).
Proof.
  intros Hn. apply Forall_forall. intros [k v] Hin%elem_of_map_to_list Hv.
  simpl in Hv. subst v. by apply (Hn k).
Qed.

Lemma null_entry (items : gmap string StoredValue) k :
  items !! k = Some SNull → Exists (λ kv, kv.2 = SNull) (map_to_list items).
Proof.
  intros Hk. apply Exists_exists. exists (k, SNull). split; [|done].
  by apply elem_of_map_to_list.
Qed.




(** The state [cleanupCache] leaves when storage can be read and holds
    no [null]. *)
Lemma cleanupCache_state d w :
  storage_fault P = None → no_null (store w) →
  let keys := stale_keys (clock w) (effective_maxAge d) (store w) in
  cleanupCache P d w
  = (logged [info (if (0 <? length keys)%nat
                   then "[Background Task] Cleaned up " +:+ pretty (length keys) +:+ " items"
                   else "[Background Task] Cache cleanup: no items to remove")]
       (with_store (foldr delete (store w) keys) w),
     Normal Fulfilled).
Proof.
  intros Hok Hnn keys.
  unfold cleanupCache, async_adopt, try_catch, new_promise, chrome_storage_local_get.
  rewrite Hok. unfold mbind at 1, JS_bind at 1, Date_now, gets.
  unfold mbind at 1, JS_bind at 1.
  rewrite (collect_expired_no_null _ _ _ _ (no_null_entries _ Hnn)).
  fold (stale_keys (clock w) (effective_maxAge d) (store w)). fold keys.
  unfold chrome_storage_local_remove. js_unfold. unfold logged, info.
  destruct keys as [|k ks]; simpl; [|done].
  by destruct w.
Qed.

(** With a [null] in storage the callback of [cleanupCache] throws before
    it removes anything: the state is as before and the promise stays
    pending. *)
Lemma cleanupCache_null d w k :
  storage_fault P = None → store w !! k = Some SNull →
  cleanupCache P d w = (w, Normal Pending).
Proof.
  intros Hok Hk.
  unfold cleanupCache, async_adopt, try_catch, new_promise, chrome_storage_local_get.
  rewrite Hok. unfold mbind at 1, JS_bind at 1, Date_now, gets.
  unfold mbind at 1, JS_bind at 1.
  by rewrite (collect_expired_null _ _ _ _ (null_entry _ _ Hk)).
Qed.

Lemma perform_cleanup id d w :
  performBackgroundTask P id "CLEANUP_CACHE" d w
  = let out := cleanupCache P d (logged [info ("[Task Executing] " +:+ id +:+ " - CLEANUP_CACHE")] w) in
    match out.2 with
    | Normal Fulfilled => (out.1, Normal Fulfilled)
    | Normal (Rejected e) =>
        (logged [failure ("[Task Execution Error] " +:+ id +:+ ":") e] out.1,
         Normal (Rejected e))
    | _ => (out.1, Normal Pending)
    end.
Proof.
  unfold performBackgroundTask.
  rewrite (decide_False (P := "CLEANUP_CACHE" = "SYNC_DATA")) by done.
  rewrite (decide_False (P := "CLEANUP_CACHE" = "CHECK_STATUS")) by done.
  rewrite (decide_True (P := "CLEANUP_CACHE" = "CLEANUP_CACHE")) by done.
  unfold async, try_catch, mbind, JS_bind, console_log, modify, logged, info.
  destruct (cleanupCache P d _) as [w1 [[|e|]|e|]] eqn:Hc; simpl; try done;
    unfold cleanupCache, async_adopt in Hc; by destruct (try_catch _ _ _) as [? [|?|]].
Qed.


(** One execution of the clean-up action with a [null] in storage. *)
Lemma executeTask_cleanup_null id d w k :
  storage_fault P = None → store w !! k = Some SNull →
  executeTask P id "CLEANUP_CACHE" d w
  = (logged [info ("[Task Executing] " +:+ id +:+ " - CLEANUP_CACHE")] w, Normal Pending).
Proof.
  intros Hok Hk.
  set (w0 := logged [info ("[Task Executing] " +:+ id +:+ " - CLEANUP_CACHE")] w).
  pose proof (cleanupCache_null d w0 k Hok Hk) as Hc.
  unfold executeTask, async, try_catch, mbind at 1, JS_bind at 1.
  rewrite perform_cleanup. cbn zeta. fold w0. by rewrite Hc.
Qed.


End scheduler.

(** * The message router *)

Section router.
Context (P : Platform).

Lemma respond_when_settled_spec (p : Promise) (w : World) :
  respond_when_settled p w = (with_sent (sent w ++ settled_reply p) w, Normal tt).
Proof. destruct p; try done. by destruct w; cbn; rewrite app_nil_r. Qed.

Lemma dispatch_async (body : JS unit) (w0 : World) :
  ∃ w1 p, async body w0 = (w1, Normal p)
    ∧ (p ← async body; respond_when_settled p ;; mret ReturnedTrue) w0
      = (with_sent (sent w1 ++ settled_reply p) w1, Normal ReturnedTrue).
Proof.
  unfold mbind, JS_bind, async.
  destruct (body w0) as [w1 [[]|e|]]; eexists _, _; (split; [reflexivity|]);
    try reflexivity.
  by destruct w1; cbn; rewrite app_nil_r.
Qed.

Ltac known_action E :=
  rewrite E; unfold known_actions; apply list_elem_of_In; simpl; tauto.

Ltac async_case E w request Hout :=
  let w1 := fresh "w1" in
  let p := fresh "p" in
  let Hh := fresh "Hh" in
  let Hr := fresh "Hr" in
  let Hrej := fresh "Hrej" in
  let Hunknown := fresh "Hunknown" in
  match type of Hout with
  | context [async ?b] =>
      destruct (dispatch_async b (received w request)) as (w1 & p & Hh & Hr)
  end;
  rewrite Hr in Hout; subst; split; [eauto|]; split;
  [ intros ? ? _ Hrej; rewrite Hh in Hrej; simplify_eq; reflexivity
  | intros Hunknown; exfalso; apply Hunknown; known_action E ].

Lemma router_cases (request : Request) (w : World) :
  (∃ r, (onRequest P request w).2 = Normal r)
  ∧ (∀ w1 e,
       r_action request ∈ known_actions →
       handler P request (received w request) = (w1, Normal (Rejected e)) →
       sent (onRequest P request w).1
       = sent w1 ++ [{| success := false; error := Some e; payload := NoPayload |}])
  ∧ (r_action request ∉ known_actions →
     onRequest P request w
     = (with_sent (sent w ++ [{| success := false; error := Some "Unknown action";
                                 payload := NoPayload |}]) (received w request),
        Normal ReturnedUndefined)).
Proof.
  remember (onRequest P request w) as out eqn:Hout.
  unfold onRequest in Hout. unfold handler.
  unfold mbind at 1 in Hout; unfold JS_bind at 1 in Hout;
    unfold console_log at 1 in Hout; unfold modify at 1 in Hout.
  fold (received w request) in Hout. unfold try_catch in Hout.
  destruct (decide (r_action request = "SHOW_NOTIFICATION")) as [E|N1].
  { unfold showNotification in *. async_case E w request Hout. }
  destruct (decide (r_action request = "UPDATE_NOTIFICATION")) as [E|N2].
  { unfold updateNotification in *. async_case E w request Hout. }
  destruct (decide (r_action request = "CLEAR_NOTIFICATION")) as [E|N3].
  { unfold clearNotification in *. async_case E w request Hout. }
  destruct (decide (r_action request = "CLEAR_ALL_NOTIFICATIONS")) as [E|N4].
  { unfold clearAllNotifications in *. async_case E w request Hout. }
  destruct (decide (r_action request = "GET_ACTIVE_NOTIFICATIONS")) as [E|N5].
  { subst out. split; [by eexists|]. split.
    { intros w1 e _ Hrej. discriminate Hrej. }
    intros Hunknown. exfalso. apply Hunknown. known_action E. }
  destruct (decide (r_action request = "SCHEDULE_TASK")) as [E|N6].
  { unfold scheduleBackgroundTask in *. async_case E w request Hout. }
  destruct (decide (r_action request = "GET_EXTENSION_STATUS")) as [E|N7].
  { unfold chrome_runtime_getManifest_version, async, mbind, JS_bind, Date_now, gets in *.
    simpl in *. destruct (manifest_version P) as [v|err]; subst out; simpl.
    - split; [by eexists|]. split; [by intros w1 e _ [=]|].
      intros Hunknown. exfalso. apply Hunknown. known_action E.
    - split; [by eexists|]. split.
      + intros w1 e _ [= <- <-]. done.
      + intros Hunknown. exfalso. apply Hunknown. known_action E. }
  subst out. split; [by eexists|]. split.
  - intros w1 e Hknown _. exfalso. unfold known_actions in Hknown.
    apply list_elem_of_In in Hknown. simpl in Hknown. intuition congruence.
  - intros _. reflexivity.
Qed.
Lemma platform_calls_sent :
  (∀ id o, preserves sent (chrome_notifications_create P id o))
  ∧ (∀ id o, preserves sent (chrome_notifications_update P id o))
  ∧ (∀ id, preserves sent (chrome_notifications_clear P id))
  ∧ preserves sent (chrome_runtime_getManifest_version P).
Proof.
  repeat split; intros; intros w.
  - unfold chrome_notifications_create. by destruct (notifications_create_fails P id o).
  - unfold chrome_notifications_update. by destruct (notifications_update_fails P id o).
  - unfold chrome_notifications_clear. by destruct (notifications_clear_fails P id).
  - unfold chrome_runtime_getManifest_version. by destruct (manifest_version P).
Qed.

Lemma executeTask_sent id act d : preserves sent (executeTask P id act d).
Proof.
  unfold executeTask, performBackgroundTask, syncData, checkPortalStatus, cleanupCache,
    refreshAuthToken, chrome_storage_local_set, chrome_storage_local_remove, broadcast.
  frame; try apply (storage_get_preserves P); try apply collect_expired_preserves.
Qed.

(** No handler answers the request itself: the reply is left to the
    router. *)
Lemma handler_sent (request : Request) : preserves sent (handler P request).
Proof.
  destruct platform_calls_sent as (Hc & Hu & Hx & Hm).
  unfold handler, showNotification, updateNotification, clearNotification,
    clearAllNotifications, scheduleBackgroundTask, cancel_previous, arm_recurring,
    scheduling_error, clearInterval.
  frame; try apply Hc; try apply Hu; try apply Hx; try apply Hm;
    try apply executeTask_sent; intros ?; reflexivity.
Qed.


(** A [SHOW_NOTIFICATION] request is answered [{success: true}] whatever
    the platform did with the notification: [showNotification] never
    rejects, so the router's failure branch is never taken. *)
Lemma show_always_answered_with_success (request : Request) (w : World) :
  r_action request = "SHOW_NOTIFICATION" →
  onMessage P (Some request) w
  = (let w1 := (showNotification P (r_id request) (r_options request)
                  (received w request)).1 in
     with_sent (sent w ++ [{| success := true; error := None; payload := NoPayload |}]) w1,
     Normal ReturnedTrue).
Proof.
  intros E.
  pose proof (handler_sent request (received w request)) as Hsent.
  unfold handler in Hsent. rewrite decide_True in Hsent by done.
  pose proof (showNotification_fulfilled P (r_id request) (r_options request)
                (received w request)) as Hful.
  unfold onMessage, onRequest.
  unfold mbind at 1; unfold JS_bind at 1; unfold console_log at 1; unfold modify at 1.
  fold (received w request). rewrite decide_True by done.
  unfold try_catch, mbind, JS_bind.
  destruct (showNotification P (r_id request) (r_options request) (received w request))
    as [w1 r]. simpl in Hful, Hsent. subst r. simpl. by rewrite Hsent.
Qed.

(** A message that is [null] or [undefined] is no request: the listener
    throws before its [try], nothing is logged and nothing is sent. *)
Lemma null_message_escapes (w : World) :
  onMessage P None w = (w, Throw "Cannot read properties of null (reading 'action')").
Proof. reflexivity. Qed.

(** C3: for a request, the router never lets an exception escape: the
    listener completes normally.  For every action of its [switch], when
    the handler it invokes rejects or throws with message [e], the one
    reply it sends is [{success: false, error: e}].  For every other
    action name the listener replies
    [{success: false, error: "Unknown action"}] before it returns, and
    returns [undefined], not [true]. *)
Theorem router_contains_failures (request : Request) (w : World) :
  (∃ r, (onMessage P (Some request) w).2 = Normal r)
  ∧ (∀ w1 e,
       r_action request ∈ known_actions →
       handler P request (received w request) = (w1, Normal (Rejected e)) →
       sent (onMessage P (Some request) w).1
       = sent w ++ [{| success := false; error := Some e; payload := NoPayload |}])
  ∧ (r_action request ∉ known_actions →
     onMessage P (Some request) w
     = (with_sent (sent w ++ [{| success := false; error := Some "Unknown action";
                                 payload := NoPayload |}]) (received w request),
        Normal ReturnedUndefined)).
Proof.
  change (onMessage P (Some request) w) with (onRequest P request w).
  destruct (router_cases request w) as (Hret & Hfail & Hunknown).
  split; [exact Hret|]. split; [|exact Hunknown].
  intros w1 e Hknown Hrej. rewrite (Hfail w1 e Hknown Hrej).
  pose proof (handler_sent request (received w request)) as Hsent.
  rewrite Hrej in Hsent. simpl in Hsent. by rewrite Hsent.
Qed.

End router.

(** * The settings-seeding script *)

Section persistence.
Context (P : Platform).

Lemma deliver_set_calls (w : World) (ev : Persistence.Lifecycle) :
  set_calls (Persistence.deliver P w ev)
  = if decide (ev = Persistence.Installed "install")
    then set_calls w ++ [Persistence.default_settings]
    else set_calls w.
Proof.
  unfold Persistence.deliver. destruct ev as [reason| |]; simpl.
  - unfold Persistence.onInstalled.
    destruct (decide (reason = "install")) as [->|Hne].
    + by rewrite decide_True.
    + rewrite (decide_False (P := Persistence.Installed reason = Persistence.Installed "install"))
        by (intros [=]; done).
      destruct (decide (reason = "update")); [|done].
      unfold chrome_runtime_getManifest_version. js_unfold.
      by destruct (manifest_version P).
  - done.
  - done.
Qed.

Lemma default_writes_snoc (w : World) (ev : Persistence.Lifecycle) :
  Persistence.default_writes (Persistence.deliver P w ev)
  = (Persistence.default_writes w + Persistence.installs [ev])%nat.
Proof.
  unfold Persistence.default_writes, Persistence.installs.
  rewrite deliver_set_calls. rewrite filter_cons, filter_nil.
  destruct (decide (ev = Persistence.Installed "install")); simpl.
  - rewrite filter_app, length_app. by f_equal.
  - lia.
Qed.

(** C9: a first-install event makes exactly one [chrome.storage.local.set]
    call, with the object [{extensionEnabled: true, autoRefresh: false,
    refreshInterval: 5000, notifications: true, theme: "light"}], and
    each of the five is in storage afterwards, every other key being as
    before.  Over any trace of life-cycle events the number of writes of
    the defaults equals the number of first-install events, and a trace
    without one (updates, browser starts, suspensions) makes no [set]
    call at all.  The install listener of the service worker makes no
    [set] call either: it only opens the options page. *)
Theorem defaults_written_once (w : World) (evs : list Persistence.Lifecycle) :
  (let installed := Persistence.deliver P w (Persistence.Installed "install") in
   set_calls installed
     = set_calls w ++
       [<["extensionEnabled" := SBool true]>
          (<["autoRefresh" := SBool false]>
             (<["refreshInterval" := SNum 5000]>
                (<["notifications" := SBool true]> {["theme" := SStr "light"]})))]
   ∧ store installed !! "extensionEnabled" = Some (SBool true)
   ∧ store installed !! "autoRefresh" = Some (SBool false)
   ∧ store installed !! "refreshInterval" = Some (SNum 5000)
   ∧ store installed !! "notifications" = Some (SBool true)
   ∧ store installed !! "theme" = Some (SStr "light")
   ∧ ∀ k, k ∉ ["extensionEnabled"; "autoRefresh"; "refreshInterval"; "notifications";
               "theme"] →
          store installed !! k = store w !! k)
  ∧ Persistence.default_writes (Persistence.lifecycle P w evs)
    = (Persistence.default_writes w + Persistence.installs evs)%nat
  ∧ (Persistence.installs evs = 0%nat →
     set_calls (Persistence.lifecycle P w evs) = set_calls w)
  ∧ (∀ reason, set_calls (onInstalled P reason w).1 = set_calls w).
Proof.
  split; [|split; [|split]]; [| | |intros reason; unfold onInstalled; js_unfold;
                                    by destruct (decide (reason = "install"))].
  - cbn zeta. split; [by rewrite deliver_set_calls, decide_True|].
    unfold Persistence.deliver. cbn.
    do 5 (split; [by apply lookup_union_Some_l|]).
    intros k Hk. apply lookup_union_r. unfold Persistence.default_settings.
    rewrite !not_elem_of_cons in Hk. destruct Hk as (? & ? & ? & ? & ? & _).
    rewrite !lookup_insert_ne by done. by apply lookup_singleton_ne.
  - revert w. unfold Persistence.lifecycle.
    induction evs as [|ev evs IH]; intros w; simpl.
    + unfold Persistence.installs. simpl. lia.
    + rewrite IH, default_writes_snoc. unfold Persistence.installs.
      rewrite (filter_cons _ ev evs), (filter_cons _ ev []), filter_nil.
      destruct (decide (ev = Persistence.Installed "install")); simpl; lia.
  - revert w. unfold Persistence.lifecycle, Persistence.installs.
    induction evs as [|ev evs IH]; intros w; simpl; [done|].
    rewrite filter_cons.
    destruct (decide (ev = Persistence.Installed "install")) as [|Hne]; simpl; [done|].
    intros Hz. rewrite (IH _ Hz), deliver_set_calls. by rewrite decide_False.
Qed.

End persistence.

(** * Timers under interleaving *)

Section serial.
Context (P : Platform).

Lemma tracked_sched (w w' : World) : sched w' = sched w → tracked w → tracked w'.
Proof.
  unfold sched, tracked. intros [= Hs Ht Hn] [H1 H2]. rewrite Hs, Ht, Hn. done.
Qed.

Lemma tracked_one_timer (w : World) : tracked w → one_timer_per_id w.
Proof.
  intros [H1 _] h1 h2 t1 t2 E1 E2 Heq.
  destruct (H1 _ _ E1) as (r1 & Hr1 & <-).
  destruct (H1 _ _ E2) as (r2 & Hr2 & <-).
  rewrite Heq in Hr1. by simplify_eq.
Qed.

Lemma tracked_cancelled (id : string) (w : World) :
  tracked w → tracked (cancelled id w).
Proof.
  intros [H1 H2]. unfold cancelled.
  destruct (scheduledTasks w !! id) as [r|] eqn:E; [|done].
  split; simpl.
  - intros h tm [Hne Htm]%lookup_delete_Some.
    destruct (H1 _ _ Htm) as (r' & Hr' & Hh). exists r'. split; [|done].
    rewrite lookup_delete_ne; [done|]. intros Heq. rewrite <- Heq in Hr'.
    by simplify_eq.
  - intros h tm [_ Htm]%lookup_delete_Some. by apply (H2 h tm).
Qed.

Lemma tracked_armed (id act : string) (ival : Z) (d : TaskData) (w : World) :
  tracked w → scheduledTasks w !! id = None → tracked (armed id act ival d w).
Proof.
  intros [H1 H2] Hfree. unfold armed. destruct (0 <? ival); [|done].
  split; simpl.
  - intros h tm [[<- <-]|[Hne Htm]]%lookup_insert_Some; simpl.
    + eexists. by rewrite lookup_insert_eq.
    + destruct (H1 _ _ Htm) as (r' & Hr' & Hh). exists r'. split; [|done].
      rewrite lookup_insert_ne; [done|]. intros Heq. rewrite <- Heq in Hr'.
      by simplify_eq.
  - intros h tm [[<- <-]|[Hne Htm]]%lookup_insert_Some; [lia|].
    specialize (H2 _ _ Htm). lia.
Qed.

Lemma cancelled_keeps_free (id k : string) (w : World) :
  scheduledTasks w !! k = None → scheduledTasks (cancelled id w) !! k = None.
Proof.
  intros Hk. unfold cancelled. destruct (scheduledTasks w !! id); [|done].
  simpl. rewrite lookup_delete_None. by right.
Qed.

Lemma cancelScheduledTask_sched (id : string) (w : World) :
  sched (cancelScheduledTask id w).1 = sched (cancelled id w).
Proof.
  unfold cancelScheduledTask, cancelled, clearInterval. js_unfold.
  by destruct (scheduledTasks w !! id).
Qed.

Lemma exclusive_step (l : Loop) (ev : Event) :
  exclusive l →
  match ev with Call t => t_id t ∉ (t_id <$> suspended l) | _ => True end →
  exclusive (step P l ev).
Proof.
  intros (Htr & Hfree & Hnd) Hside. destruct ev as [t|k|h|id]; simpl.
  - rewrite schedule_begin_spec. unfold exclusive. simpl. split; [|split].
    + apply tracked_cancelled. by apply (tracked_sched (world l)).
    + apply Forall_app. split.
      * eapply Forall_impl; [exact Hfree|]. intros t' Ht'. simpl in Ht'.
        by apply cancelled_keeps_free.
      * apply Forall_singleton. apply cancelled_lookup.
    + rewrite fmap_app. apply NoDup_app. split; [done|]. split.
      * intros x Hx [->|[]%elem_of_nil]%elem_of_cons. done.
      * apply NoDup_singleton.
  - destruct (suspended l !! k) as [t|] eqn:Hk; [|done]. simpl.
    rewrite schedule_resume_spec.
    destruct (executeTask_fields P (t_id t) (t_action t) (task_data t) (world l))
      as (Hs & Ht & Hn).
    assert (Hid : scheduledTasks (world l) !! t_id t = None).
    { rewrite Forall_lookup in Hfree. by apply (Hfree k). }
    assert (Hother : ∀ t', t' ∈ delete k (suspended l) → t_id t' ≠ t_id t).
    { intros t' Hin Heq. rewrite <- (take_drop_middle _ _ _ Hk) in Hnd.
      rewrite fmap_app, fmap_cons in Hnd.
      apply NoDup_app in Hnd as (_ & Hdis & [Hnot _]%NoDup_cons).
      rewrite delete_take_drop in Hin. apply elem_of_app in Hin as [Hin|Hin].
      - apply (Hdis (t_id t')); [by apply list_elem_of_fmap_2|]. rewrite Heq. left.
      - apply Hnot. rewrite <- Heq. by apply list_elem_of_fmap_2. }
    assert (Hexec : tracked (executeTask P (t_id t) (t_action t) (task_data t)
                               (world l)).1).
    { apply (tracked_sched (world l)); [|done]. unfold sched. by rewrite Hs, Ht, Hn. }
    unfold exclusive, scheduled.
    destruct (is_pending _); cbn [fst world suspended]; (split; [|split]).
    + done.
    + apply Forall_forall. intros t' Hin. rewrite Hs.
      rewrite Forall_forall in Hfree. apply Hfree.
      by apply list_elem_of_delete_inv in Hin.
    + eapply sublist_NoDup; [exact Hnd|]. apply fmap_sublist, sublist_delete.
    + apply tracked_armed; [done | by rewrite Hs].
    + apply Forall_forall. intros t' Hin.
      assert (Hfree' : scheduledTasks (world l) !! t_id t' = None).
      { rewrite Forall_forall in Hfree. apply Hfree.
        by apply list_elem_of_delete_inv in Hin. }
      unfold armed. destruct (0 <? task_interval t); simpl.
      * rewrite lookup_insert_ne; [by rewrite Hs|]. intros Heq. by apply (Hother t').
      * by rewrite Hs.
    + eapply sublist_NoDup; [exact Hnd|]. apply fmap_sublist, sublist_delete.
  - pose proof (tick_sched P h (world l)) as Hsch.
    unfold exclusive. simpl. split; [|split]; [| |done].
    + by apply (tracked_sched (world l)).
    + unfold sched in Hsch. simplify_eq. eapply Forall_impl; [exact Hfree|].
      intros t' Ht'. simpl in *. congruence.
  - pose proof (cancelScheduledTask_sched id (world l)) as Hsch.
    unfold exclusive. simpl. split; [|split]; [| |done].
    + eapply tracked_sched; [exact Hsch|]. by apply tracked_cancelled.
    + unfold sched in Hsch. simplify_eq. eapply Forall_impl; [exact Hfree|].
      intros t' Ht'. simpl in *.
      match goal with H : scheduledTasks _ = _ |- _ => rewrite H end.
      by apply cancelled_keeps_free.
Qed.

Lemma exclusive_run (evs : list Event) (l : Loop) :
  exclusive l → calls_disjoint P l evs → exclusive (run P l evs).
Proof.
  unfold run. revert l. induction evs as [|ev evs IH]; intros l Hl Hd; simpl; [done|].
  destruct Hd as [Hside Hd]. apply IH; [|done]. by apply exclusive_step.
Qed.

Lemma calls_disjoint_take (n : nat) (evs : list Event) (l : Loop) :
  calls_disjoint P l evs → calls_disjoint P l (take n evs).
Proof.
  revert l evs. induction n as [|n IH]; intros l [|ev evs]; simpl; try done.
  intros [Hside Hd]. split; [done|]. by apply IH.
Qed.

(** As long as no call starts for an id while an earlier call for that id
    is suspended, every state the service worker passes through has at
    most one live timer per task id. *)
Theorem one_timer_when_calls_do_not_overlap (l : Loop) (evs : list Event) (n : nat) :
  exclusive l → calls_disjoint P l evs →
  one_timer_per_id (world (run P l (take n evs))).
Proof.
  intros Hl Hd. apply tracked_one_timer.
  apply (exclusive_run (take n evs) l Hl). by apply calls_disjoint_take.
Qed.

Lemma back_to_back_disjoint (ts : list Task) (l : Loop) :
  suspended l = [] → calls_disjoint P l (back_to_back ts).
Proof.
  revert l. induction ts as [|t ts IH]; intros l Hl; [done|].
  change (back_to_back (t :: ts)) with (Call t :: Resume 0 :: back_to_back ts).
  split; [rewrite Hl; apply not_elem_of_nil|]. split; [done|].
  apply IH. unfold step at 2. rewrite schedule_begin_spec, Hl. reflexivity.
Qed.

Lemma exclusive_idle (w : World) : tracked w → exclusive (idle w).
Proof.
  intros Hw. split; [done|]. split; [apply Forall_nil_2 | apply NoDup_nil_2].
Qed.

(** A call that is not interleaved with anything is the two halves run
    one after the other. *)
Lemma call_resume (t : Task) (w : World) :
  world (run P (idle w) [Call t; Resume 0]) = (scheduleBackgroundTask P (Some t) w).1.
Proof.
  rewrite scheduleBackgroundTask_split. unfold run, idle. simpl.
  rewrite schedule_begin_spec. simpl. by rewrite schedule_resume_spec.
Qed.

(** For every sequence of calls that run one after the other, starting
    from a freshly loaded service worker, at most one timer exists per
    task id at every point, between the halves of a call included. *)
Corollary one_timer_back_to_back (ts : list Task) (now : Z) (n : nat) :
  one_timer_per_id
    (world (run P (idle (fresh_world now)) (take n (back_to_back ts)))).
Proof.
  apply one_timer_when_calls_do_not_overlap.
  - apply exclusive_idle. split; intros h tm Hh; simpl in Hh;
      by rewrite lookup_empty in Hh.
  - by apply back_to_back_disjoint.
Qed.

End serial.

(** C7, at a concrete input: updating "ghost" in a fresh service worker. *)
Lemma update_absent_is_noop_witness :
  JsMap.get "ghost" (activeNotifications (fresh_world 0)) = None
  ∧ updateNotification reliable "ghost" ∅ (fresh_world 0)
    = (warned (fresh_world 0) "ghost", Normal Fulfilled).
Proof.
  split; [reflexivity|].
  apply (update_absent_is_noop reliable "ghost" ∅ (fresh_world 0)). reflexivity.
Defined.

(** C8, as amended, at concrete inputs: show then clear of "n1" on a
    browser whose clear call succeeds, and a clear of "ghost", which was
    never shown. *)
Lemma show_then_clear_witness :
  (notifications_clear_fails reliable "n1" = None
   ∧ JsMap.get "n1" (activeNotifications
       (clearNotification reliable "n1"
          (showNotification reliable "n1" ∅ (fresh_world 0)).1).1) = None)
  ∧ (JsMap.get "ghost" (activeNotifications two_shown) = None
     ∧ (clearNotification (clear_rejects ["ghost"]) "ghost" two_shown).2 = Normal Fulfilled
     ∧ activeNotifications (clearNotification (clear_rejects ["ghost"]) "ghost" two_shown).1
       = activeNotifications two_shown).
Proof.
  split.
  - split; [reflexivity|].
    exact (proj1 (show_then_clear reliable "n1" ∅ (fresh_world 0)) eq_refl).
  - split; [reflexivity|].
    destruct (proj2 (show_then_clear (clear_rejects ["ghost"]) "ghost" ∅ two_shown) eq_refl)
      as (Hf & Hr & _).
    split; [exact Hf | exact Hr].
Defined.

(** C8, as stated, fails when the platform's clear call fails: the record
    created by [showNotification] is still in the registry after
    [clearNotification]. *)
Lemma show_then_clear_counterexample :
  JsMap.get "n1" (activeNotifications
    (clearNotification (clear_rejects ["n1"]) "n1"
       (showNotification (clear_rejects ["n1"]) "n1" ∅ (fresh_world 0)).1).1)
  ≠ None.
Proof. vm_compute. discriminate. Qed.

(** C1, at the failing input: the platform refuses the notification, no
    record is stored, and the caller is still told [{success: true}]. *)
Lemma show_failure_answered_with_success :
  let out := onMessage create_rejects (Some (show_request "n1")) (fresh_world 0) in
  out.2 = Normal ReturnedTrue
  ∧ sent out.1 = [{| success := true; error := None; payload := NoPayload |}]
  ∧ activeNotifications out.1 = []
  ∧ shown out.1 = ∅.
Proof. vm_compute. done. Qed.

(** The sweep at concrete inputs: over "a" and "b" it succeeds, and it
    stops where the clear call of "a" fails. *)
Lemma clearAll_sweep_witness :
  (Forall (λ id, notifications_clear_fails reliable id = None)
          (JsMap.keys (activeNotifications two_shown))
   ∧ activeNotifications (clearAllNotifications reliable two_shown).1 = [])
  ∧ (JsMap.keys (activeNotifications two_shown) = [] ++ "a" :: ["b"]
     ∧ notifications_clear_fails (clear_rejects ["a"]) "a"
       = Some "The notification could not be cleared."
     ∧ activeNotifications (clearAllNotifications (clear_rejects ["a"]) two_shown).1
       = activeNotifications two_shown).
Proof.
  split.
  - assert (H : Forall (λ id, notifications_clear_fails reliable id = None)
                       (JsMap.keys (activeNotifications two_shown))).
    { repeat constructor. }
    split; [exact H|].
    exact (proj1 (proj2 (proj1 (clearAll_sweep reliable two_shown) H))).
  - split; [reflexivity|]. split; [reflexivity|].
    exact (proj1 (proj2 (proj2 (clearAll_sweep (clear_rejects ["a"]) two_shown)
             [] "a" ["b"] "The notification could not be cleared."
             eq_refl (Forall_nil_2 _) eq_refl))).
Defined.

(** C4, at the failing input: "a", "b" and "c" are shown and the platform
    fails to clear "b".  The sweep ends there: "c", whose clear call would
    succeed, is still shown; no entry leaves the registry; and "a", which
    the sweep did clear on the platform, is still tracked, so the registry
    names a notification that no longer exists. *)
Theorem failed_clear_aborts_the_sweep :
  let out := clearAllNotifications (clear_rejects ["b"]) three_shown in
  JsMap.keys (activeNotifications three_shown) = ["a"; "b"; "c"]
  ∧ notifications_clear_fails (clear_rejects ["b"]) "c" = None
  ∧ out.2 = Normal Fulfilled
  ∧ is_Some (shown out.1 !! "c")
  ∧ JsMap.keys (activeNotifications out.1) = ["a"; "b"; "c"]
  ∧ shown out.1 !! "a" = None
  ∧ ¬ registered_shown out.1.
Proof.
  cbn zeta.
  assert (Hgone : shown (clearAllNotifications (clear_rejects ["b"]) three_shown).1 !! "a"
                  = None) by (vm_compute; reflexivity).
  split; [vm_compute; reflexivity|]. split; [vm_compute; reflexivity|].
  split; [vm_compute; reflexivity|]. split; [vm_compute; by eexists|].
  split; [vm_compute; reflexivity|]. split; [exact Hgone|].
  intros Hinv. specialize (Hinv "a"). rewrite Hgone in Hinv.
  assert (is_Some (@None JsObject)) as [? [=]].
  apply Hinv. vm_compute. by eexists.
Qed.

(** C3, at concrete inputs: a [SCHEDULE_TASK] request without a task,
    whose handler rejects with the [TypeError] of the destructuring, and a
    request with an action the router does not know. *)
Lemma router_contains_failures_witness :
  ("SCHEDULE_TASK" ∈ known_actions
   ∧ handler reliable (schedule_request None)
       (received (fresh_world 0) (schedule_request None))
     = (received (fresh_world 0) (schedule_request None),
        Normal (Rejected "Cannot destructure property 'id' of 'task' as it is undefined."))
   ∧ sent (onMessage reliable (Some (schedule_request None)) (fresh_world 0)).1
     = [{| success := false;
           error := Some "Cannot destructure property 'id' of 'task' as it is undefined.";
           payload := NoPayload |}])
  ∧ (("PING" ∉ known_actions)
     ∧ onMessage reliable (Some ping_request) (fresh_world 0)
       = (with_sent [{| success := false; error := Some "Unknown action";
                        payload := NoPayload |}]
            (received (fresh_world 0) ping_request), Normal ReturnedUndefined)).
Proof.
  assert (Hk : "SCHEDULE_TASK" ∈ known_actions).
  { apply list_elem_of_In. simpl. tauto. }
  assert (Hu : "PING" ∉ known_actions).
  { intros H. apply list_elem_of_In in H. simpl in H. intuition discriminate. }
  split.
  - split; [exact Hk|]. split; [reflexivity|].
    exact (proj1 (proj2 (router_contains_failures reliable (schedule_request None)
                           (fresh_world 0))) _ _ Hk eq_refl).
  - split; [exact Hu|].
    exact (proj2 (proj2 (router_contains_failures reliable ping_request
                           (fresh_world 0))) Hu).
Defined.

(** C9, at a concrete trace: the install writes the defaults once, and
    the starts and the update after it write nothing. *)
Lemma defaults_written_once_witness :
  Persistence.default_writes (Persistence.lifecycle reliable (fresh_world 0) first_week)
  = 1%nat
  ∧ Persistence.installs (tail first_week) = 0%nat
  ∧ set_calls (Persistence.lifecycle reliable
                 (Persistence.deliver reliable (fresh_world 0) (Persistence.Installed "install"))
                 (tail first_week))
    = [<["extensionEnabled" := SBool true]>
         (<["autoRefresh" := SBool false]>
            (<["refreshInterval" := SNum 5000]>
               (<["notifications" := SBool true]> {["theme" := SStr "light"]})))].
Proof.
  split; [|split].
  - exact (proj1 (proj2 (defaults_written_once reliable (fresh_world 0) first_week))).
  - reflexivity.
  - rewrite (proj1 (proj2 (proj2 (defaults_written_once reliable
               (Persistence.deliver reliable (fresh_world 0) (Persistence.Installed "install"))
               (tail first_week)))) eq_refl).
    exact (proj1 (proj1 (defaults_written_once reliable (fresh_world 0) []))).
Defined.

(** At a concrete input: storage is unavailable while the synchronisation
    task is scheduled; the execution fails, the error is logged and the
    timer is armed. *)
Lemma schedule_survives_rejection_witness :
  t_interval sync_task = Some 300000
  ∧ 0 < 300000
  ∧ (performBackgroundTask storage_down "auto-sync" "SYNC_DATA" empty_data
       (cancelled "auto-sync" (announced sync_task (fresh_world 0)))).2
    = Normal (Rejected "Extension context invalidated.")
  ∧ timers (scheduleBackgroundTask storage_down (Some sync_task) (fresh_world 0)).1 !! 0%nat
    = Some {| tm_task := "auto-sync"; tm_action := "SYNC_DATA"; tm_data := empty_data;
              tm_period := 300000 |}
  ∧ last (console (scheduleBackgroundTask storage_down (Some sync_task) (fresh_world 0)).1)
    = Some (task_error "auto-sync" "Extension context invalidated.").
Proof.
  pose proof (proj1 (schedule_survives_rejection storage_down sync_task 300000 (fresh_world 0)
                       eq_refl eq_refl) _ _ eq_refl ltac:(discriminate))
    as (_ & Htimer & _ & Hlog).
  split; [reflexivity|]. split; [reflexivity|]. split; [reflexivity|].
  split; [exact Htimer|].
  rewrite (Hlog _ eq_refl). apply last_snoc.
Defined.

(** C6, at the failing input: storage holds [null] under one key when the
    daily clean-up is scheduled.  Reading [timestamp] off that value
    throws inside the callback of [chrome.storage.local.get]; nothing
    catches it there, so the promise of the clean-up never settles and
    the call never gets past [await executeTask()]: no timer is armed, no
    task is recorded, no error line is written, and the sender of a
    [SCHEDULE_TASK] message for it gets no reply.  Such a value gets into
    storage through [saveUserSettings], which stores the object of the
    message as it is. *)
Theorem stored_null_leaves_the_timer_unarmed :
  let t := cleanup_task 604800000 in
  let out := scheduleBackgroundTask reliable (Some t) null_stored in
  store null_stored = {["nickname" := SNull]}
  ∧ t_interval t = Some 86400000
  ∧ (expired 5000 604800000 SNull null_stored).2
    = Throw "Cannot read properties of null (reading 'timestamp')"
  ∧ out.2 = Normal Pending
  ∧ timers out.1 = ∅
  ∧ scheduledTasks out.1 = ∅
  ∧ console out.1
    = [info "[Task Scheduled] daily-cleanup - Action: CLEANUP_CACHE, Interval: 86400000ms";
       info "[Task Executing] daily-cleanup - CLEANUP_CACHE"]
  ∧ sent (onMessage reliable (Some (schedule_request (Some t))) null_stored).1 = []
  ∧ store (Portal.base
             (Portal.handleSaveUserSettings calm (Some {["nickname" := SNull]})
                (Portal.start (fresh_world 5000))).1)
    = store null_stored.
Proof. cbn zeta. repeat split; vm_compute; reflexivity. Qed.

(** C10, at a concrete input: a one-shot status check scheduled under the
    id of the running synchronisation task. *)
Lemma one_shot_not_recorded_witness :
  task_interval check_once ≤ 0
  ∧ scheduledTasks syncing !! "auto-sync"
    = Some {| action := "SYNC_DATA"; interval := 300000; data := empty_data;
              intervalId := 0%nat |}
  ∧ scheduledTasks (scheduleBackgroundTask reliable (Some check_once) syncing).1
      !! "auto-sync" = None
  ∧ timers (scheduleBackgroundTask reliable (Some check_once) syncing).1 !! 0%nat = None
  ∧ (cancelScheduledTask "auto-sync"
       (scheduleBackgroundTask reliable (Some check_once) syncing).1).2 = Normal false
  ∧ positive_intervals (world (run reliable (idle syncing) overlapping_calls)).
Proof.
  assert (Hle : task_interval check_once ≤ 0) by (vm_compute; discriminate).
  assert (Hrec : scheduledTasks syncing !! "auto-sync"
    = Some {| action := "SYNC_DATA"; interval := 300000; data := empty_data;
              intervalId := 0%nat |}) by reflexivity.
  destruct (one_shot_not_recorded reliable check_once syncing) as [Hinv Hshot].
  destruct (Hshot Hle) as (_ & _ & _ & Hnone & Hcancel & Htimer).
  split; [exact Hle|]. split; [exact Hrec|]. split; [exact Hnone|].
  split; [exact (Htimer _ Hrec)|]. split; [exact (f_equal snd Hcancel)|].
  apply Hinv. intros id r Hr.
  change (scheduledTasks (world (idle syncing))) with (scheduledTasks syncing) in Hr.
  destruct (decide (id = "auto-sync")) as [->|Hne].
  - rewrite Hrec in Hr. injection Hr as <-. reflexivity.
  - assert (Hdom : scheduledTasks syncing
              = {["auto-sync" := {| action := "SYNC_DATA"; interval := 300000;
                                     data := empty_data; intervalId := 0%nat |}]})
      by (vm_compute; reflexivity).
    rewrite Hdom, lookup_singleton_ne in Hr by done. discriminate.
Defined.



(** C2, at the failing input: two calls for "daily-cleanup" whose awaits
    overlap.  Neither finds a record to cancel, both arm a timer: two live
    timers are bound to the id, and the one the record no longer names
    cannot be cancelled through [cancelScheduledTask]. *)
Lemma overlapping_calls_leave_two_timers :
  size (timers_of "daily-cleanup" raced) = 2%nat
  ∧ tm_task <$> timers raced !! 0%nat = Some "daily-cleanup"
  ∧ tm_task <$> timers raced !! 1%nat = Some "daily-cleanup"
  ∧ intervalId <$> scheduledTasks raced !! "daily-cleanup" = Some 1%nat
  ∧ tm_task <$> timers (cancelScheduledTask "daily-cleanup" raced).1 !! 0%nat
    = Some "daily-cleanup"
  ∧ ¬ one_timer_per_id raced.
Proof.
  assert (H0 : tm_task <$> timers raced !! 0%nat = Some "daily-cleanup")
    by (vm_compute; reflexivity).
  assert (H1 : tm_task <$> timers raced !! 1%nat = Some "daily-cleanup")
    by (vm_compute; reflexivity).
  split; [vm_compute; reflexivity|]. split; [exact H0|]. split; [exact H1|].
  split; [vm_compute; reflexivity|]. split; [vm_compute; reflexivity|].
  intros Hone.
  destruct (timers raced !! 0%nat) as [t0|] eqn:E0; [|discriminate].
  destruct (timers raced !! 1%nat) as [t1|] eqn:E1; [|discriminate].
  simpl in H0, H1. assert (Heq : tm_task t0 = tm_task t1) by congruence.
  discriminate (Hone _ _ _ _ E0 E1 Heq).
Qed.

(** * More on the notification registry *)

Section more_registry.
Context (P : Platform).

Lemma with_delivered_id (w : World) : with_delivered (delivered w) w = w.
Proof. by destruct w. Qed.

Lemma deliver_each (msg : TabMessage) (ts : list nat) (w : World) :
  for_of ts (λ tab, modify (λ w, with_delivered (delivered w ++ [(tab, msg)]) w)) w
  = (with_delivered (delivered w ++ fan_out msg ts) w, Normal tt).
Proof.
  revert w. induction ts as [|t ts IH]; intros w.
  - simpl. by rewrite app_nil_r, with_delivered_id.
  - rewrite for_of_cons. unfold modify at 1. rewrite IH. simpl.
    rewrite <- app_assoc. by destruct w.
Qed.

(** A broadcast makes one delivery attempt per open tab, in the order of
    the tabs, and changes nothing else. *)
Lemma broadcast_reaches_every_tab (msg : TabMessage) (w : World) :
  broadcast msg w
  = (with_delivered (delivered w ++ fan_out msg (tabs w)) w, Normal tt).
Proof.
  unfold broadcast, mbind, JS_bind, gets. apply deliver_each.
Qed.

Lemma handleNotificationAction_state (id kind : string) (opts : JsObject)
    (button : option Z) (w : World) :
  handleNotificationAction id kind opts button w
  = (with_delivered
       (delivered w ++ fan_out (NotificationAction id kind opts button) (tabs w)) w,
     Normal tt).
Proof.
  unfold handleNotificationAction, try_catch. by rewrite broadcast_reaches_every_tab.
Qed.

(** X1: [handleNotificationAction] never throws and makes exactly one
    delivery attempt of the [NOTIFICATION_ACTION] message per open tab, in
    the order of the tabs; nothing else in the state changes. *)
Theorem notification_action_fan_out (id kind : string) (opts : JsObject)
    (button : option Z) (w : World) :
  ∃ attempts,
    handleNotificationAction id kind opts button w
    = (with_delivered (delivered w ++ attempts) w, Normal tt)
    ∧ attempts.*1 = tabs w
    ∧ ∀ attempt, attempt ∈ attempts → attempt.2 = NotificationAction id kind opts button.
Proof.
  exists (fan_out (NotificationAction id kind opts button) (tabs w)).
  split; [apply handleNotificationAction_state|]. unfold fan_out. split.
  - rewrite <- list_fmap_compose. apply list_fmap_id.
  - intros attempt [tab [-> _]]%list_elem_of_fmap. done.
Qed.

Lemma clearNotification_frame (id : string) (w : World) :
  delivered (clearNotification P id w).1 = delivered w
  ∧ tabs (clearNotification P id w).1 = tabs w
  ∧ clock (clearNotification P id w).1 = clock w.
Proof.
  unfold clearNotification, chrome_notifications_clear. js_unfold.
  by destruct (notifications_clear_fails P id).
Qed.

Lemma onClicked_world (id : string) (w : World) :
  onClicked P id w
  = ((clearNotification P id
        (with_delivered (delivered w ++ click_deliveries id w)
           (logged [info ("[Notification Clicked] " +:+ id)] w))).1, Normal tt).
Proof.
  unfold onClicked, click_deliveries, logged, info.
  set (w0 := with_console _ w).
  assert (Hreg : activeNotifications w0 = activeNotifications w) by done.
  unfold mbind, JS_bind, console_log, modify, gets. fold w0. rewrite Hreg.
  pose proof (clearNotification_fulfilled P id) as Hful.
  destruct (JsMap.get id (activeNotifications w)) as [n|]; [destruct (has_clickAction n)|].
  - rewrite handleNotificationAction_state.
    specialize (Hful (with_delivered (delivered w0 ++
       fan_out (NotificationAction id "click" (options n) None) (tabs w0)) w0)).
    destruct (clearNotification P id _) as [w2 r]. simpl in Hful. by subst r.
  - unfold mret, JS_ret. rewrite app_nil_r.
    change (delivered w) with (delivered w0). rewrite with_delivered_id.
    specialize (Hful w0). destruct (clearNotification P id w0) as [w2 r].
    simpl in Hful. by subst r.
  - unfold mret, JS_ret. rewrite app_nil_r.
    change (delivered w) with (delivered w0). rewrite with_delivered_id.
    specialize (Hful w0). destruct (clearNotification P id w0) as [w2 r].
    simpl in Hful. by subst r.
Qed.

Lemma onButtonClicked_world (id : string) (button : Z) (w : World) :
  onButtonClicked P id button w
  = ((clearNotification P id
        (with_delivered (delivered w ++ button_deliveries id button w)
           (logged [info ("[Notification Button Clicked] " +:+ id +:+ ", button: "
                          +:+ pretty button)] w))).1, Normal tt).
Proof.
  unfold onButtonClicked, button_deliveries, logged, info.
  set (w0 := with_console _ w).
  assert (Hreg : activeNotifications w0 = activeNotifications w) by done.
  unfold mbind, JS_bind, console_log, modify, gets. fold w0. rewrite Hreg.
  pose proof (clearNotification_fulfilled P id) as Hful.
  destruct (JsMap.get id (activeNotifications w)) as [n|].
  - rewrite handleNotificationAction_state.
    specialize (Hful (with_delivered (delivered w0 ++
       fan_out (NotificationAction id "button" (options n) (Some button)) (tabs w0)) w0)).
    destruct (clearNotification P id _) as [w2 r]. simpl in Hful. by subst r.
  - unfold mret, JS_ret. rewrite app_nil_r.
    change (delivered w) with (delivered w0). rewrite with_delivered_id.
    specialize (Hful w0). destruct (clearNotification P id w0) as [w2 r].
    simpl in Hful. by subst r.
Qed.

Lemma clearNotification_others (id id' : string) (w : World) :
  id' ≠ id →
  JsMap.get id' (activeNotifications (clearNotification P id w).1)
  = JsMap.get id' (activeNotifications w).
Proof.
  intros Hne. rewrite clearNotification_registry.
  destruct (notifications_clear_fails P id); [done|]. by apply get_delete_ne.
Qed.

(** X2: a click on a notification never throws out of the listener.  It
    sends the click message to every open tab when the id has a record
    with a truthy [clickAction], and to no tab otherwise; it leaves every
    other record alone; and when the platform's clear call succeeds the
    clicked id has no record and no platform notification afterwards. *)
Theorem click_fans_out_then_clears (id : string) (w : World) :
  (onClicked P id w).2 = Normal tt
  ∧ delivered (onClicked P id w).1 = delivered w ++ click_deliveries id w
  ∧ (notifications_clear_fails P id = None →
     JsMap.get id (activeNotifications (onClicked P id w).1) = None
     ∧ shown (onClicked P id w).1 !! id = None)
  ∧ (∀ id', id' ≠ id →
       JsMap.get id' (activeNotifications (onClicked P id w).1)
       = JsMap.get id' (activeNotifications w)).
Proof.
  rewrite onClicked_world. simpl. split; [done|]. split; [|split].
  - by rewrite (proj1 (clearNotification_frame _ _)).
  - intros Hok. rewrite clearNotification_registry, clearNotification_shown, Hok.
    split; [apply get_delete_eq | apply lookup_delete_eq].
  - intros id' Hne. by rewrite clearNotification_others.
Qed.

(** X3: a click on a notification button sends the button message, with
    the button index, to every open tab whenever the id has a record,
    whether or not it has a [clickAction], and to no tab when it has
    none; then it clears the notification like a click does. *)
Theorem button_click_fans_out_then_clears (id : string) (button : Z) (w : World) :
  (onButtonClicked P id button w).2 = Normal tt
  ∧ delivered (onButtonClicked P id button w).1
    = delivered w ++ button_deliveries id button w
  ∧ (notifications_clear_fails P id = None →
     JsMap.get id (activeNotifications (onButtonClicked P id button w).1) = None
     ∧ shown (onButtonClicked P id button w).1 !! id = None)
  ∧ (∀ id', id' ≠ id →
       JsMap.get id' (activeNotifications (onButtonClicked P id button w).1)
       = JsMap.get id' (activeNotifications w)).
Proof.
  rewrite onButtonClicked_world. simpl. split; [done|]. split; [|split].
  - by rewrite (proj1 (clearNotification_frame _ _)).
  - intros Hok. rewrite clearNotification_registry, clearNotification_shown, Hok.
    split; [apply get_delete_eq | apply lookup_delete_eq].
  - intros id' Hne. by rewrite clearNotification_others.
Qed.

Lemma showNotification_state (id : string) (opts : JsObject) (w : World) :
  let full := spread {["type" := VStr "basic"]} (spread default_notification_options opts) in
  let w' := (showNotification P id opts w).1 in
  clock w' = clock w
  ∧ match notifications_create_fails P id full with
    | Some _ => activeNotifications w' = activeNotifications w ∧ shown w' = shown w
    | None =>
        activeNotifications w'
        = JsMap.set id {| createdAt := clock w; updatedAt := None;
                          options := spread default_notification_options opts |}
            (activeNotifications w)
        ∧ shown w' = <[id := full]> (shown w)
    end.
Proof.
  unfold showNotification, chrome_notifications_create. js_unfold.
  by destruct (notifications_create_fails P id _).
Qed.

Lemma updateNotification_state (id : string) (opts : JsObject) (w : World) :
  let w' := (updateNotification P id opts w).1 in
  (updateNotification P id opts w).2 = Normal Fulfilled
  ∧ match JsMap.get id (activeNotifications w) with
    | None => activeNotifications w' = activeNotifications w ∧ shown w' = shown w
    | Some cur =>
        match notifications_update_fails P id (spread (options cur) opts) with
        | Some _ => activeNotifications w' = activeNotifications w ∧ shown w' = shown w
        | None =>
            activeNotifications w'
            = JsMap.set id {| createdAt := createdAt cur; updatedAt := Some (clock w);
                              options := spread (options cur) opts |}
                (activeNotifications w)
            ∧ shown w' = alter (λ old, spread old (spread (options cur) opts)) id (shown w)
        end
    end.
Proof.
  unfold updateNotification, chrome_notifications_update. js_unfold. simpl.
  destruct (JsMap.get id (activeNotifications w)) as [cur|]; [|done].
  by destruct (notifications_update_fails P id _).
Qed.

Lemma keys_set (k : string) (v : NotificationRecord) (m : list (string * NotificationRecord)) :
  JsMap.keys (JsMap.set k v m)
  = if JsMap.has k m then JsMap.keys m else JsMap.keys m ++ [k].
Proof.
  unfold JsMap.has, JsMap.keys. induction m as [|[k' v'] m IH]; [done|].
  cbn [JsMap.set JsMap.get].
  destruct (decide (k = k')) as [->|Hne]; [done|].
  rewrite !fmap_cons, IH. by destruct (JsMap.get k m).
Qed.

(** X4: [updateNotification] never rejects and never adds, removes or
    reorders a registry entry.  For a tracked id whose platform update
    succeeds the record keeps its creation time, gets the time of the
    update, and its options are the old ones overridden by the new ones;
    when the platform update fails the registry is unchanged.  No other
    id's record changes. *)
Theorem update_merges_in_place (id : string) (opts : JsObject) (w : World) :
  (updateNotification P id opts w).2 = Normal Fulfilled
  ∧ JsMap.keys (activeNotifications (updateNotification P id opts w).1)
    = JsMap.keys (activeNotifications w)
  ∧ (∀ cur, JsMap.get id (activeNotifications w) = Some cur →
       match notifications_update_fails P id (spread (options cur) opts) with
       | None =>
           JsMap.get id (activeNotifications (updateNotification P id opts w).1)
           = Some {| createdAt := createdAt cur; updatedAt := Some (clock w);
                     options := spread (options cur) opts |}
       | Some _ =>
           activeNotifications (updateNotification P id opts w).1 = activeNotifications w
       end)
  ∧ (∀ id', id' ≠ id →
       JsMap.get id' (activeNotifications (updateNotification P id opts w).1)
       = JsMap.get id' (activeNotifications w)).
Proof.
  destruct (updateNotification_state id opts w) as [Hful Hst].
  split; [exact Hful|].
  destruct (JsMap.get id (activeNotifications w)) as [cur|] eqn:Hget.
  - destruct (notifications_update_fails P id (spread (options cur) opts)) eqn:Hu.
    + destruct Hst as [-> _]. split; [done|]. split; [|done].
      intros cur' [= <-]. by rewrite Hu.
    + destruct Hst as [-> _]. split; [|split].
      * rewrite keys_set. unfold JsMap.has. by rewrite Hget.
      * intros cur' [= <-]. rewrite Hu. apply get_set_eq.
      * intros id' Hne. by apply get_set_ne.
  - destruct Hst as [-> _]. split; [done|]. split; [|done]. intros cur' [=].
Qed.

Lemma get_set_is_Some (k k' : string) (v : NotificationRecord)
    (m : list (string * NotificationRecord)) :
  is_Some (JsMap.get k' (JsMap.set k v m)) → k' = k ∨ is_Some (JsMap.get k' m).
Proof.
  destruct (decide (k' = k)) as [->|Hne]; [by left|].
  rewrite get_set_ne by done. by right.
Qed.

Lemma get_delete_is_Some (k k' : string) (m : list (string * NotificationRecord)) :
  is_Some (JsMap.get k' (JsMap.delete k m)) → k' ≠ k ∧ is_Some (JsMap.get k' m).
Proof.
  destruct (decide (k' = k)) as [->|Hne].
  - rewrite get_delete_eq. by intros [? [=]].
  - rewrite get_delete_ne by done. done.
Qed.

Lemma registered_shown_show (id : string) (opts : JsObject) (w : World) :
  registered_shown w → registered_shown (showNotification P id opts w).1.
Proof.
  intros Hinv id'. destruct (showNotification_state id opts w) as [_ Hst].
  simpl in Hst. destruct (notifications_create_fails P id _).
  - destruct Hst as [-> ->]. apply Hinv.
  - destruct Hst as [-> ->]. intros [->|Hin]%get_set_is_Some.
    + by rewrite lookup_insert_eq.
    + destruct (decide (id' = id)) as [->|Hne]; [by rewrite lookup_insert_eq|].
      rewrite lookup_insert_ne by done. by apply Hinv.
Qed.

Lemma registered_shown_update (id : string) (opts : JsObject) (w : World) :
  registered_shown w → registered_shown (updateNotification P id opts w).1.
Proof.
  intros Hinv id'. destruct (updateNotification_state id opts w) as [_ Hst].
  simpl in Hst. destruct (JsMap.get id (activeNotifications w)) as [cur|] eqn:Hget.
  - destruct (notifications_update_fails P id _).
    + destruct Hst as [-> ->]. apply Hinv.
    + destruct Hst as [-> ->]. intros Hin. rewrite lookup_alter_is_Some.
      apply Hinv. apply get_set_is_Some in Hin as [->|Hin]; [by rewrite Hget|done].
  - destruct Hst as [-> ->]. apply Hinv.
Qed.

Lemma registered_shown_clear (id : string) (w : World) :
  registered_shown w → registered_shown (clearNotification P id w).1.
Proof.
  intros Hinv id'. rewrite clearNotification_registry, clearNotification_shown.
  destruct (notifications_clear_fails P id); [apply Hinv|].
  intros [Hne Hin]%get_delete_is_Some. rewrite lookup_delete_ne by done. by apply Hinv.
Qed.

Lemma registered_shown_frame (w w' : World) :
  activeNotifications w' = activeNotifications w → shown w' = shown w →
  registered_shown w → registered_shown w'.
Proof. intros Hr Hs Hinv id. rewrite Hr, Hs. apply Hinv. Qed.

Lemma onClosed_state (id : string) (byUser : bool) (w : World) :
  (onClosed id byUser w).2 = Normal tt
  ∧ activeNotifications (onClosed id byUser w).1 = JsMap.delete id (activeNotifications w)
  ∧ shown (onClosed id byUser w).1 = shown w
  ∧ delivered (onClosed id byUser w).1 = delivered w.
Proof. done. Qed.

(** X5: whatever the platform answers, [showNotification],
    [updateNotification], [clearNotification] and the click, button and
    close listeners keep the registry within the platform: if every
    tracked id is shown on the platform before, so it is after. *)
Theorem registry_within_platform (w : World) :
  registered_shown w →
  (∀ id opts, registered_shown (showNotification P id opts w).1)
  ∧ (∀ id opts, registered_shown (updateNotification P id opts w).1)
  ∧ (∀ id, registered_shown (clearNotification P id w).1)
  ∧ (∀ id, registered_shown (onClicked P id w).1)
  ∧ (∀ id button, registered_shown (onButtonClicked P id button w).1)
  ∧ (∀ id byUser, registered_shown (onClosed id byUser w).1).
Proof.
  intros Hinv. repeat split.
  - intros. by apply registered_shown_show.
  - intros. by apply registered_shown_update.
  - intros. by apply registered_shown_clear.
  - intros id. rewrite onClicked_world. simpl. apply registered_shown_clear.
    by apply (registered_shown_frame w).
  - intros id button. rewrite onButtonClicked_world. simpl. apply registered_shown_clear.
    by apply (registered_shown_frame w).
  - intros id byUser id'. destruct (onClosed_state id byUser w) as (_ & -> & -> & _).
    intros [_ Hin]%get_delete_is_Some. by apply Hinv.
Qed.

Lemma get_keys_is_Some (k : string) (m : list (string * NotificationRecord)) :
  k ∈ JsMap.keys m → is_Some (JsMap.get k m).
Proof.
  intros Hin. destruct (JsMap.get k m) eqn:E; [done|].
  by apply get_keys in E.
Qed.

Lemma clearAll_stopped (w : World) (done_ids : list string) (id : string)
    (rest : list string) (e : string) :
  JsMap.keys (activeNotifications w) = done_ids ++ id :: rest →
  Forall (λ id, notifications_clear_fails P id = None) done_ids →
  notifications_clear_fails P id = Some e →
  activeNotifications (clearAllNotifications P w).1 = activeNotifications w
  ∧ shown (clearAllNotifications P w).1 = swept done_ids (shown w).
Proof.
  intros Hkeys Hall Hbad. unfold clearAllNotifications. js_unfold.
  by rewrite Hkeys, (sweep_stops P _ _ _ _ _ Hall Hbad).
Qed.

(** X6: when the sweep of [clearAllNotifications] stops at a failing id
    after it has cleared at least one, the registry is left ahead of the
    platform: the first id is still tracked although its platform
    notification is gone. *)
Theorem partial_sweep_leaves_stale_records (w : World)
    (first : string) (done_ids : list string) (id : string) (rest : list string)
    (e : string) :
  JsMap.keys (activeNotifications w) = first :: done_ids ++ id :: rest →
  Forall (λ id, notifications_clear_fails P id = None) (first :: done_ids) →
  notifications_clear_fails P id = Some e →
  is_Some (JsMap.get first (activeNotifications (clearAllNotifications P w).1))
  ∧ shown (clearAllNotifications P w).1 !! first = None
  ∧ ¬ registered_shown (clearAllNotifications P w).1.
Proof.
  intros Hkeys Hall Hbad.
  destruct (clearAll_stopped w (first :: done_ids) id rest e Hkeys Hall Hbad)
    as (Hreg & Hshown).
  assert (Hin : is_Some (JsMap.get first (activeNotifications (clearAllNotifications P w).1))).
  { rewrite Hreg. apply get_keys_is_Some. rewrite Hkeys. left. }
  assert (Hgone : shown (clearAllNotifications P w).1 !! first = None).
  { rewrite Hshown, swept_lookup. rewrite decide_True; [done | left]. }
  split; [done|]. split; [done|].
  intros Hinv. specialize (Hinv first Hin). rewrite Hgone in Hinv. by destruct Hinv.
Qed.

(** X7: when the platform accepts it, [showNotification] of an id that
    is already tracked replaces the record in place (its creation time is
    reset, no second entry appears); of a new id it appends one entry.
    Other records are untouched, and the count [getServiceWorkerStatus]
    reports afterwards is the old count, plus one for a new id only. *)
Theorem show_again_replaces (id : string) (opts : JsObject) (w : World) :
  notifications_create_fails P id
    (spread {["type" := VStr "basic"]} (spread default_notification_options opts)) = None →
  let w' := (showNotification P id opts w).1 in
  JsMap.keys (activeNotifications w')
  = (if JsMap.has id (activeNotifications w)
     then JsMap.keys (activeNotifications w)
     else JsMap.keys (activeNotifications w) ++ [id])
  ∧ JsMap.get id (activeNotifications w')
    = Some {| createdAt := clock w; updatedAt := None;
              options := spread default_notification_options opts |}
  ∧ (∀ id', id' ≠ id →
       JsMap.get id' (activeNotifications w') = JsMap.get id' (activeNotifications w))
  ∧ (∀ st, (getServiceWorkerStatus P w').2 = Normal st →
       ws_activeNotifications st
       = if JsMap.has id (activeNotifications w)
         then length (activeNotifications w)
         else S (length (activeNotifications w))).
Proof.
  intros Hok w'. destruct (showNotification_state id opts w) as [_ Hst].
  simpl in Hst. rewrite Hok in Hst. destruct Hst as [Hreg _]. subst w'.
  split; [by rewrite Hreg, keys_set|]. split; [rewrite Hreg; apply get_set_eq|].
  split; [intros id' Hne; rewrite Hreg; by apply get_set_ne|].
  intros st. unfold getServiceWorkerStatus, chrome_runtime_getManifest_version.
  js_unfold. simpl. destruct (manifest_version P); [|done]. simpl. intros [= <-]. simpl.
  rewrite Hreg. rewrite <- (length_fmap fst (JsMap.set _ _ _)).
  change (fst <$> JsMap.set id
            {| createdAt := clock w; updatedAt := None;
               options := spread default_notification_options opts |}
            (activeNotifications w))
    with (JsMap.keys (JsMap.set id
            {| createdAt := clock w; updatedAt := None;
               options := spread default_notification_options opts |}
            (activeNotifications w))).
  rewrite keys_set. unfold JsMap.keys.
  destruct (JsMap.has id (activeNotifications w)).
  - by rewrite length_fmap.
  - rewrite length_app, length_fmap. simpl. lia.
Qed.

(** [GET_ACTIVE_NOTIFICATIONS] is answered before the listener returns,
    with the registry as it is. *)
Lemma active_notifications_reply (request : Request) (w : World) :
  r_action request = "GET_ACTIVE_NOTIFICATIONS" →
  onMessage P (Some request) w
  = (with_sent (sent w ++ [{| success := true; error := None;
                               payload := Notifications (activeNotifications w) |}])
       (received w request), Normal ReturnedUndefined).
Proof.
  intros E. unfold onMessage, onRequest.
  rewrite (decide_False (P := r_action request = "SHOW_NOTIFICATION")) by (by rewrite E).
  rewrite (decide_False (P := r_action request = "UPDATE_NOTIFICATION")) by (by rewrite E).
  rewrite (decide_False (P := r_action request = "CLEAR_NOTIFICATION")) by (by rewrite E).
  rewrite (decide_False (P := r_action request = "CLEAR_ALL_NOTIFICATIONS")) by (by rewrite E).
  rewrite (decide_True (P := r_action request = "GET_ACTIVE_NOTIFICATIONS")) by done.
  reflexivity.
Qed.

(** X8: starting from an empty registry, after [showNotification] of two
    different ids and [clearNotification] of the first (platform calls
    succeeding), [GET_ACTIVE_NOTIFICATIONS] is answered at once with
    exactly the second record, carrying the defaults overridden by its
    own options. *)
Theorem remaining_notification_listed (a b : string) (oa ob : JsObject)
    (request : Request) (w : World) :
  a ≠ b →
  activeNotifications w = [] →
  (∀ o, notifications_create_fails P a o = None) →
  (∀ o, notifications_create_fails P b o = None) →
  notifications_clear_fails P a = None →
  r_action request = "GET_ACTIVE_NOTIFICATIONS" →
  let w3 := (clearNotification P a
               (showNotification P b ob (showNotification P a oa w).1).1).1 in
  (onMessage P (Some request) w3).2 = Normal ReturnedUndefined
  ∧ sent (onMessage P (Some request) w3).1
    = sent w3 ++
      [{| success := true; error := None;
          payload := Notifications
            [(b, {| createdAt := clock w; updatedAt := None;
                    options := spread default_notification_options ob |})] |}].
Proof.
  intros Hne Hempty Ha Hb Hc Hact w3.
  assert (Hreg : activeNotifications w3
    = [(b, {| createdAt := clock w; updatedAt := None;
              options := spread default_notification_options ob |})]).
  { subst w3. rewrite clearNotification_registry, Hc.
    destruct (showNotification_state a oa w) as [Hclock Hst1]. simpl in Hst1.
    rewrite Ha in Hst1. destruct Hst1 as [Hr1 _].
    destruct (showNotification_state b ob (showNotification P a oa w).1) as [_ Hst2].
    simpl in Hst2. rewrite Hb in Hst2. destruct Hst2 as [Hr2 _].
    rewrite Hr2, Hr1, Hempty, Hclock. simpl.
    rewrite (decide_False (P := b = a)) by done. simpl.
    rewrite decide_True by done. by rewrite decide_False. }
  rewrite (active_notifications_reply request w3 Hact). simpl. by rewrite Hreg.
Qed.

End more_registry.

(** X2, at a concrete input: two tabs are open and "n1" has a click
    action. *)
Lemma click_fans_out_then_clears_witness :
  notifications_clear_fails reliable "n1" = None
  ∧ "other" ≠ "n1"
  ∧ delivered (onClicked reliable "n1" clickable).1
    = fan_out (NotificationAction "n1" "click"
                 (spread default_notification_options
                    {["clickAction" := VStr "open-portal"]}) None) [7%nat; 9%nat]
  ∧ JsMap.get "n1" (activeNotifications (onClicked reliable "n1" clickable).1) = None
  ∧ JsMap.get "other" (activeNotifications (onClicked reliable "n1" clickable).1)
    = JsMap.get "other" (activeNotifications clickable).
Proof.
  assert (Hne : "other" ≠ "n1") by discriminate.
  destruct (click_fans_out_then_clears reliable "n1" clickable)
    as (_ & Hdel & Hclear & Hother).
  split; [reflexivity|]. split; [exact Hne|]. split; [exact Hdel|].
  split; [exact (proj1 (Hclear eq_refl)) | exact (Hother "other" Hne)].
Defined.

(** X3, at a concrete input: button 1 of "n1". *)
Lemma button_click_fans_out_then_clears_witness :
  notifications_clear_fails reliable "n1" = None
  ∧ "other" ≠ "n1"
  ∧ delivered (onButtonClicked reliable "n1" 1 clickable).1
    = fan_out (NotificationAction "n1" "button"
                 (spread default_notification_options
                    {["clickAction" := VStr "open-portal"]}) (Some 1)) [7%nat; 9%nat]
  ∧ shown (onButtonClicked reliable "n1" 1 clickable).1 !! "n1" = None
  ∧ JsMap.get "other" (activeNotifications (onButtonClicked reliable "n1" 1 clickable).1)
    = JsMap.get "other" (activeNotifications clickable).
Proof.
  assert (Hne : "other" ≠ "n1") by discriminate.
  destruct (button_click_fans_out_then_clears reliable "n1" 1 clickable)
    as (_ & Hdel & Hclear & Hother).
  split; [reflexivity|]. split; [exact Hne|]. split; [exact Hdel|].
  split; [exact (proj2 (Hclear eq_refl)) | exact (Hother "other" Hne)].
Defined.

(** X4, at a concrete input: "a" of the two shown notifications gets a
    title. *)
Lemma update_merges_in_place_witness :
  JsMap.get "a" (activeNotifications two_shown)
  = Some {| createdAt := 0; updatedAt := None; options := default_notification_options |}
  ∧ "b" ≠ "a"
  ∧ JsMap.keys (activeNotifications
      (updateNotification reliable "a" {["title" := VStr "Synced"]} two_shown).1)
    = ["a"; "b"]
  ∧ JsMap.get "a" (activeNotifications
      (updateNotification reliable "a" {["title" := VStr "Synced"]} two_shown).1)
    = Some {| createdAt := 0; updatedAt := Some 0;
              options := spread default_notification_options {["title" := VStr "Synced"]} |}
  ∧ JsMap.get "b" (activeNotifications
      (updateNotification reliable "a" {["title" := VStr "Synced"]} two_shown).1)
    = JsMap.get "b" (activeNotifications two_shown).
Proof.
  assert (Hget : JsMap.get "a" (activeNotifications two_shown)
    = Some {| createdAt := 0; updatedAt := None; options := default_notification_options |})
    by (vm_compute; reflexivity).
  assert (Hne : "b" ≠ "a") by discriminate.
  destruct (update_merges_in_place reliable "a" {["title" := VStr "Synced"]} two_shown)
    as (_ & Hkeys & Hrec & Hother).
  split; [exact Hget|]. split; [exact Hne|]. split; [exact Hkeys|].
  split; [exact (Hrec _ Hget) | exact (Hother "b" Hne)].
Defined.

(** X5, at a concrete input: the two shown notifications, then "a"
    closed by the user. *)
Lemma registry_within_platform_witness :
  registered_shown two_shown
  ∧ registered_shown (onClosed "a" true two_shown).1
  ∧ registered_shown (clearNotification (clear_rejects ["a"]) "a" two_shown).1.
Proof.
  assert (Hinv : registered_shown two_shown).
  { intros id Hin.
    destruct (decide (id = "a")) as [->|Ha]; [by eexists|].
    destruct (decide (id = "b")) as [->|Hb]; [by eexists|].
    exfalso. revert Hin. unfold two_shown.
    rewrite (proj1 (proj2 (showNotification_state reliable "b" ∅ _))).
    rewrite get_set_ne by done.
    rewrite (proj1 (proj2 (showNotification_state reliable "a" ∅ _))).
    rewrite get_set_ne by done. by intros [? [=]]. }
  split; [exact Hinv|]. split.
  - exact (proj2 (proj2 (proj2 (proj2 (proj2
             (registry_within_platform reliable two_shown Hinv))))) "a" true).
  - exact (proj1 (proj2 (proj2
             (registry_within_platform (clear_rejects ["a"]) two_shown Hinv))) "a").
Defined.

(** X6, at a concrete input: the clear call of "b" fails after "a" was
    cleared. *)
Lemma partial_sweep_leaves_stale_records_witness :
  JsMap.keys (activeNotifications two_shown) = "a" :: [] ++ "b" :: []
  ∧ Forall (λ id, notifications_clear_fails (clear_rejects ["b"]) id = None) ["a"]
  ∧ notifications_clear_fails (clear_rejects ["b"]) "b"
    = Some "The notification could not be cleared."
  ∧ shown (clearAllNotifications (clear_rejects ["b"]) two_shown).1 !! "a" = None
  ∧ ¬ registered_shown (clearAllNotifications (clear_rejects ["b"]) two_shown).1.
Proof.
  assert (Hall : Forall (λ id, notifications_clear_fails (clear_rejects ["b"]) id = None)
                        ["a"]) by (repeat constructor).
  destruct (partial_sweep_leaves_stale_records (clear_rejects ["b"]) two_shown
              "a" [] "b" [] "The notification could not be cleared."
              eq_refl Hall eq_refl) as (_ & Hgone & Hbroken).
  split; [reflexivity|]. split; [exact Hall|]. split; [reflexivity|].
  split; [exact Hgone | exact Hbroken].
Defined.

(** X7, at a concrete input: "a" is shown again, with a title. *)
Lemma show_again_replaces_witness :
  notifications_create_fails reliable "a"
    (spread {["type" := VStr "basic"]}
       (spread default_notification_options {["title" := VStr "Again"]})) = None
  ∧ JsMap.keys (activeNotifications
      (showNotification reliable "a" {["title" := VStr "Again"]} two_shown).1)
    = ["a"; "b"]
  ∧ ∀ st, (getServiceWorkerStatus reliable
             (showNotification reliable "a" {["title" := VStr "Again"]} two_shown).1).2
          = Normal st → ws_activeNotifications st = 2%nat.
Proof.
  destruct (show_again_replaces reliable "a" {["title" := VStr "Again"]} two_shown eq_refl)
    as (Hkeys & _ & _ & Hcount).
  split; [reflexivity|]. split; [exact Hkeys | exact Hcount].
Defined.

(** X8, at a concrete input: "a" and "b" shown, "a" cleared. *)
Lemma remaining_notification_listed_witness :
  "a" ≠ "b"
  ∧ activeNotifications (fresh_world 0) = []
  ∧ r_action list_request = "GET_ACTIVE_NOTIFICATIONS"
  ∧ sent (onMessage reliable (Some list_request)
            (clearNotification reliable "a" two_shown).1).1
    = [{| success := true; error := None;
          payload := Notifications
            [("b", {| createdAt := 0; updatedAt := None;
                      options := default_notification_options |})] |}].
Proof.
  assert (Hne : "a" ≠ "b") by discriminate.
  split; [exact Hne|]. split; [reflexivity|]. split; [reflexivity|].
  exact (proj2 (remaining_notification_listed reliable "a" "b" ∅ ∅ list_request
                  (fresh_world 0) Hne eq_refl (λ _, eq_refl) (λ _, eq_refl)
                  eq_refl eq_refl)).
Defined.

(** * More on the task scheduler *)

Section more_scheduler.
Context (P : Platform).

Lemma tracked_fresh (now : Z) : tracked (fresh_world now).
Proof. split; intros h tm Hh; simpl in Hh; by rewrite lookup_empty in Hh. Qed.

(** A call that runs to completion keeps every live timer named by its
    task's record. *)
Lemma tracked_schedule (t : Task) (w : World) :
  tracked w → tracked (scheduleBackgroundTask P (Some t) w).1.
Proof.
  intros Htr. rewrite scheduleBackgroundTask_spec.
  destruct (executeTask_fields P (t_id t) (t_action t) (task_data t)
              (cancelled (t_id t) (announced t w))) as (Hs & Ht & Hn).
  assert (Hexec : tracked (executeTask P (t_id t) (t_action t) (task_data t)
                             (cancelled (t_id t) (announced t w))).1).
  { apply (tracked_sched (cancelled (t_id t) (announced t w))).
    - unfold sched. by rewrite Hs, Ht, Hn.
    - apply tracked_cancelled. by apply (tracked_sched w). }
  unfold scheduled. destruct (is_pending _); cbn [fst]; [done|].
  apply tracked_armed; [done|]. rewrite Hs. apply cancelled_lookup.
Qed.

Lemma cancelScheduledTask_state (id : string) (w : World) :
  cancelScheduledTask id w
  = match scheduledTasks w !! id with
    | Some _ => (logged [info ("[Task Cancelled] " +:+ id)] (cancelled id w), Normal true)
    | None => (w, Normal false)
    end.
Proof.
  unfold cancelScheduledTask, cancelled, clearInterval, logged, info. js_unfold.
  by destruct (scheduledTasks w !! id).
Qed.

Lemma timers_of_cancelled (id : string) (w : World) :
  tracked w → timers_of id (cancelled id w) = ∅.
Proof.
  intros [Htr _]. apply map_empty. intros h. unfold timers_of.
  apply map_lookup_filter_None. right. intros tm Htm Hid. simpl in Hid.
  unfold cancelled in Htm. destruct (scheduledTasks w !! id) as [r|] eqn:E.
  - simpl in Htm. apply lookup_delete_Some in Htm as [Hne Htm].
    destruct (Htr _ _ Htm) as (r' & Hr' & Hh). rewrite Hid, E in Hr'. by simplify_eq.
  - destruct (Htr _ _ Htm) as (r' & Hr' & Hh). rewrite Hid, E in Hr'. done.
Qed.

Lemma tracked_logged (lines : list LogEntry) (w : World) :
  tracked w → tracked (logged lines w).
Proof. done. Qed.

(** X9: [cancelScheduledTask] returns [true] exactly when the id had a
    record.  Afterwards the id has no record, every other record is as
    before, only the handle the record named is cleared (a later firing of
    it does nothing), and a second cancel returns [false] and changes
    nothing.  When every live timer is the one its task's record names,
    no live timer bound to the id is left. *)
Theorem cancel_stops_the_task (id : string) (w : World) :
  let out := cancelScheduledTask id w in
  out.2 = Normal (if scheduledTasks w !! id is Some _ then true else false)
  ∧ scheduledTasks out.1 !! id = None
  ∧ (∀ id', id' ≠ id → scheduledTasks out.1 !! id' = scheduledTasks w !! id')
  ∧ (∀ r, scheduledTasks w !! id = Some r →
       timers out.1 = delete (intervalId r) (timers w)
       ∧ tick P (intervalId r) out.1 = (out.1, Normal tt))
  ∧ cancelScheduledTask id out.1 = (out.1, Normal false)
  ∧ (tracked w → timers_of id out.1 = ∅).
Proof.
  intros out. subst out. rewrite cancelScheduledTask_state.
  destruct (scheduledTasks w !! id) as [r|] eqn:E; simpl.
  - assert (Hnone : scheduledTasks (cancelled id w) !! id = None) by apply cancelled_lookup.
    split; [done|]. split; [done|]. split; [|split; [|split]].
    + intros id' Hne. unfold cancelled. rewrite E. simpl. by apply lookup_delete_ne.
    + intros r' [= <-]. unfold cancelled. rewrite E. simpl. split; [done|].
      unfold tick, mbind, JS_bind, gets. simpl. by rewrite lookup_delete_eq.
    + rewrite cancelScheduledTask_state. simpl. by rewrite Hnone.
    + intros Htr. by apply timers_of_cancelled.
  - split; [done|]. split; [done|]. split; [done|]. split; [done|].
    split; [by rewrite cancelScheduledTask_state, E|].
    intros Htr. pose proof (timers_of_cancelled id w Htr) as H.
    unfold cancelled in H. by rewrite E in H.
Qed.

(** X10: in a state where every live timer is the one its task's record
    names, scheduling a recurring task, once the call has returned, and
    cancelling it is a round trip on the scheduler: the cancel returns
    [true], the id has no record and no live timer, and the timers are
    those from before the call minus the one the id's earlier record
    named. *)
Theorem schedule_then_cancel (t : Task) (i : Z) (w : World) :
  t_interval t = Some i → 0 < i → tracked w →
  (scheduleBackgroundTask P (Some t) w).2 = Normal Fulfilled →
  let w1 := (scheduleBackgroundTask P (Some t) w).1 in
  (cancelScheduledTask (t_id t) w1).2 = Normal true
  ∧ scheduledTasks (cancelScheduledTask (t_id t) w1).1 = delete (t_id t) (scheduledTasks w)
  ∧ timers (cancelScheduledTask (t_id t) w1).1
    = match scheduledTasks w !! t_id t with
      | Some r => delete (intervalId r) (timers w)
      | None => timers w
      end
  ∧ timers_of (t_id t) (cancelScheduledTask (t_id t) w1).1 = ∅.
Proof.
  intros Hi Hpos Htr Hdone w1.
  destruct (executeTask_fields P (t_id t) (t_action t) (task_data t)
              (cancelled (t_id t) (announced t w))) as (Hs & Ht & Hn).
  set (w0 := (executeTask P (t_id t) (t_action t) (task_data t)
                (cancelled (t_id t) (announced t w))).1) in *.
  assert (Hw1 : w1 = armed (t_id t) (t_action t) i (task_data t) w0).
  { subst w1. rewrite scheduleBackgroundTask_spec in Hdone |- *. unfold scheduled in *.
    destruct (is_pending _); [discriminate Hdone|]. cbn [fst].
    unfold task_interval. by rewrite Hi. }
  assert (Htr0 : tracked w0).
  { apply (tracked_sched (cancelled (t_id t) (announced t w))).
    - unfold sched. by rewrite Hs, Ht, Hn.
    - apply tracked_cancelled. by apply (tracked_sched w). }
  assert (Hfree : scheduledTasks w0 !! t_id t = None).
  { rewrite Hs. apply cancelled_lookup. }
  assert (Hfresh : timers w0 !! nextTimer w0 = None).
  { destruct (timers w0 !! nextTimer w0) as [tm|] eqn:E; [|done].
    destruct Htr0 as [_ Hb]. specialize (Hb _ _ E). lia. }
  assert (Htr1 : tracked w1) by (rewrite Hw1; by apply tracked_armed).
  rewrite cancelScheduledTask_state.
  assert (Hrec : scheduledTasks w1 !! t_id t
    = Some {| action := t_action t; interval := i; data := task_data t;
              intervalId := nextTimer w0 |}).
  { rewrite Hw1. unfold armed. rewrite (proj2 (Z.ltb_lt 0 i) Hpos). simpl.
    apply lookup_insert_eq. }
  rewrite Hrec. simpl. split; [done|].
  assert (Hc : cancelled (t_id t) w1
    = with_scheduledTasks (delete (t_id t) (scheduledTasks w1))
        (with_timers (delete (nextTimer w0) (timers w1)) (nextTimer w1) w1)).
  { unfold cancelled. by rewrite Hrec. }
  split; [|split].
  - rewrite Hc. simpl. rewrite Hw1. unfold armed.
    rewrite (proj2 (Z.ltb_lt 0 i) Hpos). simpl. rewrite delete_insert_eq, Hs.
    unfold cancelled. simpl.
    destruct (scheduledTasks w !! t_id t); simpl; [|done].
    by rewrite delete_delete_eq.
  - rewrite Hc. simpl. rewrite Hw1. unfold armed.
    rewrite (proj2 (Z.ltb_lt 0 i) Hpos). simpl. rewrite delete_insert_eq.
    rewrite delete_id by done. rewrite Ht. unfold cancelled. simpl.
    by destruct (scheduledTasks w !! t_id t).
  - by apply timers_of_cancelled.
Qed.

(** X11: an action name outside the four [performBackgroundTask]
    dispatches on is not an error: the promise is fulfilled and the state
    differs from the input by two console lines only, the second a
    warning; executing such a task, as the timer does, leaves the same
    state. *)
Theorem unknown_task_action_only_warns (id act : string) (d : TaskData) (w : World) :
  act ∉ task_actions →
  performBackgroundTask P id act d w
  = (logged [info ("[Task Executing] " +:+ id +:+ " - " +:+ act);
             warning ("[Task] Unknown action: " +:+ act)] w, Normal Fulfilled)
  ∧ (executeTask P id act d w).1
    = logged [info ("[Task Executing] " +:+ id +:+ " - " +:+ act);
              warning ("[Task] Unknown action: " +:+ act)] w.
Proof.
  intros Hun.
  assert (Hne : ∀ a, a ∈ task_actions → act ≠ a) by (intros a Ha ->; done).
  assert (Hp : performBackgroundTask P id act d w
    = (logged [info ("[Task Executing] " +:+ id +:+ " - " +:+ act);
               warning ("[Task] Unknown action: " +:+ act)] w, Normal Fulfilled)).
  { unfold performBackgroundTask.
    rewrite (decide_False (P := act = "SYNC_DATA"))
      by (apply Hne, list_elem_of_In; simpl; tauto).
    rewrite (decide_False (P := act = "CHECK_STATUS"))
      by (apply Hne, list_elem_of_In; simpl; tauto).
    rewrite (decide_False (P := act = "CLEANUP_CACHE"))
      by (apply Hne, list_elem_of_In; simpl; tauto).
    rewrite (decide_False (P := act = "REFRESH_TOKEN"))
      by (apply Hne, list_elem_of_In; simpl; tauto).
    unfold logged, info, warning. js_unfold. simpl.
    by rewrite <- app_assoc. }
  split; [exact Hp|].
  unfold executeTask, async, try_catch, mbind, JS_bind. by rewrite Hp.
Qed.

Lemma syncData_state (d : TaskData) (w : World) :
  syncData P d w
  = match storage_fault P with
    | Some e => (w, Normal (Rejected e))
    | None =>
        (with_set_calls
           (set_calls w ++
              [{["flexPortalData" :=
                   merge_portal_data (store w !! "flexPortalData") d (clock w)]}])
           (with_store
              (<["flexPortalData" :=
                   merge_portal_data (store w !! "flexPortalData") d (clock w)]> (store w))
              w), Normal Fulfilled)
    end.
Proof.
  unfold syncData, chrome_storage_local_get, chrome_storage_local_set. js_unfold.
  destruct (storage_fault P); [done|]. simpl.
  by rewrite insert_union_singleton_l.
Qed.

(** The own properties of a string are its characters, each under its
    index. *)
Lemma characters_from_lookup (s : string) (i : nat) (k : string) (v : JsVal) :
  characters_from i s !! k = Some v
  ↔ ∃ j c, k = pretty (i + j)%nat ∧ String.get j s = Some c
           ∧ v = VStr (String c EmptyString).
Proof.
  revert i. induction s as [|c s IH]; intros i; simpl.
  - rewrite lookup_empty. split; [done | by intros (j & c & _ & [=] & _)].
  - rewrite lookup_insert_Some, IH. split.
    + intros [[<- <-]|[Hne (j & c' & -> & Hget & ->)]].
      * exists 0%nat, c. by rewrite Nat.add_0_r.
      * exists (S j), c'. split; [f_equal; lia | done].
    + intros ([|j] & c' & -> & Hget & ->).
      * left. simpl in Hget. injection Hget as <-. by rewrite Nat.add_0_r.
      * right. split.
        -- intros Heq%(inj pretty). lia.
        -- exists j, c'. split; [f_equal; lia | done].
Qed.

(** X12: [syncData] rejects with the storage error, changing nothing,
    when storage cannot be read.  Otherwise it is fulfilled after exactly
    one [set] call, for the [flexPortalData] key only, and no other key
    changes.  The object stored has [lastSync] set to the current instant
    (a [lastSync] in the payload or in the old value is overridden); for
    every other property, [maxAge] and [timestamp] included, the payload
    wins over the old value.  The old value contributes its properties
    when it is an object, its characters, each under its index, when it
    is a string, and nothing otherwise. *)
Theorem syncData_merges_one_key (d : TaskData) (w : World) :
  match storage_fault P with
  | Some e => syncData P d w = (w, Normal (Rejected e))
  | None =>
      (syncData P d w).2 = Normal Fulfilled
      ∧ (∀ k, k ≠ "flexPortalData" → store (syncData P d w).1 !! k = store w !! k)
      ∧ ∃ o,
          store (syncData P d w).1 !! "flexPortalData" = Some (SObj o)
          ∧ set_calls (syncData P d w).1 = set_calls w ++ [{["flexPortalData" := SObj o]}]
          ∧ other o !! "lastSync" = Some (VIso (clock w))
          ∧ (∀ k v, k ≠ "lastSync" → other d !! k = Some v → other o !! k = Some v)
          ∧ (∀ m, maxAge d = Some m → maxAge o = Some m)
          ∧ (∀ t, timestamp d = Some t → timestamp o = Some t)
          ∧ (∀ old, store w !! "flexPortalData" = Some (SObj old) →
               (maxAge d = None → maxAge o = maxAge old)
               ∧ (timestamp d = None → timestamp o = timestamp old)
               ∧ (∀ k, k ≠ "lastSync" → other d !! k = None →
                       other o !! k = other old !! k))
          ∧ (∀ s, store w !! "flexPortalData" = Some (SStr s) →
               maxAge o = maxAge d ∧ timestamp o = timestamp d
               ∧ (∀ k v, k ≠ "lastSync" → other d !! k = None →
                    (other o !! k = Some v
                     ↔ ∃ j c, k = pretty j ∧ String.get j s = Some c
                              ∧ v = VStr (String c EmptyString))))
          ∧ ((∀ old, store w !! "flexPortalData" ≠ Some (SObj old)) →
             (∀ s, store w !! "flexPortalData" ≠ Some (SStr s)) →
             maxAge o = maxAge d ∧ timestamp o = timestamp d
             ∧ (∀ k, k ≠ "lastSync" → other o !! k = other d !! k))
  end.
Proof.
  rewrite syncData_state. destruct (storage_fault P); [done|]. cbn [fst snd].
  split; [done|]. split.
  { intros k Hk. cbn. by rewrite lookup_insert_ne. }
  unfold merge_portal_data.
  exists (with_lastSync (clock w) (spread_data (own_properties (store w !! "flexPortalData")) d)).
  split; [cbn; apply lookup_insert_eq|]. split; [done|].
  split; [cbn; apply lookup_insert_eq|].
  split.
  { intros k v Hk Hv. cbn. rewrite lookup_insert_ne by done.
    by apply lookup_union_Some_l. }
  split; [by intros m; cbn; intros ->|]. split; [by intros t; cbn; intros ->|].
  split; [|split].
  - intros old ->. cbn. split; [by intros ->|]. split; [by intros ->|].
    intros k Hk Hd. rewrite lookup_insert_ne by done. by rewrite lookup_union_r.
  - intros s0 ->. cbn. split; [by destruct (maxAge d)|]. split; [by destruct (timestamp d)|].
    intros k v Hk Hd. rewrite lookup_insert_ne by done. rewrite lookup_union_r by done.
    by rewrite characters_from_lookup.
  - intros Hobj Hstr.
    assert (own_properties (store w !! "flexPortalData") = empty_data) as ->.
    { destruct (store w !! "flexPortalData") as [[| | |s0|o0]|]; try done.
      - by destruct (Hstr s0).
      - by destruct (Hobj o0). }
    cbn. split; [by destruct (maxAge d)|]. split; [by destruct (timestamp d)|].
    intros k Hk. rewrite lookup_insert_ne by done. by rewrite (right_id_L ∅ (∪)).
Qed.

Lemma refreshAuthToken_state (d : TaskData) (w : World) :
  refreshAuthToken P d w
  = match storage_fault P with
    | Some e => (w, Normal (Rejected e))
    | None =>
        if stored_truthy (store w !! "authToken")
        then (logged [info "[Background Task] Token refresh initiated"]
                (with_delivered (delivered w ++ fan_out RefreshToken (tabs w)) w),
              Normal Fulfilled)
        else (w, Normal Fulfilled)
    end.
Proof.
  unfold refreshAuthToken, chrome_storage_local_get.
  unfold async_adopt, try_catch, new_promise, async. unfold mbind at 1. unfold JS_bind at 1.
  destruct (storage_fault P); [done|].
  destruct (stored_truthy (store w !! "authToken")); [|done].
  unfold mbind, JS_bind. rewrite broadcast_reaches_every_tab. done.
Qed.

(** X13: [refreshAuthToken] never writes to storage.  When storage cannot
    be read it rejects with the storage error and logs nothing, the
    [catch] of the function being bypassed; otherwise it is fulfilled, and
    asks every open tab to refresh exactly when a truthy [authToken] is
    stored (an empty string counts as absent). *)
Theorem refresh_token_needs_a_token (d : TaskData) (w : World) :
  store (refreshAuthToken P d w).1 = store w
  ∧ match storage_fault P with
    | Some e =>
        (refreshAuthToken P d w).2 = Normal (Rejected e)
        ∧ delivered (refreshAuthToken P d w).1 = delivered w
        ∧ console (refreshAuthToken P d w).1 = console w
    | None =>
        (refreshAuthToken P d w).2 = Normal Fulfilled
        ∧ delivered (refreshAuthToken P d w).1
          = delivered w ++
            (if stored_truthy (store w !! "authToken")
             then fan_out RefreshToken (tabs w) else [])
    end.
Proof.
  rewrite refreshAuthToken_state. destruct (storage_fault P); [done|].
  destruct (stored_truthy (store w !! "authToken")); simpl; [done|].
  by rewrite app_nil_r.
Qed.

(** [checkPortalStatus] never rejects: it makes one delivery attempt of
    the status check per open tab and logs. *)
Lemma status_check_reaches_every_tab (d : TaskData) (w : World) :
  checkPortalStatus d w
  = (logged [info "[Background Task] Portal status checked"]
       (with_delivered (delivered w ++ fan_out (CheckStatus d) (tabs w)) w),
     Normal Fulfilled).
Proof.
  unfold checkPortalStatus, async, try_catch, mbind, JS_bind.
  by rewrite broadcast_reaches_every_tab.
Qed.

Lemma stale_keys_expired now m (s : gmap string StoredValue) k :
  k ∈ stale_keys now m s ↔ ∃ v, s !! k = Some v ∧ is_expired now m v = true.
Proof.
  unfold stale_keys. rewrite list_elem_of_fmap. split.
  - intros ([k' v] & -> & Hin). apply list_elem_of_filter in Hin as [He Hin].
    apply elem_of_map_to_list in Hin. by exists v.
  - intros (v & Hk & Ho). exists (k, v). split; [done|].
    apply list_elem_of_filter. split; [done | by apply elem_of_map_to_list].
Qed.

Lemma cleaned_lookup now m (s : gmap string StoredValue) k :
  foldr delete s (stale_keys now m s) !! k
  = match s !! k with
    | Some v => if is_expired now m v then None else Some v
    | None => None
    end.
Proof.
  destruct (s !! k) as [v|] eqn:E.
  - destruct (is_expired now m v) eqn:He.
    + apply lookup_foldr_delete, stale_keys_expired. eauto.
    + rewrite lookup_foldr_delete_not_elem_of; [done|].
      rewrite stale_keys_expired. intros (v' & Hv' & Ho). simplify_eq. congruence.
  - rewrite lookup_foldr_delete_not_elem_of; [done|].
    rewrite stale_keys_expired. intros (v' & Hv' & Ho). by simplify_eq.
Qed.

Lemma no_null_cleaned now m (s : gmap string StoredValue) :
  no_null s → no_null (foldr delete s (stale_keys now m s)).
Proof.
  intros Hn k Hk. rewrite cleaned_lookup in Hk. destruct (s !! k) as [v|] eqn:E; [|done].
  destruct (is_expired now m v); [done|]. injection Hk as ->. by apply (Hn k).
Qed.

(** X14: when storage can be read and holds no [null], [cleanupCache]
    never adds or alters an entry, never removes a value that is not an
    object (a token, a setting), an object without [timestamp] or an
    object whose [timestamp] is 0, and a second run at the same instant
    removes nothing more. *)
Theorem cleanup_only_drops_outdated (d : TaskData) (w : World) :
  storage_fault P = None → no_null (store w) →
  let s1 := store (cleanupCache P d w).1 in
  (∀ k v, s1 !! k = Some v → store w !! k = Some v)
  ∧ (∀ k v, store w !! k = Some v → (∀ o, v ≠ SObj o) → s1 !! k = Some v)
  ∧ (∀ k o, store w !! k = Some (SObj o) → timestamp o = None → s1 !! k = Some (SObj o))
  ∧ (∀ k o, store w !! k = Some (SObj o) → timestamp o = Some 0 → s1 !! k = Some (SObj o))
  ∧ store (cleanupCache P d (cleanupCache P d w).1).1 = s1.
Proof.
  intros Hok Hnn s1.
  pose proof (cleanupCache_state P d w Hok Hnn) as Hst. cbn zeta in Hst.
  assert (Hs1 : s1 = foldr delete (store w)
                       (stale_keys (clock w) (effective_maxAge d) (store w)))
    by (subst s1; by rewrite Hst).
  assert (Hclock : clock (cleanupCache P d w).1 = clock w) by by rewrite Hst.
  assert (Hlook : ∀ k, s1 !! k
    = match store w !! k with
      | Some v => if is_expired (clock w) (effective_maxAge d) v then None else Some v
      | None => None
      end) by (intros k; rewrite Hs1; apply cleaned_lookup).
  split; [|split; [|split; [|split]]].
  - intros k v. rewrite Hlook. destruct (store w !! k) as [v0|]; [|done].
    by destruct (is_expired _ _ v0).
  - intros k v Hk Hv. rewrite Hlook, Hk.
    destruct v as [| | | |o]; try done. by destruct (Hv o).
  - intros k o Hk Hts. rewrite Hlook, Hk. cbn. by rewrite Hts.
  - intros k o Hk Hts. rewrite Hlook, Hk. cbn. by rewrite Hts.
  - assert (Hnn1 : no_null (store (cleanupCache P d w).1)).
    { fold s1. rewrite Hs1. by apply no_null_cleaned. }
    pose proof (cleanupCache_state P d (cleanupCache P d w).1 Hok Hnn1) as Hst2.
    cbn zeta in Hst2. rewrite Hst2. cbn [fst]. unfold logged. cbn [store with_console with_store].
    fold s1. rewrite Hclock. apply map_eq. intros k. rewrite cleaned_lookup, Hlook.
    destruct (store w !! k) as [v|]; [|done].
    by destruct (is_expired (clock w) (effective_maxAge d) v) eqn:He; [|rewrite He].
Qed.

(** X29: with a [null] in storage that can be read, [cleanupCache]
    removes nothing, not even an entry that is out of date, logs nothing
    and never settles; so a [CLEANUP_CACHE] task that is scheduled then
    is executed once, without effect, and never armed or recorded, and
    the promise of the scheduling call never settles either. *)
Theorem stored_null_blocks_the_cleanup (t : Task) (k : string) (w : World) :
  storage_fault P = None → store w !! k = Some SNull →
  t_action t = "CLEANUP_CACHE" →
  cleanupCache P (task_data t) w = (w, Normal Pending)
  ∧ (scheduleBackgroundTask P (Some t) w).2 = Normal Pending
  ∧ store (scheduleBackgroundTask P (Some t) w).1 = store w
  ∧ scheduledTasks (scheduleBackgroundTask P (Some t) w).1 !! t_id t = None
  ∧ timers (scheduleBackgroundTask P (Some t) w).1
    = timers (cancelled (t_id t) w)
  ∧ (∀ h tm, timers w !! h = Some tm → tm_action tm = "CLEANUP_CACHE" →
       (tick P h w).2 = Normal tt ∧ store (tick P h w).1 = store w).
Proof.
  intros Hok Hk Hact.
  split; [by apply (cleanupCache_null P _ _ k)|].
  destruct (cancelled_announced_store t w) as (Hstore & _ & _).
  assert (Hk1 : store (cancelled (t_id t) (announced t w)) !! k = Some SNull)
    by by rewrite Hstore.
  rewrite scheduleBackgroundTask_spec, Hact.
  rewrite (executeTask_cleanup_null P _ _ _ k Hok Hk1). unfold scheduled. cbn.
  split; [done|]. split; [done|]. split; [apply cancelled_lookup|]. split.
  - unfold cancelled, announced. cbn. by destruct (scheduledTasks w !! t_id t).
  - intros h tm Htm Htma. split; [apply tick_returns|].
    rewrite (tick_world P _ _ _ Htm), Htma.
    by rewrite (executeTask_cleanup_null P _ _ _ k Hok Hk).
Qed.

Lemma onAlarm_sched (name : string) : preserves sched (onAlarm P name).
Proof.
  unfold onAlarm. frame; apply performBackgroundTask_sched.
Qed.

(** X15: the alarm listener of the service worker never throws and never
    touches the interval timers or the task records.  [PERIODIC_SYNC]
    leaves storage as [syncData] with an empty payload does;
    [PERIODIC_CHECK] sends the status check to every open tab; any other
    alarm only logs a warning.  The promise of the task is dropped: a
    [PERIODIC_SYNC] that cannot read storage logs the task's own error
    line and the listener's [Alarm Handler Error] line is not written. *)
Theorem alarms_run_tasks_directly (name : string) (w : World) :
  (onAlarm P name w).2 = Normal tt
  ∧ sched (onAlarm P name w).1 = sched w
  ∧ (name = "PERIODIC_SYNC" →
     store (onAlarm P name w).1 = store (syncData P empty_data w).1
     ∧ set_calls (onAlarm P name w).1 = set_calls (syncData P empty_data w).1)
  ∧ (name = "PERIODIC_CHECK" →
     delivered (onAlarm P name w).1
     = delivered w ++ fan_out (CheckStatus empty_data) (tabs w))
  ∧ (name ≠ "PERIODIC_SYNC" → name ≠ "PERIODIC_CHECK" →
     onAlarm P name w
     = (logged [info ("[Alarm Triggered] " +:+ name);
                warning ("[Alarm] Unknown alarm: " +:+ name)] w, Normal tt))
  ∧ (∀ e, name = "PERIODIC_SYNC" → storage_fault P = Some e →
     console (onAlarm P name w).1
     = console w ++ [info "[Alarm Triggered] PERIODIC_SYNC";
                     info "[Task Executing] periodic-sync - SYNC_DATA";
                     failure "[Task Execution Error] periodic-sync:" e]).
Proof.
  split; [|split; [apply onAlarm_sched|]].
  - unfold onAlarm, try_catch, mbind, JS_bind, console_log, modify.
    destruct (decide (name = "PERIODIC_SYNC")); [|destruct (decide (name = "PERIODIC_CHECK"))].
    + destruct (performBackgroundTask_returns P "periodic-sync" "SYNC_DATA" empty_data
                  (with_console (console w ++ [{| level := Info;
                     text := "[Alarm Triggered] " +:+ name; cause := None |}]) w))
        as [p Hp].
      destruct (performBackgroundTask P _ _ _ _) as [w' r]. simpl in Hp. by subst r.
    + destruct (performBackgroundTask_returns P "periodic-check" "CHECK_STATUS" empty_data
                  (with_console (console w ++ [{| level := Info;
                     text := "[Alarm Triggered] " +:+ name; cause := None |}]) w))
        as [p Hp].
      destruct (performBackgroundTask P _ _ _ _) as [w' r]. simpl in Hp. by subst r.
    + done.
  - split; [|split; [|split]].
    + intros ->. unfold onAlarm, performBackgroundTask.
      rewrite (decide_True (P := "PERIODIC_SYNC" = "PERIODIC_SYNC")) by done.
      rewrite (decide_True (P := "SYNC_DATA" = "SYNC_DATA")) by done.
      unfold try_catch, async. unfold mbind, JS_bind, console_log, modify.
      rewrite !syncData_state. by destruct (storage_fault P).
    + intros ->. unfold onAlarm, performBackgroundTask.
      rewrite (decide_False (P := "PERIODIC_CHECK" = "PERIODIC_SYNC")) by done.
      rewrite (decide_True (P := "PERIODIC_CHECK" = "PERIODIC_CHECK")) by done.
      rewrite (decide_False (P := "CHECK_STATUS" = "SYNC_DATA")) by done.
      rewrite (decide_True (P := "CHECK_STATUS" = "CHECK_STATUS")) by done.
      unfold try_catch, async. unfold mbind, JS_bind, console_log, modify.
      rewrite status_check_reaches_every_tab. done.
    + intros N1 N2. unfold onAlarm.
      rewrite (decide_False (P := name = "PERIODIC_SYNC")) by done.
      rewrite (decide_False (P := name = "PERIODIC_CHECK")) by done.
      unfold logged, info, warning. js_unfold. simpl. by rewrite <- app_assoc.
    + intros e -> Hbad. unfold onAlarm, performBackgroundTask.
      rewrite (decide_True (P := "PERIODIC_SYNC" = "PERIODIC_SYNC")) by done.
      rewrite (decide_True (P := "SYNC_DATA" = "SYNC_DATA")) by done.
      unfold try_catch, async. unfold mbind, JS_bind, console_log, modify.
      rewrite syncData_state, Hbad. simpl. by rewrite <- !app_assoc.
Qed.

End more_scheduler.

(** X9, at a concrete input: the running synchronisation task is
    cancelled. *)
Lemma cancel_stops_the_task_witness :
  tracked syncing
  ∧ "daily-cleanup" ≠ "auto-sync"
  ∧ (cancelScheduledTask "auto-sync" syncing).2 = Normal true
  ∧ timers (cancelScheduledTask "auto-sync" syncing).1 = delete 0%nat (timers syncing)
  ∧ scheduledTasks (cancelScheduledTask "auto-sync" syncing).1 !! "daily-cleanup"
    = scheduledTasks syncing !! "daily-cleanup"
  ∧ timers_of "auto-sync" (cancelScheduledTask "auto-sync" syncing).1 = ∅.
Proof.
  assert (Htr : tracked syncing) by (apply tracked_schedule, tracked_fresh).
  assert (Hne : "daily-cleanup" ≠ "auto-sync") by discriminate.
  assert (Hrec : scheduledTasks syncing !! "auto-sync"
    = Some {| action := "SYNC_DATA"; interval := 300000; data := empty_data;
              intervalId := 0%nat |}) by (vm_compute; reflexivity).
  destruct (cancel_stops_the_task reliable "auto-sync" syncing)
    as (Hret & _ & Hother & Htimer & _ & Hnone).
  split; [exact Htr|]. split; [exact Hne|].
  split; [rewrite Hret, Hrec; reflexivity|].
  split; [exact (proj1 (Htimer _ Hrec))|].
  split; [exact (Hother _ Hne) | exact (Hnone Htr)].
Defined.

(** X10, at a concrete input: the synchronisation task is scheduled in a
    fresh service worker and cancelled. *)
Lemma schedule_then_cancel_witness :
  t_interval sync_task = Some 300000
  ∧ 0 < 300000
  ∧ tracked (fresh_world 0)
  ∧ (scheduleBackgroundTask reliable (Some sync_task) (fresh_world 0)).2 = Normal Fulfilled
  ∧ (cancelScheduledTask "auto-sync"
       (scheduleBackgroundTask reliable (Some sync_task) (fresh_world 0)).1).2 = Normal true
  ∧ timers (cancelScheduledTask "auto-sync"
       (scheduleBackgroundTask reliable (Some sync_task) (fresh_world 0)).1).1 = ∅.
Proof.
  destruct (schedule_then_cancel reliable sync_task 300000 (fresh_world 0)
              eq_refl eq_refl (tracked_fresh 0) eq_refl) as (Hret & _ & Htimers & _).
  split; [reflexivity|]. split; [reflexivity|]. split; [apply tracked_fresh|].
  split; [reflexivity|]. split; [exact Hret | exact Htimers].
Defined.

(** X11, at a concrete input: an action of a later version. *)
Lemma unknown_task_action_only_warns_witness :
  ("BACKUP" ∉ task_actions)
  ∧ performBackgroundTask reliable "nightly" "BACKUP" empty_data (fresh_world 0)
    = (logged [info "[Task Executing] nightly - BACKUP";
               warning "[Task] Unknown action: BACKUP"] (fresh_world 0), Normal Fulfilled).
Proof.
  assert (Hun : "BACKUP" ∉ task_actions).
  { intros H. apply list_elem_of_In in H. simpl in H. intuition discriminate. }
  split; [exact Hun|].
  exact (proj1 (unknown_task_action_only_warns reliable "nightly" "BACKUP" empty_data
                  (fresh_world 0) Hun)).
Defined.

(** X12, at concrete inputs: a first synchronisation with a payload, next
    to a stored object; and a synchronisation over a string left under
    the key, with a payload that carries a [timestamp]. *)
Lemma syncData_merges_one_key_witness :
  "k" ≠ "flexPortalData"
  ∧ store (syncData reliable (max_age 5) (cache_world 1000)).1 !! "k"
    = Some (SObj (stamped 1000))
  ∧ store (syncData reliable (max_age 5) (cache_world 1000)).1 !! "flexPortalData"
    = Some (SObj {| maxAge := Some 5; timestamp := None;
                    other := {["lastSync" := VIso 5000]}; other_plain := I |})
  ∧ store legacy_data !! "flexPortalData" = Some (SStr "ok")
  ∧ store (syncData reliable (stamped 7) legacy_data).1 !! "flexPortalData"
    = Some (SObj {| maxAge := None; timestamp := Some 7;
                    other := <["0" := VStr "o"]>
                               (<["1" := VStr "k"]> {["lastSync" := VIso 5000]});
                    other_plain := I |}).
Proof.
  assert (Hne : "k" ≠ "flexPortalData") by discriminate.
  pose proof (syncData_merges_one_key reliable (max_age 5) (cache_world 1000)) as H.
  change (storage_fault reliable) with (@None string) in H.
  destruct H as (_ & Hother & _).
  split; [exact Hne|]. split; [exact (Hother "k" Hne)|].
  split; [vm_compute; reflexivity|]. split; [reflexivity|].
  vm_compute. reflexivity.
Defined.

(** X14, at a concrete input: the stored object is stamped 0, and
    stays. *)
Lemma cleanup_only_drops_outdated_witness :
  storage_fault reliable = None
  ∧ no_null (store (cache_world 0))
  ∧ store (cache_world 0) !! "k" = Some (SObj (stamped 0))
  ∧ store (cleanupCache reliable (max_age 1000) (cache_world 0)).1 !! "k"
    = Some (SObj (stamped 0)).
Proof.
  assert (Hnn : no_null (store (cache_world 0))).
  { intros k. cbn. destruct (decide (k = "k")) as [->|Hne].
    - by rewrite lookup_singleton_eq.
    - by rewrite lookup_singleton_ne. }
  destruct (cleanup_only_drops_outdated reliable (max_age 1000) (cache_world 0) eq_refl Hnn)
    as (_ & _ & _ & Hzero & _).
  split; [reflexivity|]. split; [exact Hnn|]. split; [reflexivity|].
  exact (Hzero "k" (stamped 0) eq_refl eq_refl).
Defined.

(** X29, at a concrete input: the daily clean-up with [null] stored under
    one key. *)
Lemma stored_null_blocks_the_cleanup_witness :
  storage_fault reliable = None
  ∧ store null_stored !! "nickname" = Some SNull
  ∧ t_action (cleanup_task 604800000) = "CLEANUP_CACHE"
  ∧ (scheduleBackgroundTask reliable (Some (cleanup_task 604800000)) null_stored).2
    = Normal Pending
  ∧ timers (scheduleBackgroundTask reliable (Some (cleanup_task 604800000)) null_stored).1
    = ∅.
Proof.
  destruct (stored_null_blocks_the_cleanup reliable (cleanup_task 604800000) "nickname"
              null_stored eq_refl eq_refl eq_refl) as (_ & Hp & _ & _ & Ht & _).
  do 3 (split; [reflexivity|]). split; [exact Hp|]. rewrite Ht. reflexivity.
Defined.

(** X15, at concrete inputs: a periodic sync, and an alarm the listener
    does not know. *)
Lemma alarms_run_tasks_directly_witness :
  store (onAlarm reliable "PERIODIC_SYNC" (fresh_world 7)).1 !! "flexPortalData"
  = Some (SObj {| maxAge := None; timestamp := None;
                  other := {["lastSync" := VIso 7]}; other_plain := I |})
  ∧ "autoRefresh" ≠ "PERIODIC_SYNC"
  ∧ "autoRefresh" ≠ "PERIODIC_CHECK"
  ∧ onAlarm reliable "autoRefresh" (fresh_world 7)
    = (logged [info "[Alarm Triggered] autoRefresh";
               warning "[Alarm] Unknown alarm: autoRefresh"] (fresh_world 7), Normal tt).
Proof.
  assert (N1 : "autoRefresh" ≠ "PERIODIC_SYNC") by discriminate.
  assert (N2 : "autoRefresh" ≠ "PERIODIC_CHECK") by discriminate.
  destruct (alarms_run_tasks_directly reliable "PERIODIC_SYNC" (fresh_world 7))
    as (_ & _ & Hsync & _).
  destruct (alarms_run_tasks_directly reliable "autoRefresh" (fresh_world 7))
    as (_ & _ & _ & _ & Hunknown & _).
  split; [rewrite (proj1 (Hsync eq_refl)); vm_compute; reflexivity|].
  split; [exact N1|]. split; [exact N2 | exact (Hunknown N1 N2)].
Defined.

(** * The portal script's handlers *)

Section portal.
Context (P : Platform) (N : Portal.Net).

Ltac portal_unfold :=
  unfold Portal.lift, Portal.respond, Portal.notify_tabs, Portal.storage_set,
    Portal.storage_remove, chrome_storage_local_get, chrome_storage_local_remove,
    mbind, mret, Portal.M_bind, Portal.M_ret, JS_bind, JS_ret, modify, gets in *.

Lemma save_state (d : gmap string StoredValue) (s : Portal.State) :
  d ≠ ∅ →
  Portal.handleSaveUserSettings N (Some d) s
  = match Portal.set_error N with
    | Some e =>
        ({| Portal.base := with_set_calls (set_calls (Portal.base s) ++ [d]) (Portal.base s);
            Portal.notices := Portal.notices s;
            Portal.replies := Portal.replies s ++ [Portal.Failed e] |}, Normal tt)
    | None =>
        ({| Portal.base := with_set_calls (set_calls (Portal.base s) ++ [d])
                             (with_store (d ∪ store (Portal.base s)) (Portal.base s));
            Portal.notices := Portal.notices s;
            Portal.replies := Portal.replies s
                              ++ [Portal.Succeeded "Settings saved successfully"] |},
         Normal tt)
    end.
Proof.
  intros Hne. unfold Portal.handleSaveUserSettings. rewrite decide_False by done.
  portal_unfold. by destruct (Portal.set_error N).
Qed.

Lemma get_state (s : Portal.State) :
  storage_fault P = None →
  Portal.handleGetUserSettings P N s
  = ({| Portal.base := Portal.base s; Portal.notices := Portal.notices s;
        Portal.replies := Portal.replies s ++
          [match Portal.get_error N with
           | Some e => Portal.Failed e
           | None => Portal.Items (store (Portal.base s))
           end] |}, Normal tt).
Proof.
  intros Hok. unfold Portal.handleGetUserSettings. portal_unfold. rewrite Hok.
  destruct s as [w n r]. simpl. by destruct (Portal.get_error N).
Qed.

(** X16: a save of a non-empty settings object that succeeds replies
    success once, and a [getUserSettings] after it hands back every saved
    key with the saved value and every other key as it was stored
    before. *)
Theorem saved_settings_are_read_back (d : gmap string StoredValue) (s : Portal.State) :
  d ≠ ∅ → Portal.set_error N = None → Portal.get_error N = None →
  storage_fault P = None →
  let s1 := (Portal.handleSaveUserSettings N (Some d) s).1 in
  Portal.replies s1 = Portal.replies s ++ [Portal.Succeeded "Settings saved successfully"]
  ∧ ∃ items,
      Portal.replies (Portal.handleGetUserSettings P N s1).1
      = Portal.replies s1 ++ [Portal.Items items]
      ∧ (∀ k v, d !! k = Some v → items !! k = Some v)
      ∧ (∀ k, d !! k = None → items !! k = store (Portal.base s) !! k).
Proof.
  intros Hne Hset Hget Hok s1. subst s1. rewrite (save_state d s Hne), Hset. simpl.
  split; [done|]. rewrite get_state by done. rewrite Hget. simpl.
  eexists. split; [done|]. split.
  - intros k v Hk. by apply lookup_union_Some_l.
  - intros k Hk. by rewrite lookup_union_r.
Qed.

(** X17: a save that is refused (no data, an empty object) or that fails
    in storage leaves storage and the tabs alone and replies with one
    failure; a refused save does not even call storage and answers
    [No settings provided]. *)
Theorem refused_save_changes_nothing (data : option (gmap string StoredValue))
    (s : Portal.State) :
  Portal.no_settings data ∨ is_Some (Portal.set_error N) →
  let s' := (Portal.handleSaveUserSettings N data s).1 in
  store (Portal.base s') = store (Portal.base s)
  ∧ Portal.notices s' = Portal.notices s
  ∧ (∃ e, Portal.replies s' = Portal.replies s ++ [Portal.Failed e])
  ∧ (Portal.no_settings data →
     Portal.base s' = Portal.base s
     ∧ Portal.replies s' = Portal.replies s ++ [Portal.Failed "No settings provided"]).
Proof.
  intros Hwhy s'. subst s'.
  destruct data as [d|].
  - destruct (decide (d = ∅)) as [->|Hne].
    + unfold Portal.handleSaveUserSettings. rewrite decide_True by done.
      simpl. split; [done|]. split; [done|]. split; [by eexists|]. done.
    + rewrite (save_state d s Hne).
      destruct Hwhy as [Hno|[e He]]; [done|]. rewrite He. simpl.
      split; [done|]. split; [done|]. split; [by eexists|]. intros Hno. done.
  - simpl. split; [done|]. split; [done|]. split; [by eexists|]. done.
Qed.

Lemma logout_state (s : Portal.State) :
  Portal.handleLogoutUser N s
  = match Portal.remove_error N with
    | Some e =>
        ({| Portal.base := Portal.base s; Portal.notices := Portal.notices s;
            Portal.replies := Portal.replies s ++ [Portal.Failed e] |}, Normal tt)
    | None =>
        ({| Portal.base := with_store (foldr delete (store (Portal.base s)) session_keys)
                             (Portal.base s);
            Portal.notices := Portal.notices s ++
              ((λ tab, (tab, "userLoggedOut")) <$> tabs (Portal.base s));
            Portal.replies := Portal.replies s
                              ++ [Portal.Succeeded "User logged out successfully"] |},
         Normal tt)
    end.
Proof.
  unfold Portal.handleLogoutUser. portal_unfold.
  destruct (Portal.remove_error N); by destruct s.
Qed.

(** X18: a logout that succeeds leaves none of [authToken], [userData]
    and [sessionToken] in storage and every other key as it was, tells
    every open tab once and replies success; a logout that fails in
    storage changes nothing, tells no tab and replies with the error. *)
Theorem logout_drops_the_session (s : Portal.State) :
  let s' := (Portal.handleLogoutUser N s).1 in
  match Portal.remove_error N with
  | None =>
      (∀ k, k ∈ session_keys → store (Portal.base s') !! k = None)
      ∧ (∀ k, k ∉ session_keys → store (Portal.base s') !! k = store (Portal.base s) !! k)
      ∧ Portal.notices s'
        = Portal.notices s ++ ((λ tab, (tab, "userLoggedOut")) <$> tabs (Portal.base s))
      ∧ Portal.replies s'
        = Portal.replies s ++ [Portal.Succeeded "User logged out successfully"]
  | Some e =>
      Portal.base s' = Portal.base s
      ∧ Portal.notices s' = Portal.notices s
      ∧ Portal.replies s' = Portal.replies s ++ [Portal.Failed e]
  end.
Proof.
  intros s'. subst s'. rewrite logout_state.
  destruct (Portal.remove_error N); [simpl; done|].
  cbn [fst Portal.base Portal.notices Portal.replies]. unfold with_store. cbn [store].
  split; [|split; [|done]].
  - intros k Hk. by apply (lookup_foldr_delete (store (Portal.base s)) session_keys).
  - intros k Hk.
    by apply (lookup_foldr_delete_not_elem_of (store (Portal.base s)) session_keys).
Qed.

Lemma fetch_without_url (d : gmap string StoredValue) (s : Portal.State) :
  stored_truthy (d !! "url") = false →
  Portal.handleFetchPortalData P N (Some d) s
  = ({| Portal.base := Portal.base s; Portal.notices := Portal.notices s;
        Portal.replies := Portal.replies s ++ [Portal.Failed "URL is required"] |},
     Normal tt).
Proof.
  intros Hu. unfold Portal.handleFetchPortalData.
  destruct (d !! "url") as [u|]; [|done]. by rewrite Hu.
Qed.

Lemma fetch_with_url (d : gmap string StoredValue) (u : StoredValue) (s : Portal.State) :
  d !! "url" = Some u → stored_truthy (Some u) = true →
  Portal.handleFetchPortalData P N (Some d) s
  = match storage_fault P with
    | Some e => (s, Throw e)
    | None =>
        let r := Portal.fetch N u (request_method d) (bearer (store (Portal.base s))) in
        ({| Portal.base :=
              match fetch_reply r with
              | Portal.Failed e => logged [failure "Fetch error:" e] (Portal.base s)
              | _ => Portal.base s
              end;
            Portal.notices := Portal.notices s;
            Portal.replies := Portal.replies s ++ [fetch_reply r] |}, Normal tt)
    end.
Proof.
  intros Hd Hu. unfold Portal.handleFetchPortalData. rewrite Hd, Hu.
  unfold bearer, request_method, logged, failure.
  unfold Portal.lift at 1, chrome_storage_local_get, mbind at 1, Portal.M_bind at 1.
  destruct (storage_fault P); [by destruct s|]. simpl.
  destruct (Portal.fetch N u _ _) as [e|[] st [e|j]]; by destruct s.
Qed.

(** X19: [handleFetchPortalData] with a missing or falsy [url] replies
    [URL is required] without reading storage.  With a url it throws when
    storage cannot be read; otherwise it replies exactly once, never
    writes to storage, sends no token when no truthy [authToken] is
    stored, and replies success only for a response that is [ok] and
    whose body parsed. *)
Theorem fetch_replies_once (d : gmap string StoredValue) (s : Portal.State) :
  let out := Portal.handleFetchPortalData P N (Some d) s in
  (stored_truthy (d !! "url") = false →
   out = ({| Portal.base := Portal.base s; Portal.notices := Portal.notices s;
             Portal.replies := Portal.replies s ++ [Portal.Failed "URL is required"] |},
          Normal tt))
  ∧ (∀ u, d !! "url" = Some u → stored_truthy (Some u) = true →
     match storage_fault P with
     | Some e => out = (s, Throw e)
     | None =>
         out.2 = Normal tt
         ∧ store (Portal.base out.1) = store (Portal.base s)
         ∧ Portal.replies out.1
           = Portal.replies s ++
             [fetch_reply (Portal.fetch N u (request_method d)
                             (bearer (store (Portal.base s))))]
         ∧ (stored_truthy (store (Portal.base s) !! "authToken") = false →
            bearer (store (Portal.base s)) = None)
         ∧ (∀ json, fetch_reply (Portal.fetch N u (request_method d)
                                   (bearer (store (Portal.base s)))) = Portal.Fetched json →
              ∃ status, Portal.fetch N u (request_method d) (bearer (store (Portal.base s)))
                        = Portal.Responded true status (inr json))
     end).
Proof.
  intros out. subst out. split; [apply fetch_without_url|].
  intros u Hd Hu. rewrite (fetch_with_url d u s Hd Hu).
  destruct (storage_fault P); [done|]. simpl.
  split; [done|]. split; [|split; [done|split]].
  - by destruct (fetch_reply _).
  - intros Hn. unfold bearer. by rewrite Hn.
  - intros json. destruct (Portal.fetch N u _ _) as [e|[] st [e|j]]; simpl; try done.
    intros [= <-]. by eexists.
Qed.

Lemma one_more_reply (s s' : Portal.State) (r : Portal.Reply) :
  Portal.replies s' = Portal.replies s ++ [r] →
  length (Portal.replies s') = S (length (Portal.replies s)).
Proof. intros ->. rewrite length_app. simpl. lia. Qed.

Lemma listener_result (request : Portal.Request) (s : Portal.State) :
  storage_fault P = None →
  Portal.action request ≠ "fetchPortalData" ∨ is_Some (Portal.data request) →
  ∃ s' r, Portal.onMessage P N request s = (s', Normal true)
          ∧ Portal.replies s' = Portal.replies s ++ [r].
Proof.
  intros Hok Hdata. unfold Portal.onMessage.
  destruct (decide (Portal.action request = "fetchPortalData")) as [E|N1].
  { destruct Hdata as [Hn|[d Hd]]; [done|]. rewrite Hd.
    destruct (stored_truthy (d !! "url")) eqn:Hu.
    - destruct (d !! "url") as [u|] eqn:Hdu; [|done].
      pose proof (fetch_with_url d u s Hdu Hu) as Hf. rewrite Hok in Hf.
      unfold mbind, Portal.M_bind. rewrite Hf. by eexists _, _.
    - unfold mbind, Portal.M_bind. rewrite (fetch_without_url d s Hu). by eexists _, _. }
  destruct (decide (Portal.action request = "saveUserSettings")) as [E|N2].
  { destruct (Portal.data request) as [d|]; [destruct (decide (d = ∅)) as [->|Hne]|].
    - unfold Portal.handleSaveUserSettings. rewrite decide_True by done. by eexists _, _.
    - unfold mbind, Portal.M_bind. rewrite (save_state d s Hne).
      destruct (Portal.set_error N); by eexists _, _.
    - by eexists _, _. }
  destruct (decide (Portal.action request = "getUserSettings")) as [E|N3].
  { unfold mbind, Portal.M_bind. rewrite (get_state s Hok). by eexists _, _. }
  destruct (decide (Portal.action request = "logoutUser")) as [E|N4].
  { unfold mbind, Portal.M_bind. rewrite (logout_state s).
    destruct (Portal.remove_error N); by eexists _, _. }
  by eexists _, _.
Qed.

(** X20: the portal listener replies exactly once and returns [true] for
    every request, provided storage can be read and a [fetchPortalData]
    request carries data; an action outside its [switch] is answered
    [Unknown action]; and a [fetchPortalData] request without data throws
    out of the listener, which has no [try], with no reply. *)
Theorem portal_listener_replies_once (request : Portal.Request) (s : Portal.State) :
  let out := Portal.onMessage P N request s in
  (storage_fault P = None →
   Portal.action request ≠ "fetchPortalData" ∨ is_Some (Portal.data request) →
   out.2 = Normal true
   ∧ length (Portal.replies out.1) = S (length (Portal.replies s)))
  ∧ (Portal.action request ∉ portal_actions →
     out = ({| Portal.base := Portal.base s; Portal.notices := Portal.notices s;
               Portal.replies := Portal.replies s ++ [Portal.Failed "Unknown action"] |},
            Normal true))
  ∧ (Portal.action request = "fetchPortalData" → Portal.data request = None →
     out = (s, Throw Portal.destructure_error)).
Proof.
  intros out. split; [|split].
  - intros Hok Hdata. destruct (listener_result request s Hok Hdata) as (s' & r & Hout & Hr).
    subst out. rewrite Hout. simpl. split; [done|]. rewrite Hr, length_app. simpl. lia.
  - intros Hun. subst out. unfold Portal.onMessage.
    assert (Hne : ∀ a, a ∈ portal_actions → Portal.action request ≠ a)
      by (intros a Ha Heq; apply Hun; by rewrite Heq).
    rewrite (decide_False (P := Portal.action request = "fetchPortalData"))
      by (apply Hne, list_elem_of_In; simpl; tauto).
    rewrite (decide_False (P := Portal.action request = "saveUserSettings"))
      by (apply Hne, list_elem_of_In; simpl; tauto).
    rewrite (decide_False (P := Portal.action request = "getUserSettings"))
      by (apply Hne, list_elem_of_In; simpl; tauto).
    rewrite (decide_False (P := Portal.action request = "logoutUser"))
      by (apply Hne, list_elem_of_In; simpl; tauto).
    done.
  - intros E Hd. subst out. unfold Portal.onMessage.
    rewrite decide_True by done. by rewrite Hd.
Qed.

Lemma portal_alarm_state (name : string) (s : Portal.State) :
  storage_fault P = None →
  Portal.onAlarm P name s
  = ({| Portal.base := Portal.base s;
        Portal.notices := Portal.notices s ++
          (if decide (name = "autoRefresh")
           then if stored_truthy (store (Portal.base s) !! "autoRefresh")
                then (λ tab, (tab, "refreshData")) <$> tabs (Portal.base s)
                else []
           else []);
        Portal.replies := Portal.replies s |}, Normal tt).
Proof.
  intros Hok. unfold Portal.onAlarm.
  destruct (decide (name = "autoRefresh")).
  - portal_unfold. rewrite Hok. simpl.
    destruct (stored_truthy (store (Portal.base s) !! "autoRefresh")); destruct s; simpl;
      by rewrite ?app_nil_r.
  - destruct s; simpl. by rewrite app_nil_r.
Qed.

Lemma alarm_notices (s : Portal.State) :
  storage_fault P = None →
  Portal.notices (Portal.onAlarm P "autoRefresh" s).1
  = Portal.notices s ++
    (if stored_truthy (store (Portal.base s) !! "autoRefresh")
     then (λ tab, (tab, "refreshData")) <$> tabs (Portal.base s)
     else []).
Proof.
  intros Hok. rewrite portal_alarm_state by done.
  cbn [fst Portal.notices]. by rewrite decide_True.
Qed.

(** X21: after the first install the [autoRefresh] alarm tells no tab,
    the default being off, and [getUserSettings] hands back the five
    defaults; once the user has saved [autoRefresh: true] the alarm tells
    every open tab to refresh. *)
Theorem auto_refresh_follows_the_setting (w : World) :
  storage_fault P = None → Portal.set_error N = None → Portal.get_error N = None →
  let s0 := Portal.start (Persistence.deliver P w (Persistence.Installed "install")) in
  let s1 := (Portal.handleSaveUserSettings N
               (Some {["autoRefresh" := SBool true]}) s0).1 in
  Portal.notices (Portal.onAlarm P "autoRefresh" s0).1 = []
  ∧ Portal.notices (Portal.onAlarm P "autoRefresh" s1).1
    = (λ tab, (tab, "refreshData")) <$> tabs w
  ∧ ∃ items,
      Portal.replies (Portal.handleGetUserSettings P N s0).1 = [Portal.Items items]
      ∧ ∀ k v, Persistence.default_settings !! k = Some v → items !! k = Some v.
Proof.
  intros Hok Hset Hget s0 s1.
  assert (Hstore0 : store (Portal.base s0) = Persistence.default_settings ∪ store w) by done.
  assert (Htabs0 : tabs (Portal.base s0) = tabs w) by done.
  assert (Hs1 : store (Portal.base s1)
            = {["autoRefresh" := SBool true]} ∪ store (Portal.base s0)
          ∧ tabs (Portal.base s1) = tabs w ∧ Portal.notices s1 = []).
  { subst s1. rewrite save_state, Hset by (apply insert_non_empty). done. }
  destruct Hs1 as (Hstore1 & Htabs1 & Hnot1).
  split; [|split].
  - rewrite alarm_notices by done. rewrite Hstore0.
    rewrite (lookup_union_Some_l _ _ "autoRefresh" (SBool false)) by done.
    done.
  - rewrite alarm_notices by done. rewrite Hstore1, Htabs1, Hnot1.
    rewrite (lookup_union_Some_l _ _ "autoRefresh" (SBool true))
      by apply lookup_singleton_eq.
    done.
  - rewrite get_state by done. rewrite Hget. cbn [fst Portal.replies].
    rewrite Hstore0. eexists. split; [done|].
    intros k v Hk. by apply lookup_union_Some_l.
Qed.

End portal.

(** X16, at a concrete input: the theme is saved and read back. *)
Lemma saved_settings_are_read_back_witness :
  ({["theme" := SStr "dark"]} : gmap string StoredValue) ≠ ∅
  ∧ Portal.set_error calm = None
  ∧ Portal.get_error calm = None
  ∧ storage_fault reliable = None
  ∧ ∃ items,
      Portal.replies (Portal.handleGetUserSettings reliable calm
        (Portal.handleSaveUserSettings calm (Some {["theme" := SStr "dark"]})
           (Portal.start (fresh_world 0))).1).1
      = [Portal.Succeeded "Settings saved successfully"; Portal.Items items]
      ∧ items !! "theme" = Some (SStr "dark").
Proof.
  assert (Hne : ({["theme" := SStr "dark"]} : gmap string StoredValue) ≠ ∅)
    by apply insert_non_empty.
  destruct (saved_settings_are_read_back reliable calm {["theme" := SStr "dark"]}
              (Portal.start (fresh_world 0)) Hne eq_refl eq_refl eq_refl)
    as (Hsaved & items & Hread & Hkeys & _).
  split; [exact Hne|]. do 3 (split; [reflexivity|]).
  exists items. split; [by rewrite Hread, Hsaved|].
  apply Hkeys. apply lookup_singleton_eq.
Defined.

(** X17, at concrete inputs: a save without data, and a save that
    storage rejects. *)
Lemma refused_save_changes_nothing_witness :
  Portal.no_settings None
  ∧ Portal.replies (Portal.handleSaveUserSettings calm None signed_in).1
    = [Portal.Failed "No settings provided"]
  ∧ is_Some (Portal.set_error failing_storage)
  ∧ store (Portal.base (Portal.handleSaveUserSettings failing_storage
                          (Some {["theme" := SStr "light"]}) signed_in).1)
    = store (Portal.base signed_in).
Proof.
  destruct (refused_save_changes_nothing calm None signed_in (or_introl I))
    as (_ & _ & _ & Hnone).
  destruct (refused_save_changes_nothing failing_storage
              (Some {["theme" := SStr "light"]}) signed_in
              (or_intror (mk_is_Some _ _ eq_refl))) as (Hstore & _).
  split; [exact I|]. split; [exact (proj2 (Hnone I))|].
  split; [by eexists | exact Hstore].
Defined.

(** X18, at a concrete input: the signed-in user logs out. *)
Lemma logout_drops_the_session_witness :
  "authToken" ∈ session_keys
  ∧ ("theme" ∉ session_keys)
  ∧ store (Portal.base (Portal.handleLogoutUser calm signed_in).1) !! "authToken" = None
  ∧ store (Portal.base (Portal.handleLogoutUser calm signed_in).1) !! "theme"
    = Some (SStr "dark")
  ∧ Portal.notices (Portal.handleLogoutUser calm signed_in).1
    = [(7%nat, "userLoggedOut"); (9%nat, "userLoggedOut")].
Proof.
  assert (Hin : "authToken" ∈ session_keys) by (apply list_elem_of_In; simpl; tauto).
  assert (Hout : "theme" ∉ session_keys).
  { intros H. apply list_elem_of_In in H. simpl in H. intuition discriminate. }
  pose proof (logout_drops_the_session calm signed_in) as H.
  change (Portal.remove_error calm) with (@None string) in H.
  destruct H as (Hgone & Hkept & Hnotices & _).
  split; [exact Hin|]. split; [exact Hout|]. split; [exact (Hgone _ Hin)|].
  split; [rewrite (Hkept _ Hout); reflexivity | exact Hnotices].
Defined.

(** X19, at concrete inputs: a request without url, and a request the
    portal answers. *)
Lemma fetch_replies_once_witness :
  stored_truthy (({["method" := SStr "POST"]} : gmap string StoredValue) !! "url")
    = false
  ∧ Portal.replies (Portal.handleFetchPortalData storage_down calm
                      (Some {["method" := SStr "POST"]}) signed_in).1
    = [Portal.Failed "URL is required"]
  ∧ ({["url" := SStr "https://app.flexportal.com/api"]}
       : gmap string StoredValue) !! "url"
    = Some (SStr "https://app.flexportal.com/api")
  ∧ Portal.replies (Portal.handleFetchPortalData reliable calm
                      (Some {["url" := SStr "https://app.flexportal.com/api"]})
                      signed_in).1
    = [Portal.Fetched (SObj empty_data)].
Proof.
  destruct (fetch_replies_once storage_down calm {["method" := SStr "POST"]}
              signed_in) as [Hnourl _].
  destruct (fetch_replies_once reliable calm
              {["url" := SStr "https://app.flexportal.com/api"]} signed_in)
    as [_ Hurl].
  specialize (Hurl (SStr "https://app.flexportal.com/api") eq_refl eq_refl).
  change (storage_fault reliable) with (@None string) in Hurl.
  destruct Hurl as (_ & _ & Hreply & _).
  split; [reflexivity|]. split; [by rewrite (Hnourl eq_refl)|].
  split; [reflexivity | exact Hreply].
Defined.

(** X20, at concrete inputs: the popup's [formSubmit] message, and a
    [fetchPortalData] request without data. *)
Lemma portal_listener_replies_once_witness :
  ("formSubmit" ∉ portal_actions)
  ∧ Portal.onMessage reliable calm
      {| Portal.action := "formSubmit"; Portal.data := Some ∅ |} signed_in
    = ({| Portal.base := Portal.base signed_in; Portal.notices := [];
          Portal.replies := [Portal.Failed "Unknown action"] |}, Normal true)
  ∧ Portal.onMessage reliable calm
      {| Portal.action := "fetchPortalData"; Portal.data := None |} signed_in
    = (signed_in, Throw Portal.destructure_error)
  ∧ storage_fault reliable = None
  ∧ (Portal.onMessage reliable calm
       {| Portal.action := "logoutUser"; Portal.data := None |} signed_in).2 = Normal true.
Proof.
  assert (Hun : "formSubmit" ∉ portal_actions).
  { intros H. apply list_elem_of_In in H. simpl in H. intuition discriminate. }
  split; [exact Hun|].
  split; [exact (proj1 (proj2 (portal_listener_replies_once reliable calm
                   {| Portal.action := "formSubmit"; Portal.data := Some ∅ |} signed_in))
                   Hun)|].
  split; [exact (proj2 (proj2 (portal_listener_replies_once reliable calm
                   {| Portal.action := "fetchPortalData"; Portal.data := None |} signed_in))
                   eq_refl eq_refl)|].
  split; [reflexivity|].
  assert (Hne : "logoutUser" ≠ "fetchPortalData") by discriminate.
  exact (proj1 (proj1 (portal_listener_replies_once reliable calm
                   {| Portal.action := "logoutUser"; Portal.data := None |} signed_in)
                   eq_refl (or_introl Hne))).
Defined.

(** X21, at a concrete input: two tabs are open when the extension is
    installed. *)
Lemma auto_refresh_follows_the_setting_witness :
  storage_fault reliable = None
  ∧ Portal.set_error calm = None
  ∧ Portal.get_error calm = None
  ∧ Portal.notices (Portal.onAlarm reliable "autoRefresh"
      (Portal.start (Persistence.deliver reliable (open_tabs [7%nat; 9%nat] (fresh_world 0))
                       (Persistence.Installed "install")))).1 = []
  ∧ Portal.notices (Portal.onAlarm reliable "autoRefresh"
      (Portal.handleSaveUserSettings calm (Some {["autoRefresh" := SBool true]})
         (Portal.start (Persistence.deliver reliable (open_tabs [7%nat; 9%nat] (fresh_world 0))
                          (Persistence.Installed "install")))).1).1
    = [(7%nat, "refreshData"); (9%nat, "refreshData")].
Proof.
  destruct (auto_refresh_follows_the_setting reliable calm
              (open_tabs [7%nat; 9%nat] (fresh_world 0)) eq_refl eq_refl eq_refl)
    as (Hoff & Hon & _).
  do 3 (split; [reflexivity|]). split; [exact Hoff | exact Hon].
Defined.

(** * The offscreen-document script *)

Section offscreen.
Context (E : Offscreen.Env).

Lemma ensure_cases s :
  let out := Offscreen.ensureOffscreenDocument E s in
  out.2 = Fulfilled
  ∧ Offscreen.posted out.1 = Offscreen.posted s
  ∧ Offscreen.replies out.1 = Offscreen.replies s
  ∧ (Offscreen.contexts out.1 = Offscreen.contexts s
     ∨ Offscreen.offscreenCreated s = false
       ∧ Offscreen.contexts s = []
       ∧ Offscreen.createDocument_error E = None
       ∧ Offscreen.getContexts_error E = None
       ∧ Offscreen.contexts out.1 = [Offscreen.context_id E])
  ∧ (Offscreen.offscreenCreated out.1 = true →
     Offscreen.offscreenCreated s = true ∨ Offscreen.contexts out.1 ≠ []).
Proof.
  unfold Offscreen.ensureOffscreenDocument, Offscreen.createDocument.
  destruct s as [flag docs sent answers lines]; cbn.
  destruct flag; cbn; [by auto 10|].
  destruct (Offscreen.getContexts_error E) as [e|]; cbn; [by auto 10|].
  destruct docs as [|d docs]; cbn; [|by auto 10].
  destruct (Offscreen.createDocument_error E) as [e|]; cbn.
  - repeat split; auto.
  - repeat split; auto 10.
Qed.

Lemma consistent_ensure s :
  Offscreen.consistent s →
  Offscreen.consistent (Offscreen.ensureOffscreenDocument E s).1.
Proof.
  intros [Hlen Hflag].
  destruct (ensure_cases s) as (_ & _ & _ & Hdocs & Hnew).
  split.
  - destruct Hdocs as [-> | (_ & _ & _ & _ & ->)]; [done | cbn; lia].
  - intros Hset. destruct (Hnew Hset) as [Hold | Hne]; [|done].
    destruct Hdocs as [-> | (Hoff & _)]; [auto | congruence].
Qed.

Lemma handleSendEmail_frame request s :
  let s1 := (Offscreen.ensureOffscreenDocument E s).1 in
  let s' := Offscreen.handleSendEmail E request s in
  Offscreen.contexts s' = Offscreen.contexts s1
  ∧ Offscreen.offscreenCreated s' = Offscreen.offscreenCreated s1.
Proof.
  cbn zeta. unfold Offscreen.handleSendEmail; cbn zeta.
  destruct (Offscreen.getContexts_error E); [done|].
  by destruct (Offscreen.deliver E request _).
Qed.

Lemma consistent_react s e :
  Offscreen.consistent s → Offscreen.consistent (Offscreen.react E s e).
Proof.
  intros Hs. destruct e as [|act request]; unfold Offscreen.react, Offscreen.onLifecycle.
  - by apply consistent_ensure.
  - unfold Offscreen.onMessage.
    destruct (decide (act = "sendEmail")); cbn.
    + destruct (handleSendEmail_frame request s) as [Hdocs Hflag].
      pose proof (consistent_ensure s Hs) as [Hlen Himp].
      split; [by rewrite Hdocs | by rewrite Hdocs, Hflag].
    + by destruct (decide (act = "getOffscreenStatus")).
Qed.

(** The states the script reaches are [consistent]: whatever the browser
    answers and whatever events arrive, over at most one offscreen
    document to begin with, the browser never holds a second one and the
    flag is on only while a document exists. *)
Lemma offscreen_document_stays_single events docs :
  (length docs ≤ 1)%nat →
  Offscreen.consistent (Offscreen.run E events (Offscreen.loaded docs)).
Proof.
  intros Hlen.
  assert (Offscreen.consistent (Offscreen.loaded docs)) as Hstart by (split; [done | by cbn]).
  unfold Offscreen.run. revert Hstart. generalize (Offscreen.loaded docs).
  induction events as [|e events IH]; intros s Hs; cbn; [done|].
  by apply IH, consistent_react.
Qed.

Lemma handleSendEmail_reply request s :
  ∃ r, Offscreen.replies (Offscreen.handleSendEmail E request s) = Offscreen.replies s ++ [r]
       ∧ ∀ offscreenReady, r ≠ Offscreen.Ready offscreenReady.
Proof.
  destruct (ensure_cases s) as (_ & _ & Hr & _).
  unfold Offscreen.handleSendEmail; cbn zeta.
  destruct (Offscreen.getContexts_error E) as [e|]; cbn.
  - rewrite Hr. by eexists.
  - destruct (Offscreen.deliver E request _); cbn; rewrite Hr; by eexists.
Qed.

Lemma react_replies s e :
  length (Offscreen.replies (Offscreen.react E s e))
  = (length (Offscreen.replies s) + if Offscreen.answered e then 1 else 0)%nat.
Proof.
  destruct e as [|act request];
    unfold Offscreen.react, Offscreen.onLifecycle, Offscreen.answered.
  - destruct (ensure_cases s) as (_ & _ & -> & _). lia.
  - unfold Offscreen.onMessage.
    destruct (decide (act = "sendEmail")) as [->|]; cbn.
    + destruct (handleSendEmail_reply request s) as (r & -> & _).
      rewrite length_app. done.
    + rewrite bool_decide_false by done.
      destruct (decide (act = "getOffscreenStatus")) as [->|]; cbn.
      * rewrite length_app. done.
      * rewrite bool_decide_false by done. cbn. lia.
Qed.

(** X23: over any run the offscreen script calls [sendResponse] exactly
    once for each [sendEmail] or [getOffscreenStatus] message, whatever
    fails on the way, and never for another message or for a lifecycle
    event. *)
Theorem offscreen_one_reply_per_request events s :
  length (Offscreen.replies (Offscreen.run E events s))
  = (length (Offscreen.replies s) + length (filter (λ e, Offscreen.answered e = true) events))%nat.
Proof.
  unfold Offscreen.run. revert s.
  induction events as [|e events IH]; intros s; [cbn; lia|].
  cbn [foldl]. rewrite IH, react_replies, filter_cons.
  destruct (Offscreen.answered e); [rewrite decide_True by done | rewrite decide_False by done];
    cbn [length]; lia.
Qed.

(** X24: the listener keeps the channel open ([return true]) for a
    [sendEmail] message, which is answered with the offscreen document's
    response exactly when both the context query and the delivery
    succeed, and with the error otherwise; no mail is posted when the
    context query fails. *)
Theorem send_email_reports_the_outcome request s :
  let out := Offscreen.onMessage E "sendEmail" request s in
  let target := head (Offscreen.contexts (Offscreen.ensureOffscreenDocument E s).1) in
  out.2 = ReturnedTrue
  ∧ Offscreen.replies out.1
    = Offscreen.replies s ++
      [match Offscreen.getContexts_error E with
       | Some e => Offscreen.Failed e
       | None =>
           match Offscreen.deliver E request target with
           | inr response => Offscreen.Sent response
           | inl e => Offscreen.Failed e
           end
       end]
  ∧ Offscreen.posted out.1
    = Offscreen.posted s ++
      match Offscreen.getContexts_error E with
      | Some _ => []
      | None => [(request, target)]
      end.
Proof.
  cbn zeta. unfold Offscreen.onMessage. rewrite decide_True by done. cbn [fst snd].
  destruct (ensure_cases s) as (_ & Hp & Hr & _).
  unfold Offscreen.handleSendEmail; cbn zeta.
  destruct (Offscreen.getContexts_error E) as [e|]; cbn.
  - rewrite Hr, Hp, app_nil_r. done.
  - destruct (Offscreen.deliver E request _); cbn; rewrite Hr, Hp; done.
Qed.

(** X25: when the browser answers the context query, the mail of a
    [sendEmail] message is addressed to the one offscreen document there
    is after the call; it leaves without a [targetId] only when no
    document existed and the browser refused to create one, and then the
    flag is still off. *)
Theorem mail_is_addressed_to_the_document request s :
  Offscreen.consistent s →
  Offscreen.getContexts_error E = None →
  let s' := Offscreen.handleSendEmail E request s in
  ∃ target,
    Offscreen.posted s' = Offscreen.posted s ++ [(request, target)]
    ∧ match target with
      | Some d => Offscreen.contexts s' = [d]
      | None =>
          Offscreen.contexts s = [] ∧ Offscreen.contexts s' = []
          ∧ Offscreen.createDocument_error E ≠ None
          ∧ Offscreen.offscreenCreated s' = false
      end.
Proof.
  intros Hs Hq. cbn zeta.
  destruct (handleSendEmail_frame request s) as [Hdocs Hflag].
  pose proof (consistent_ensure s Hs) as [Hlen Himp].
  destruct (ensure_cases s) as (_ & Hp & _ & Hc & _).
  exists (head (Offscreen.contexts (Offscreen.ensureOffscreenDocument E s).1)).
  split.
  - unfold Offscreen.handleSendEmail; cbn zeta. rewrite Hq.
    destruct (Offscreen.deliver E request _); cbn; by rewrite Hp.
  - rewrite Hdocs, Hflag.
    destruct (Offscreen.contexts (Offscreen.ensureOffscreenDocument E s).1)
      as [|d [|d' docs]] eqn:Hdocs1; cbn in *; [|done|lia].
    destruct Hc as [Hsame | (_ & _ & _ & _ & ?)]; [|done].
    repeat split; [done| |].
    + intros Hnone.
      revert Hdocs1. unfold Offscreen.ensureOffscreenDocument, Offscreen.createDocument.
      destruct Hs as [_ Hon].
      destruct (Offscreen.offscreenCreated s); [by intros; apply Hon|].
      rewrite Hq, <- Hsame, Hnone. done.
    + destruct (Offscreen.offscreenCreated _); [by destruct Himp | done].
Qed.

(** X26: [ensureOffscreenDocument] never rejects.  After a call either a
    document exists, the flag is on and nothing was logged, or the flag
    was and stays off and the one failure of the browser is logged, with
    nothing else changed. *)
Theorem ensure_swallows_failures s :
  Offscreen.consistent s →
  let out := Offscreen.ensureOffscreenDocument E s in
  out.2 = Fulfilled
  ∧ (Offscreen.offscreenCreated out.1 = true
     ∧ Offscreen.contexts out.1 ≠ []
     ∧ Offscreen.errors out.1 = Offscreen.errors s
     ∨ ∃ e, (Offscreen.getContexts_error E = Some e
             ∨ Offscreen.contexts s = [] ∧ Offscreen.createDocument_error E = Some e)
            ∧ Offscreen.offscreenCreated s = false
            ∧ out.1 = Offscreen.console_error "Error ensuring offscreen document:" e s).
Proof.
  intros [_ Hon]. cbn zeta.
  split; [by destruct (ensure_cases s)|].
  unfold Offscreen.ensureOffscreenDocument, Offscreen.createDocument.
  destruct (Offscreen.offscreenCreated s) eqn:Hflag; cbn [fst].
  { left. by auto. }
  destruct (Offscreen.getContexts_error E) as [e|]; cbn [fst].
  { right. exists e. by auto. }
  destruct (Offscreen.contexts s) as [|d docs] eqn:Hdocs; cbn [fst].
  - destruct (Offscreen.createDocument_error E) as [e|]; cbn [fst].
    + right. exists e. by auto.
    + left. by cbn.
  - left. cbn. by rewrite Hdocs.
Qed.

End offscreen.
(** X25, at concrete inputs: the mail goes to the new document, and
    leaves unaddressed where the document cannot be created. *)
Lemma mail_is_addressed_to_the_document_witness :
  Offscreen.consistent (Offscreen.loaded [])
  ∧ Offscreen.getContexts_error obliging = None
  ∧ Offscreen.getContexts_error no_offscreen = None
  ∧ (∃ target,
       Offscreen.posted (Offscreen.handleSendEmail obliging greeting (Offscreen.loaded []))
       = [(greeting, target)]
       ∧ target = Some "offscreen-1")
  ∧ ∃ target,
      Offscreen.posted (Offscreen.handleSendEmail no_offscreen greeting (Offscreen.loaded []))
      = [(greeting, target)]
      ∧ target = None.
Proof.
  assert (Hstart : Offscreen.consistent (Offscreen.loaded [])) by (split; [cbn; lia | done]).
  split; [exact Hstart|]. do 2 (split; [reflexivity|]).
  split.
  - destruct (mail_is_addressed_to_the_document obliging greeting (Offscreen.loaded [])
                Hstart eq_refl) as (target & Hposted & Htarget).
    exists target. split; [exact Hposted|].
    destruct target as [d|]; [|by destruct Htarget].
    change (Offscreen.contexts _) with ["offscreen-1"] in Htarget. congruence.
  - destruct (mail_is_addressed_to_the_document no_offscreen greeting (Offscreen.loaded [])
                Hstart eq_refl) as (target & Hposted & Htarget).
    exists target. split; [exact Hposted|].
    destruct target as [d|]; [|done].
    change (Offscreen.contexts _) with (@nil string) in Htarget. done.
Defined.

(** X26, at a concrete input: the refused creation is logged and the flag
    stays off. *)
Lemma ensure_swallows_failures_witness :
  Offscreen.consistent (Offscreen.loaded [])
  ∧ (Offscreen.ensureOffscreenDocument no_offscreen (Offscreen.loaded [])).2 = Fulfilled
  ∧ Offscreen.offscreenCreated
      (Offscreen.ensureOffscreenDocument no_offscreen (Offscreen.loaded [])).1 = false.
Proof.
  assert (Hstart : Offscreen.consistent (Offscreen.loaded [])) by (split; [cbn; lia | done]).
  destruct (ensure_swallows_failures no_offscreen (Offscreen.loaded []) Hstart)
    as (Hsettled & [(Hon & _) | (e & _ & _ & Hstate)]).
  - discriminate Hon.
  - split; [exact Hstart|]. split; [exact Hsettled|]. by rewrite Hstate.
Defined.

(** * The portal script's URL check *)

Section portal_urls.
Context (P : Platform).

Lemma starts_with_spec domain url :
  Portal.starts_with domain url = true ↔ ∃ post, url = domain +:+ post.
Proof.
  revert url. induction domain as [|a domain IH]; intros url; cbn.
  - split; [by exists url | done].
  - destruct url as [|b url]; cbn.
    + split; [done | by intros [post ?]].
    + rewrite andb_true_iff, bool_decide_eq_true, IH. split.
      * intros [-> [post ->]]. by exists post.
      * intros [post Heq]. injection Heq as -> ->. eauto.
Qed.

Lemma includes_spec domain url :
  Portal.includes domain url = true ↔ ∃ pre post, url = pre +:+ domain +:+ post.
Proof.
  induction url as [|b url IH]; cbn [Portal.includes].
  - rewrite orb_false_r, starts_with_spec. split.
    + intros [post ->]. by exists "", post.
    + intros ([|c pre] & post & Heq); [by exists post | done].
  - rewrite orb_true_iff, starts_with_spec, IH. split.
    + intros [[post ->] | (pre & post & ->)].
      * by exists "", post.
      * by exists (String b pre), post.
    + intros ([|c pre] & post & Heq).
      * left. by exists post.
      * right. injection Heq as -> ->. eauto.
Qed.

Lemma append_assoc (a b c : string) : (a +:+ b) +:+ c = a +:+ b +:+ c.
Proof.
  induction a as [|x a IH]; [done|].
  change (String x ((a +:+ b) +:+ c) = String x (a +:+ b +:+ c)). by f_equal.
Qed.

(** X27: [isFlexPortalUrl] holds of a URL exactly when the text
    [flexportal.com] or [localhost:3000] occurs somewhere in it, in the
    host or anywhere else; the entry [app.flexportal.com] of its list
    adds nothing. *)
Theorem portal_url_is_a_substring_test url :
  Portal.isFlexPortalUrl (Some url) = true
  ↔ ∃ pre post, url = pre +:+ "flexportal.com" +:+ post
                ∨ url = pre +:+ "localhost:3000" +:+ post.
Proof.
  unfold Portal.isFlexPortalUrl, Portal.portalDomains.
  destruct (decide (url = "")) as [->|Hne].
  - split; [done|]. intros ([|c pre] & post & [Heq | Heq]); discriminate Heq.
  - cbn [existsb]. rewrite orb_false_r, !orb_true_iff, !includes_spec. split.
    + intros [(pre & post & ->) | [(pre & post & ->) | (pre & post & ->)]].
      * exists pre, post. by left.
      * exists (pre +:+ "app."), post. left. by rewrite append_assoc.
      * exists pre, post. by right.
    + intros (pre & post & [-> | ->]); [left | right; right]; eauto.
Qed.

Lemma checkAuthenticationStatus_state url s :
  storage_fault P = None →
  Portal.checkAuthenticationStatus P url s
  = (if negb (stored_truthy (store (Portal.base s) !! "authToken"))
        && Portal.isFlexPortalUrl url
     then {| Portal.base := logged [visit_warning] (Portal.base s);
             Portal.notices := Portal.notices s;
             Portal.replies := Portal.replies s |}
     else s, Normal tt).
Proof.
  intros HP. unfold Portal.checkAuthenticationStatus.
  destruct url as [u|]; cbn [Portal.isFlexPortalUrl].
  - destruct (decide (u = "")).
    + by rewrite andb_false_r.
    + unfold Portal.lift, chrome_storage_local_get, mbind, mret, Portal.M_bind,
        Portal.M_ret, console_warn, modify. rewrite HP. cbn.
      destruct (negb _ && _); [done | by destruct s].
  - by rewrite andb_false_r.
Qed.

(** X28: when a tab update arrives and the store can be read, the portal
    script writes the unauthenticated-visit warning exactly when the
    update is a [complete] one, no truthy [authToken] is stored and the
    tab's URL mentions a portal domain; in every case it changes nothing
    else and sends nothing. *)
Theorem unauthenticated_visit_warns status url s :
  storage_fault P = None →
  let s' := (Portal.onUpdated P status url s).1 in
  (Portal.onUpdated P status url s).2 = Normal tt
  ∧ s' = (if bool_decide (status = Some "complete")
             && negb (stored_truthy (store (Portal.base s) !! "authToken"))
             && Portal.isFlexPortalUrl url
          then {| Portal.base := logged [visit_warning] (Portal.base s);
                  Portal.notices := Portal.notices s;
                  Portal.replies := Portal.replies s |}
          else s)
  ∧ store (Portal.base s') = store (Portal.base s)
  ∧ Portal.notices s' = Portal.notices s
  ∧ Portal.replies s' = Portal.replies s.
Proof.
  intros HP. cbn zeta. unfold Portal.onUpdated.
  destruct (decide (status = Some "complete")) as [Hs|Hs].
  - rewrite bool_decide_true by done.
    rewrite checkAuthenticationStatus_state by done. cbn [fst snd andb].
    destruct (negb _ && _); by repeat split.
  - rewrite bool_decide_false by done. by repeat split.
Qed.

End portal_urls.
(** X28, at concrete inputs: a completed load of a portal page without a
    token is warned about; with a token stored it is not. *)
Lemma unauthenticated_visit_warns_witness :
  storage_fault reliable = None
  ∧ console (Portal.base (Portal.onUpdated reliable (Some "complete")
                            (Some "https://app.flexportal.com/home")
                            (Portal.start (fresh_world 0))).1)
    = [visit_warning]
  ∧ console (Portal.base (Portal.onUpdated reliable (Some "complete")
                            (Some "https://app.flexportal.com/home") signed_in).1)
    = [].
Proof.
  split; [reflexivity|]. split.
  - destruct (unauthenticated_visit_warns reliable (Some "complete")
                (Some "https://app.flexportal.com/home") (Portal.start (fresh_world 0))
                eq_refl) as (_ & -> & _).
    reflexivity.
  - destruct (unauthenticated_visit_warns reliable (Some "complete")
                (Some "https://app.flexportal.com/home") signed_in eq_refl) as (_ & -> & _).
    reflexivity.
Defined.

